(** * MultiServerMCPClient: a shallow embedding of [src/client.ts]

    The development follows the layout of the TypeScript class:

    - JavaScript values as the validator sees them (raw descriptors are
      untyped at run time), with [typeof], truthiness, [in] and
      [Object.entries];
    - environment-variable interpolation ([loadConfigFromFile],
      [processEnvVarsInConfig], [processEnvVarsRecursively]);
    - the configuration validator ([processConnections],
      [processStdioConfig], [processSSEConfig]);
    - the session supervisor as a state-and-exception monad over the
      private fields of the class ([initializeConnections],
      [attemptReconnect], [close]) and the tool registry ([getTools]);
      every awaited operation is recorded with the maps as other flows
      of control see them meanwhile, and [close], whose awaits set the
      restart handlers off, takes what those flows do as a schedule.

    Numbers are modelled as integers ([Z]); the SDK, the platform [URL]
    class and the tool adapter are external and enter as oracles. *)

From Stdlib Require Import String Ascii List ZArith Bool Arith Lia DecimalString.
Import ListNotations.
Open Scope list_scope.
Open Scope string_scope.

(* ================================================================= *)
(** ** JavaScript values *)

Module JS.

(** [Num] carries an integer: the numbers the client computes with
    are attempt limits, attempt counters and delays in milliseconds.
    Fractions, [NaN] and the infinities, which [typeof] also calls
    numbers, are outside the model; what is proved of the reconnect
    loop is proved for integer limits and delays. *)
#[warnings="-register-all"]
Inductive value : Type :=
| Undefined
| Null
| Bool (b : bool)
| Num (n : Z)
| Str (s : string)
| Arr (items : list value)
| Obj (fields : list (string * value)).

(** [typeof v] *)
Definition typeof (v : value) : string :=
  match v with
  | Undefined => "undefined"
  | Null => "object"
  | Bool _ => "boolean"
  | Num _ => "number"
  | Str _ => "string"
  | Arr _ | Obj _ => "object"
  end.

(** Truthiness, as used by [if (x)], [!x] and [x && y]. *)
Definition truthy (v : value) : bool :=
  match v with
  | Undefined | Null => false
  | Bool b => b
  | Num n => negb (n =? 0)%Z
  | Str s => negb (s =? "")
  | Arr _ | Obj _ => true
  end.

Definition isArray (v : value) : bool :=
  match v with Arr _ => true | _ => false end.

Definition isString (v : value) : bool :=
  match v with Str _ => true | _ => false end.

(** The property key of array index [i]: its decimal numeral. *)
Definition index_key (i : nat) : string :=
  NilEmpty.string_of_uint (Nat.to_uint i).

Fixpoint assoc {A : Type} (k : string) (l : list (string * A)) : option A :=
  match l with
  | [] => None
  | (k', v) :: rest => if k' =? k then Some v else assoc k rest
  end.

Fixpoint indexed_from (i : nat) (items : list value) : list (string * value) :=
  match items with
  | [] => []
  | x :: rest => (index_key i, x) :: indexed_from (S i) rest
  end.

(** Own enumerable properties in enumeration order.  Only own properties
    are modelled: none of the names the client reads lives on a
    prototype. *)
Definition own_entries (v : value) : list (string * value) :=
  match v with
  | Obj fields => fields
  | Arr items => indexed_from 0 items
  | Str s => indexed_from 0 (map (fun c => Str (String c EmptyString)) (list_ascii_of_string s))
  | _ => []
  end.

(** [Object.entries(v)]; [None] is the [TypeError] raised on [null] and
    [undefined]. *)
Definition Object_entries (v : value) : option (list (string * value)) :=
  match v with
  | Undefined | Null => None
  | _ => Some (own_entries v)
  end.

(** [Object.values(v)] for an object or array [v]. *)
Definition Object_values (v : value) : list value := map snd (own_entries v).

(** [k in v] for an object or array [v] (on a primitive the operator
    throws; the client guards every use by [typeof v === "object"]). *)
Definition has (k : string) (v : value) : bool :=
  match v with
  | Obj _ | Arr _ =>
      match assoc k (own_entries v) with Some _ => true | None => false end
  | _ => false
  end.

Definition is_undefined (v : value) : bool :=
  match v with Undefined => true | _ => false end.

Definition is_null (v : value) : bool :=
  match v with Null => true | _ => false end.

(** [v === s] for a string literal [s] *)
Definition is_str (v : value) (s : string) : bool :=
  match v with Str t => t =? s | _ => false end.

(** [map.set(k, x)] on an association list: an existing key keeps its
    place, a new key goes last.  This is the order of a [Map], and of
    the properties of an object whose names are no array indices. *)
Fixpoint set_assoc {A : Type} (k : string) (x : A) (l : list (string * A))
  : list (string * A) :=
  match l with
  | [] => [(k, x)]
  | (k', y) :: rest =>
      if k' =? k then (k', x) :: rest else (k', y) :: set_assoc k x rest
  end.

(** The array index a property name stands for: the name is the
    canonical numeral of an integer below [2^32 - 1]. *)
Definition array_index (k : string) : option N :=
  match NilEmpty.uint_of_string k with
  | Some u =>
      let n := N.of_uint u in
      if (NilEmpty.string_of_uint (N.to_uint n) =? k) && (n <? 4294967295)%N
      then Some n
      else None
  | None => None
  end.

(** The place of a new property whose name is the array index [n]:
    after the indices below [n], before every other property. *)
Fixpoint insert_index {A : Type} (n : N) (k : string) (x : A)
    (l : list (string * A)) : list (string * A) :=
  match l with
  | [] => [(k, x)]
  | (k', y) :: rest =>
      match array_index k' with
      | Some n' =>
          if (n' <? n)%N then (k', y) :: insert_index n k x rest
          else (k, x) :: l
      | None => (k, x) :: l
      end
  end.

(** [obj[k] = x] on the properties of an object, kept in enumeration
    order: an existing property keeps its place; a new one goes among
    the array indices, in ascending order, when its name is one, and
    last otherwise. *)
Definition obj_set {A : Type} (k : string) (x : A) (l : list (string * A))
  : list (string * A) :=
  match array_index k, assoc k l with
  | Some n, None => insert_index n k x l
  | _, _ => set_assoc k x l
  end.

(** [v.k = x] for an object [v] *)
Definition set (v : value) (k : string) (x : value) : value :=
  match v with
  | Obj fields => Obj (obj_set k x fields)
  | _ => v
  end.

(** [v.k] for a non-null [v]: the property's value, [undefined] when it
    is missing. *)
Definition get (v : value) (k : string) : value :=
  match assoc k (own_entries v) with
  | Some x => x
  | None => Undefined
  end.

(** [String.prototype.startsWith] *)
Definition startsWith (s p : string) : bool := String.prefix p s.

(** [String.prototype.endsWith] *)
Definition endsWith (s p : string) : bool :=
  (String.length p <=? String.length s)%nat
  && (substring (String.length s - String.length p) (String.length p) s =? p).

(** [s.slice(2, -1)] *)
Definition slice_2_m1 (s : string) : string :=
  substring 2 (String.length s - 1 - 2) s.

(** The double-quote character as a string. *)
Definition dq : string := String (ascii_of_nat 34) EmptyString.

(** [`"${s}"`] *)
Definition quoted (s : string) : string := dq ++ s ++ dq.

End JS.

Import JS.

(* ================================================================= *)
(** ** Errors *)

(** What a [throw] can carry: the client's own error class, or an error
    raised by the platform or the SDK (kept as its string form). *)
Inductive thrown : Type :=
| MCPClientError (message : string) (serverName : option string)
| TypeError (message : string)
| ExternalError (text : string).

(** [`${error}`] *)
Definition error_text (e : thrown) : string :=
  match e with
  | MCPClientError m _ => "MCPClientError: " ++ m
  | TypeError m => "TypeError: " ++ m
  | ExternalError t => t
  end.

Definition isMCPClientError (e : thrown) : bool :=
  match e with MCPClientError _ _ => true | _ => false end.

(** [error.serverName] *)
Definition error_serverName (e : thrown) : option string :=
  match e with MCPClientError _ n => n | _ => None end.

(** A computation that may throw and that writes debug lines. *)
Definition Logged (A : Type) : Type := (thrown + A) * list string.

(* ================================================================= *)
(** ** Connection descriptors (the interfaces of client.ts) *)

Record RestartPolicy : Type := mkPolicy {
  enabled : option bool;
  maxAttempts : option Z;
  delayMs : option Z
}.

Record StdioConnection : Type := mkStdio {
  command : string;
  args : list string;
  env : option (list (string * string));
  encoding : option string;
  encodingErrorHandler : option string;
  restart : option RestartPolicy
}.

Record SSEConnection : Type := mkSSE {
  url : string;
  headers : option (list (string * string));
  useNodeEventSource : option bool;
  reconnect : option RestartPolicy
}.

(** [Connection = StdioConnection | SSEConnection]; the [transport]
    discriminator is the constructor. *)
Inductive Connection : Type :=
| Stdio (c : StdioConnection)
| SSE (c : SSEConnection).

Definition transport (c : Connection) : string :=
  match c with Stdio _ => "stdio" | SSE _ => "sse" end.

(* ================================================================= *)
(** ** Environment-variable interpolation *)

Section Interpolation.

(** [process.env] *)
Variable process_env : string -> option string.

(** [value.startsWith("${") && value.endsWith("}")] *)
Definition is_placeholder (s : string) : bool :=
  startsWith s "${" && endsWith s "}".

(** [process.env[envVar]] as a value *)
Definition env_value (envVar : string) : value :=
  match process_env envVar with
  | Some envValue => Str envValue
  | None => Undefined
  end.

(** One entry of the loop of [processEnvVarsRecursively]; [is_env] is
    [key === "env"] and [self] the recursive call. *)
Definition recur_entry (self : value -> value) (is_env : bool) (v : value) : value :=
  match v with
  | Str s =>
      if is_placeholder s then
        let envVar := slice_2_m1 s in
        let envValue := env_value envVar in
        if truthy envValue then envValue else v
      else v
  | Arr _ | Obj _ => if negb is_env then self v else v
  | _ => v
  end.

(** [processEnvVarsRecursively(obj)]; the in-place update is returned as
    the new value.  The keys of an array are its indices, none of which
    is ["env"]. *)
Fixpoint processEnvVarsRecursively (obj : value) : value :=
  match obj with
  | Obj fields =>
      Obj (map (fun kv =>
                  (fst kv,
                   recur_entry processEnvVarsRecursively (fst kv =? "env") (snd kv)))
               fields)
  | Arr items => Arr (map (recur_entry processEnvVarsRecursively false) items)
  | _ => obj
  end.

(** One entry of the [config.env] loop of [processEnvVarsInConfig]: the
    new value of the entry and the debug lines written. *)
Definition env_entry (serverName : string) (v : value) : value * list string :=
  match v with
  | Str s =>
      if is_placeholder s then
        let envVar := slice_2_m1 s in
        let envValue := env_value envVar in
        if truthy envValue then (envValue, [])
        else (v, ["WARN: Environment variable " ++ envVar
                   ++ " not found for server " ++ quoted serverName])
      else (v, [])
  | _ => (v, [])
  end.

(** The [config.env] loop of [processEnvVarsInConfig]. *)
Definition process_env_object (serverName : string) (envObj : value)
  : value * list string :=
  match envObj with
  | Obj fields =>
      (Obj (map (fun kv => (fst kv, fst (env_entry serverName (snd kv)))) fields),
       flat_map (fun kv => snd (env_entry serverName (snd kv))) fields)
  | Arr items =>
      (Arr (map (fun x => fst (env_entry serverName x)) items),
       flat_map (fun x => snd (env_entry serverName x)) items)
  | _ => (envObj, [])
  end.

(** The body of the loop of [processEnvVarsInConfig] for one server. *)
Definition process_server (serverName : string) (config : value)
  : value * list string :=
  if negb (typeof config =? "object") || is_null config then (config, [])
  else
    let envObj := get config "env" in
    let '(config1, log) :=
      if truthy envObj && (typeof envObj =? "object") then
        let '(envObj', log) := process_env_object serverName envObj in
        (set config "env" envObj', log)
      else (config, []) in
    (processEnvVarsRecursively config1, log).

(** [processEnvVarsInConfig(servers)] on the entries of [servers]. *)
Definition processEnvVarsInConfig (servers : list (string * value))
  : list (string * value) * list string :=
  (map (fun kv => (fst kv, fst (process_server (fst kv) (snd kv)))) servers,
   flat_map (fun kv => snd (process_server (fst kv) (snd kv))) servers).

(** [value.transport === "stdio"], the filter of [loadConfigFromFile] *)
Definition transport_is_stdio (v : value) : bool :=
  is_str (get v "transport") "stdio".

(** The descriptors selected by the filter are the very objects held by
    [config.servers], so what [processEnvVarsInConfig] rewrites in place
    shows in the returned configuration: [interpolate_servers] is
    [config.servers] after the call. *)
Definition interpolate_servers (servers : value) : value * list string :=
  let selected :=
    filter (fun kv => transport_is_stdio (snd kv)) (own_entries servers) in
  let updated (k : string) (v : value) : value :=
    if transport_is_stdio v then fst (process_server k v) else v in
  (match servers with
   | Obj fields => Obj (map (fun kv => (fst kv, updated (fst kv) (snd kv))) fields)
   | Arr items =>
       Arr (map (fun kv => updated (fst kv) (snd kv)) (indexed_from 0 items))
   | _ => servers
   end,
   snd (processEnvVarsInConfig selected)).

(** [loadConfigFromFile(configPath)], given the value [JSON.parse]
    returned for the file. *)
Definition loadConfigFromFile (configPath : string) (config : value)
  : Logged value :=
  if negb (truthy config) || negb (typeof config =? "object")
     || negb (has "servers" config)
  then
    (inl (MCPClientError "Invalid MCP configuration: missing 'servers' property" None),
     ["ERROR: Invalid MCP configuration from " ++ configPath
      ++ ": missing 'servers' property"])
  else
    let servers := get config "servers" in
    match Object_entries servers with
    | None =>
        (inl (TypeError "Cannot convert undefined or null to object"), [])
    | Some entries =>
        if existsb (fun kv => is_null (snd kv) || is_undefined (snd kv)) entries
        then (inl (TypeError "Cannot read properties of null (reading 'transport')"), [])
        else
          let '(servers', log) := interpolate_servers servers in
          (inr (set config "servers" servers'), log)
    end.

End Interpolation.

(* ================================================================= *)
(** ** The configuration validator *)

Module Validator.

(** Sequencing of checks that may throw. *)
Definition bindE {A B : Type} (m : thrown + A) (k : A -> thrown + B) : thrown + B :=
  match m with
  | inl e => inl e
  | inr a => k a
  end.

Declare Scope check_scope.
Delimit Scope check_scope with check.

Notation "x <- m ;; k" := (bindE m (fun x => k))
  (at level 61, m at next level, right associativity) : check_scope.

Local Open Scope check_scope.

(** [if (c) throw e] *)
Definition throw_if (c : bool) (e : thrown) : thrown + unit :=
  if c then inl e else inr tt.

(** [try { m } catch { throw e }] *)
Definition rethrow_as {A : Type} (m : thrown + A) (e : thrown) : thrown + A :=
  match m with
  | inl _ => inl e
  | inr a => inr a
  end.

(** [new MCPClientError(message)] *)
Definition config_error (message : string) : thrown := MCPClientError message None.

(** [isStdioConnection(config)] *)
Definition isStdioConnection (config : value) : bool :=
  (typeof config =? "object")
  && negb (is_null config)
  && (negb (has "transport" config) || is_str (get config "transport") "stdio")
  && has "command" config
  && (negb (has "args" config) || isArray (get config "args")).

(** [isSSEConnection(config)] *)
Definition isSSEConnection (config : value) : bool :=
  (typeof config =? "object")
  && negb (is_null config)
  && has "transport" config
  && is_str (get config "transport") "sse"
  && has "url" config
  && (typeof (get config "url") =? "string").

Definition string_of (v : value) : string :=
  match v with Str s => s | _ => "" end.

Definition bool_of (v : value) : option bool :=
  match v with Bool b => Some b | _ => None end.

Definition number_of (v : value) : option Z :=
  match v with Num n => Some n | _ => None end.

(** A flat string-valued object as [Record<string, string>]. *)
Definition string_record (v : value) : list (string * string) :=
  map (fun kv => (fst kv, string_of (snd kv))) (own_entries v).

(** [["strict", "ignore", "replace"].includes(v)] *)
Definition is_error_handler (v : value) : bool :=
  is_str v "strict" || is_str v "ignore" || is_str v "replace".

(** The [restart] block of [processStdioConfig] and the [reconnect]
    block of [processSSEConfig]: the two are the same code up to the
    field name [field] that appears in the messages. *)
Definition process_policy (field serverName : string) (policy : value)
  : thrown + option RestartPolicy :=
  _ <- throw_if (truthy policy && negb (typeof policy =? "object"))
         (config_error ("Invalid " ++ field ++ " for server " ++ dq ++ serverName
                        ++ " - must be an object")) ;;
  if truthy policy && (typeof policy =? "object") then
    let en := get policy "enabled" in
    let ma := get policy "maxAttempts" in
    let de := get policy "delayMs" in
    _ <- throw_if (negb (is_undefined en) && negb (typeof en =? "boolean"))
           (config_error ("Invalid " ++ field ++ ".enabled for server " ++ dq
                          ++ serverName ++ " - must be a boolean")) ;;
    _ <- throw_if (negb (is_undefined ma) && negb (typeof ma =? "number"))
           (config_error ("Invalid " ++ field ++ ".maxAttempts for server " ++ dq
                          ++ serverName ++ " - must be a number")) ;;
    _ <- throw_if (negb (is_undefined de) && negb (typeof de =? "number"))
           (config_error ("Invalid " ++ field ++ ".delayMs for server " ++ dq
                          ++ serverName ++ " - must be a number")) ;;
    inr (Some {| enabled := Some (truthy en);
                 maxAttempts := number_of ma;
                 delayMs := number_of de |})
  else inr None.

(** [processStdioConfig(serverName, config)] *)
Definition processStdioConfig (serverName : string) (config : value)
  : thrown + StdioConnection :=
  let cmd := get config "command" in
  let ar := get config "args" in
  let ev := get config "env" in
  let enc := get config "encoding" in
  let handler := get config "encodingErrorHandler" in
  _ <- throw_if (negb (truthy cmd) || negb (typeof cmd =? "string"))
         (config_error ("Missing or invalid command for server " ++ quoted serverName)) ;;
  _ <- throw_if (negb (is_undefined ar) && negb (isArray ar))
         (config_error ("Invalid args for server " ++ dq ++ serverName
                        ++ " - must be an array of strings")) ;;
  _ <- throw_if (negb (is_undefined ar) && negb (forallb isString (Object_values ar)))
         (config_error ("Invalid args for server " ++ dq ++ serverName
                        ++ " - must be an array of strings")) ;;
  _ <- throw_if (truthy ev && negb (typeof ev =? "object"))
         (config_error ("Invalid env for server " ++ dq ++ serverName
                        ++ " - must be an object of key-value pairs")) ;;
  _ <- throw_if (truthy ev && (typeof ev =? "object") && isArray ev)
         (config_error ("Invalid env for server " ++ dq ++ serverName
                        ++ " - must be an object of key-value pairs")) ;;
  _ <- throw_if (truthy ev && (typeof ev =? "object")
                 && negb (forallb isString (Object_values ev)))
         (config_error ("Invalid env for server " ++ dq ++ serverName
                        ++ " - must be an object of key-value pairs with string values")) ;;
  _ <- throw_if (negb (is_undefined enc) && negb (typeof enc =? "string"))
         (config_error ("Invalid encoding for server " ++ dq ++ serverName
                        ++ " - must be a string")) ;;
  _ <- throw_if (negb (is_undefined handler) && negb (is_error_handler handler))
         (config_error ("Invalid encodingErrorHandler for server " ++ dq ++ serverName
                        ++ " - must be one of: strict, ignore, replace")) ;;
  policy <- process_policy "restart" serverName (get config "restart") ;;
  inr {| command := string_of cmd;
         args := map string_of (Object_values ar);
         env := if truthy ev && (typeof ev =? "object")
                then Some (string_record ev) else None;
         encoding := if typeof enc =? "string" then Some (string_of enc) else None;
         encodingErrorHandler :=
           if is_error_handler handler then Some (string_of handler) else None;
         restart := policy |}.

Section WithURL.

(** The platform's [URL] class, as far as the validator uses it:
    [URL_protocol s] is [new URL(s).protocol], and [None] when the
    constructor throws. *)
Variable URL_protocol : string -> option string.

(** The [try { new URL(...) ... } catch { throw ... }] block of
    [processSSEConfig]. *)
Definition check_url (serverName : string) (u : string) : thrown + unit :=
  rethrow_as
    (match URL_protocol u with
     | None => inl (TypeError "Invalid URL")
     | Some protocol =>
         throw_if (negb (startsWith protocol "http"))
           (config_error ("Invalid url for server " ++ dq ++ serverName
                          ++ " - must be a valid HTTP or HTTPS URL"))
     end)
    (config_error ("Invalid url for server " ++ dq ++ serverName
                   ++ " - must be a valid URL")).

(** [processSSEConfig(serverName, config)] *)
Definition processSSEConfig (serverName : string) (config : value)
  : thrown + SSEConnection :=
  let u := get config "url" in
  let tr := get config "transport" in
  let hd := get config "headers" in
  let nes := get config "useNodeEventSource" in
  _ <- throw_if (negb (truthy u) || negb (typeof u =? "string"))
         (config_error ("Missing or invalid url for server " ++ quoted serverName)) ;;
  _ <- check_url serverName (string_of u) ;;
  _ <- throw_if (negb (truthy tr) || negb (is_str tr "sse"))
         (config_error ("Invalid transport for server " ++ dq ++ serverName
                        ++ " - must be 'sse'")) ;;
  _ <- throw_if (truthy hd && negb (typeof hd =? "object"))
         (config_error ("Invalid headers for server " ++ dq ++ serverName
                        ++ " - must be an object")) ;;
  _ <- throw_if (truthy hd && (typeof hd =? "object") && isArray hd)
         (config_error ("Invalid headers for server " ++ dq ++ serverName
                        ++ " - must be an object of key-value pairs")) ;;
  _ <- throw_if (truthy hd && (typeof hd =? "object")
                 && negb (forallb isString (Object_values hd)))
         (config_error ("Invalid headers for server " ++ dq ++ serverName
                        ++ " - must be an object of key-value pairs with string values")) ;;
  _ <- throw_if (negb (is_undefined nes) && negb (typeof nes =? "boolean"))
         (config_error ("Invalid useNodeEventSource for server " ++ dq ++ serverName
                        ++ " - must be a boolean")) ;;
  policy <- process_policy "reconnect" serverName (get config "reconnect") ;;
  inr {| url := string_of u;
         headers := if truthy hd && (typeof hd =? "object")
                    then Some (string_record hd) else None;
         useNodeEventSource := bool_of nes;
         reconnect := policy |}.

(** The loop of [processConnections]: [processed] is
    [processedConnections] so far. *)
Fixpoint processConnections_loop (entries : list (string * value))
    (processed : list (string * Connection)) : Logged (list (string * Connection)) :=
  match entries with
  | [] => (inr processed, [])
  | (serverName, config) :: rest =>
      if negb (typeof config =? "object") || is_null config then
        let '(r, log) := processConnections_loop rest processed in
        (r, ("WARN: Invalid configuration for server " ++ quoted serverName
             ++ ". Skipping.") :: log)
      else if isStdioConnection config then
        match processStdioConfig serverName config with
        | inl e => (inl e, [])
        | inr c => processConnections_loop rest (obj_set serverName (Stdio c) processed)
        end
      else if isSSEConnection config then
        match processSSEConfig serverName config with
        | inl e => (inl e, [])
        | inr c => processConnections_loop rest (obj_set serverName (SSE c) processed)
        end
      else
        (inl (config_error ("Server " ++ quoted serverName
                            ++ " has invalid or unsupported configuration. Skipping.")),
         [])
  end.

(** [processConnections(connections)] *)
Definition processConnections (connections : value)
  : Logged (list (string * Connection)) :=
  match Object_entries connections with
  | None => (inl (TypeError "Cannot convert undefined or null to object"), [])
  | Some entries => processConnections_loop entries []
  end.

(** What [fromConfigFile] and [addConfigFromFile] run inside their
    [try]: load the file, then validate its [servers]. *)
Definition load_and_process (process_env : string -> option string)
    (configPath : string) (config : value) : Logged (list (string * Connection)) :=
  match loadConfigFromFile process_env configPath config with
  | (inl e, log) => (inl e, log)
  | (inr config', log) =>
      let '(r, log') := processConnections (get config' "servers") in
      (r, (log ++ log')%list)
  end.

End WithURL.

End Validator.

Import Validator.

(* ================================================================= *)
(** ** The session supervisor *)

Module Supervisor.

(** A discovered tool ([StructuredToolInterface]); the registry only
    reads its name. *)
Record Tool : Type := mkTool {
  tool_name : string;
  tool_description : string
}.

(** Transports and protocol clients are objects; each is named by its
    rank among the objects of its class created so far. *)
Definition TransportId : Type := nat.
Definition ClientId : Type := nat.

(** The second argument of [new SSEClientTransport(url, options)]. *)
Inductive SSEOptions : Type :=
| NoOptions
| EmptyInits
| RequestInitHeaders (hs : list (string * string)).

(** How a transport was constructed. *)
Inductive TransportInit : Type :=
| StdioInit (cmd : string) (arguments : list string)
            (environment : option (list (string * string)))
| SSEInit (address : string) (options : SSEOptions).

(** [globalThis.EventSource] *)
Inductive EventSourceImpl : Type :=
| DefaultEventSource
| ExtendedEventSource
| NodeEventSource.

(** A cleanup closure: it closes the transport it captured. *)
Record Cleanup : Type := mkCleanup {
  cleanup_server : string;
  cleanup_transport : TransportId
}.

(** The [onclose] closure installed by [setupStdioRestart] and
    [setupSSEReconnect]: it captures the server name, the descriptor and
    the policy. *)
Record Hook : Type := mkHook {
  hook_server : string;
  hook_connection : Connection;
  hook_policy : RestartPolicy
}.

(** The bookkeeping maps, as another flow of control sees them while
    the supervisor is suspended in an [await]. *)
Record Snapshot : Type := mkSnapshot {
  seen_clients : list (string * ClientId);
  seen_tools : list (string * list Tool);
  seen_transports : list (string * TransportId)
}.

(** The external operations the supervisor awaits. *)
Inductive Call : Type :=
| CallSleep (ms : Z)
| CallImport (module_name : string)
| CallConnect (client : ClientId) (tr : TransportId)
| CallLoadTools (serverName : string) (client : ClientId)
| CallClose (tr : TransportId)
| CallOriginalOnClose (tr : TransportId).

(** The private fields of [MultiServerMCPClient], followed by the part
    of the run-time the class acts on.  A JavaScript [Map] keeps its
    keys in insertion order, hence association lists.  The debug lines
    of the supervisor change no state and are left out; the operations
    it awaits are recorded in [trace], in order. *)
Record State : Type := mkState {
  clients : list (string * ClientId);
  serverNameToTools : list (string * list Tool);
  connections : option (list (string * Connection));
  cleanupFunctions : list Cleanup;
  transportInstances : list (string * TransportId);
  transports : list TransportInit;
  client_count : nat;
  onclose : list (TransportId * Hook);
  globalEventSource : EventSourceImpl;
  trace : list (Call * Snapshot)
}.

(** The outside world: what each awaited operation does.  [inr] is
    normal completion with the value produced, [inl e] a rejection with
    [e]; [URL_protocol s] is [new URL(s).protocol], and [None] when the
    constructor throws. *)
Record World : Type := mkWorld {
  URL_protocol : string -> option string;
  import_outcome : string -> thrown + unit;
  connect_outcome : ClientId -> TransportId -> thrown + unit;
  loadMcpTools_outcome : string -> ClientId -> thrown + list Tool;
  close_outcome : TransportId -> thrown + unit;
  originalOnClose_outcome : TransportId -> thrown + unit
}.

(** *** [Map] operations *)

(** [map.has(k)] *)
Definition map_has {A : Type} (k : string) (m : list (string * A)) : bool :=
  match assoc k m with Some _ => true | None => false end.

(** [map.delete(k)] *)
Fixpoint map_delete {A : Type} (k : string) (m : list (string * A))
  : list (string * A) :=
  match m with
  | [] => []
  | (k', v) :: rest =>
      if k' =? k then map_delete k rest else (k', v) :: map_delete k rest
  end.

(** [map.values()] *)
Definition map_values {A : Type} (m : list (string * A)) : list A := map snd m.

(** *** The monad: state, and completion that is normal or abrupt *)

Inductive Outcome (A : Type) : Type :=
| Return (a : A)
| Throw (e : thrown).

Arguments Return {A} a.
Arguments Throw {A} e.

Definition M (A : Type) : Type := State -> Outcome A * State.

Definition ret {A : Type} (a : A) : M A := fun st => (Return a, st).

Definition throw {A : Type} (e : thrown) : M A := fun st => (Throw e, st).

Definition bind {A B : Type} (m : M A) (k : A -> M B) : M B :=
  fun st =>
    match m st with
    | (Return a, st') => k a st'
    | (Throw e, st') => (Throw e, st')
    end.

(** [try { m } catch (error) { handler(error) }]: what [m] did to the
    state before it threw stays done. *)
Definition try_catch {A : Type} (m : M A) (handler : thrown -> M A) : M A :=
  fun st =>
    match m st with
    | (Return a, st') => (Return a, st')
    | (Throw e, st') => handler e st'
    end.

Definition gets {A : Type} (f : State -> A) : M A := fun st => (Return (f st), st).

Definition modify (f : State -> State) : M unit := fun st => (Return tt, f st).

Declare Scope sup_scope.
Delimit Scope sup_scope with sup.

Notation "x <- m ;; k" := (bind m (fun x => k))
  (at level 61, m at next level, right associativity) : sup_scope.
Notation "m ;; k" := (bind m (fun _ => k))
  (at level 61, right associativity) : sup_scope.

Local Open Scope sup_scope.

Definition when (c : bool) (m : M unit) : M unit := if c then m else ret tt.

(** *** Field updates *)

Definition set_clients (f : list (string * ClientId) -> list (string * ClientId))
    (st : State) : State :=
  mkState (f (clients st)) (serverNameToTools st) (connections st)
          (cleanupFunctions st) (transportInstances st) (transports st)
          (client_count st) (onclose st) (globalEventSource st) (trace st).

Definition set_tools (f : list (string * list Tool) -> list (string * list Tool))
    (st : State) : State :=
  mkState (clients st) (f (serverNameToTools st)) (connections st)
          (cleanupFunctions st) (transportInstances st) (transports st)
          (client_count st) (onclose st) (globalEventSource st) (trace st).

Definition set_connections (c : option (list (string * Connection)))
    (st : State) : State :=
  mkState (clients st) (serverNameToTools st) c
          (cleanupFunctions st) (transportInstances st) (transports st)
          (client_count st) (onclose st) (globalEventSource st) (trace st).

Definition set_cleanups (f : list Cleanup -> list Cleanup) (st : State) : State :=
  mkState (clients st) (serverNameToTools st) (connections st)
          (f (cleanupFunctions st)) (transportInstances st) (transports st)
          (client_count st) (onclose st) (globalEventSource st) (trace st).

Definition set_transportInstances
    (f : list (string * TransportId) -> list (string * TransportId))
    (st : State) : State :=
  mkState (clients st) (serverNameToTools st) (connections st)
          (cleanupFunctions st) (f (transportInstances st)) (transports st)
          (client_count st) (onclose st) (globalEventSource st) (trace st).

Definition set_transports (f : list TransportInit -> list TransportInit)
    (st : State) : State :=
  mkState (clients st) (serverNameToTools st) (connections st)
          (cleanupFunctions st) (transportInstances st) (f (transports st))
          (client_count st) (onclose st) (globalEventSource st) (trace st).

Definition set_client_count (n : nat) (st : State) : State :=
  mkState (clients st) (serverNameToTools st) (connections st)
          (cleanupFunctions st) (transportInstances st) (transports st)
          n (onclose st) (globalEventSource st) (trace st).

Definition set_onclose (f : list (TransportId * Hook) -> list (TransportId * Hook))
    (st : State) : State :=
  mkState (clients st) (serverNameToTools st) (connections st)
          (cleanupFunctions st) (transportInstances st) (transports st)
          (client_count st) (f (onclose st)) (globalEventSource st) (trace st).

Definition set_globalEventSource (i : EventSourceImpl) (st : State) : State :=
  mkState (clients st) (serverNameToTools st) (connections st)
          (cleanupFunctions st) (transportInstances st) (transports st)
          (client_count st) (onclose st) i (trace st).

Definition snapshot (st : State) : Snapshot :=
  mkSnapshot (clients st) (serverNameToTools st) (transportInstances st).

Definition record_call (c : Call) (st : State) : State :=
  mkState (clients st) (serverNameToTools st) (connections st)
          (cleanupFunctions st) (transportInstances st) (transports st)
          (client_count st) (onclose st) (globalEventSource st)
          (trace st ++ [(c, snapshot st)])%list.

(** [await] of an external operation [c] whose outcome is [result]:
    the call is recorded together with the bookkeeping visible while the
    supervisor is suspended. *)
Definition await {A : Type} (c : Call) (result : thrown + A) : M A :=
  fun st =>
    match result with
    | inr a => (Return a, record_call c st)
    | inl e => (Throw e, record_call c st)
    end.

(** The state of a freshly constructed client without connections. *)
Definition initial_state : State :=
  mkState [] [] None [] [] [] 0 [] DefaultEventSource [].

(** *** The operations of the class *)

Section WithWorld.

Variable w : World.

(** [new URL(url)] followed by [new SSEClientTransport(..., options)];
    the new transport is returned. *)
Definition new_SSEClientTransport (address : string) (options : SSEOptions)
  : M TransportId :=
  match URL_protocol w address with
  | None => throw (TypeError "Invalid URL")
  | Some _ =>
      t <- gets (fun st => length (transports st)) ;;
      modify (set_transports (fun l => l ++ [SSEInit address options])%list) ;;
      ret t
  end.

(** [new StdioClientTransport({ command, args, env })] *)
Definition new_StdioClientTransport (c : StdioConnection) : M TransportId :=
  t <- gets (fun st => length (transports st)) ;;
  modify (set_transports
            (fun l => l ++ [StdioInit (command c) (args c) (env c)])%list) ;;
  ret t.

(** [new Client({ name, version })] *)
Definition new_Client : M ClientId :=
  c <- gets client_count ;;
  modify (set_client_count (S c)) ;;
  ret c.

(** [await import(name)] *)
Definition import (module_name : string) : M unit :=
  await (CallImport module_name) (import_outcome w module_name).

(** [createNodeEventSourceTransport(serverName, url, headers)] *)
Definition createNodeEventSourceTransport (address : string)
    (hs : list (string * string)) : M TransportId :=
  try_catch
    (import "extended-eventsource" ;;
     modify (set_globalEventSource ExtendedEventSource) ;;
     new_SSEClientTransport address EmptyInits)
    (fun _ =>
       try_catch
         (import "eventsource" ;;
          modify (set_globalEventSource NodeEventSource) ;;
          new_SSEClientTransport address (RequestInitHeaders hs))
         (fun _ => new_SSEClientTransport address (RequestInitHeaders hs))).

(** [createSSETransport(serverName, url, headers, useNodeEventSource)] *)
Definition createSSETransport (address : string)
    (hs : option (list (string * string))) (useNode : option bool)
  : M TransportId :=
  match hs with
  | None => new_SSEClientTransport address NoOptions
  | Some hs =>
      if match useNode with Some true => true | _ => false end
      then createNodeEventSourceTransport address hs
      else new_SSEClientTransport address (RequestInitHeaders hs)
  end.

(** [restart?.enabled], [reconnect?.enabled] *)
Definition policy_enabled (p : option RestartPolicy) : bool :=
  match p with
  | Some p => match enabled p with Some b => b | None => false end
  | None => false
  end.

(** [setupStdioRestart(serverName, transport, connection, restart)]:
    the transport's [onclose] becomes the closure over the server name,
    the descriptor and the policy. *)
Definition setupStdioRestart (serverName : string) (t : TransportId)
    (connection : StdioConnection) (policy : RestartPolicy) : M unit :=
  modify (set_onclose
            (fun l => (t, mkHook serverName (Stdio connection) policy) :: l)).

(** [setupSSEReconnect(serverName, transport, connection, reconnect)] *)
Definition setupSSEReconnect (serverName : string) (t : TransportId)
    (connection : SSEConnection) (policy : RestartPolicy) : M unit :=
  modify (set_onclose
            (fun l => (t, mkHook serverName (SSE connection) policy) :: l)).

(** [loadToolsForServer(serverName, client)] *)
Definition loadToolsForServer (serverName : string) (client : ClientId) : M unit :=
  try_catch
    (tools <- await (CallLoadTools serverName client)
                    (loadMcpTools_outcome w serverName client) ;;
     modify (set_tools (set_assoc serverName tools)))
    (fun error =>
       throw (MCPClientError
                ("Failed to load tools from server " ++ quoted serverName ++ ": "
                 ++ error_text error)
                None)).

(** [initializeStdioConnection(serverName, connection)] *)
Definition initializeStdioConnection (serverName : string)
    (connection : StdioConnection) : M unit :=
  t <- new_StdioClientTransport connection ;;
  modify (set_transportInstances (set_assoc serverName t)) ;;
  client <- new_Client ;;
  try_catch
    (await (CallConnect client t) (connect_outcome w client t) ;;
     match restart connection with
     | Some policy =>
         when (policy_enabled (Some policy))
              (setupStdioRestart serverName t connection policy)
     | None => ret tt
     end)
    (fun error =>
       throw (MCPClientError
                ("Failed to connect to stdio server " ++ quoted serverName ++ ": "
                 ++ error_text error)
                (Some serverName))) ;;
  modify (set_clients (set_assoc serverName client)) ;;
  modify (set_cleanups (fun l => l ++ [mkCleanup serverName t])%list) ;;
  loadToolsForServer serverName client.

(** [initializeSSEConnection(serverName, connection)] *)
Definition initializeSSEConnection (serverName : string)
    (connection : SSEConnection) : M unit :=
  try_catch
    (t <- createSSETransport (url connection) (headers connection)
                             (useNodeEventSource connection) ;;
     modify (set_transportInstances (set_assoc serverName t)) ;;
     client <- new_Client ;;
     try_catch
       (await (CallConnect client t) (connect_outcome w client t) ;;
        match reconnect connection with
        | Some policy =>
            when (policy_enabled (Some policy))
                 (setupSSEReconnect serverName t connection policy)
        | None => ret tt
        end)
       (fun error =>
          throw (MCPClientError
                   ("Failed to connect to SSE server " ++ quoted serverName ++ ": "
                    ++ error_text error)
                   (Some serverName))) ;;
     modify (set_clients (set_assoc serverName client)) ;;
     modify (set_cleanups (fun l => l ++ [mkCleanup serverName t])%list) ;;
     loadToolsForServer serverName client)
    (fun error =>
       throw (MCPClientError
                ("Failed to create SSE transport for server " ++ quoted serverName
                 ++ ": " ++ error_text error)
                (Some serverName))).

(** The dispatch on [connection.transport] shared by
    [initializeConnections] and [attemptReconnect].  The third branch of
    [initializeConnections] (an unsupported transport) has no value of
    type [Connection] to run on. *)
Definition initializeConnection (serverName : string) (connection : Connection)
  : M unit :=
  match connection with
  | Stdio c => initializeStdioConnection serverName c
  | SSE c => initializeSSEConnection serverName c
  end.

(** The [for] loop of [initializeConnections] *)
Fixpoint initialize_loop (entries : list (string * Connection)) : M unit :=
  match entries with
  | [] => ret tt
  | (serverName, connection) :: rest =>
      initializeConnection serverName connection ;;
      initialize_loop rest
  end.

(** [initializeConnections()]; the result is the content of the map it
    returns. *)
Definition initializeConnections : M (list (string * list Tool)) :=
  conns <- gets connections ;;
  match conns with
  | None => ret []
  | Some [] => ret []
  | Some entries =>
      initialize_loop entries ;;
      gets serverNameToTools
  end.

(** [cleanupServerResources(serverName)] *)
Definition cleanupServerResources (serverName : string) : M unit :=
  modify (set_clients (map_delete serverName)) ;;
  modify (set_tools (map_delete serverName)) ;;
  modify (set_transportInstances (map_delete serverName)).

(** One pass through the body of the [while] loop of [attemptReconnect],
    after [attempts += 1]: the new value of [connected]. *)
Definition reconnect_attempt (serverName : string) (connection : Connection)
    (delay : Z) (connected : bool) : M bool :=
  try_catch
    (when (truthy (Num delay)) (await (CallSleep delay) (inr tt)) ;;
     initializeConnection serverName connection ;;
     has_client <- gets (fun st => map_has serverName (clients st)) ;;
     ret (if has_client then true else connected))
    (fun _ => ret connected).

(** The [while] loop of [attemptReconnect], from given values of the
    locals [connected] and [attempts]; it returns their final values.
    [fuel] bounds the number of passes: [None] is a loop still running
    when the fuel is spent. *)
Fixpoint reconnect_loop (fuel : nat) (serverName : string) (connection : Connection)
    (limit : option Z) (delay : Z) (connected : bool) (attempts : Z) (st : State)
  : option (Outcome (bool * Z) * State) :=
  if negb connected
     && match limit with
        | None => true
        | Some maxAttempts => (attempts <? maxAttempts)%Z
        end
  then
    match fuel with
    | O => None
    | S fuel' =>
        let attempts' := (attempts + 1)%Z in
        match reconnect_attempt serverName connection delay connected st with
        | (Return connected', st') =>
            reconnect_loop fuel' serverName connection limit delay
                           connected' attempts' st'
        | (Throw e, st') => Some (Throw e, st')
        end
    end
  else Some (Return (connected, attempts), st).

(** A parameter with a default value: [undefined] takes the default. *)
Definition default_parameter {A : Type} (default : A) (argument : option A) : A :=
  match argument with
  | Some a => a
  | None => default
  end.

(** [attemptReconnect(serverName, connection, maxAttempts = 3,
    delayMs = 1000)]; the arguments are [None] when [undefined] is
    passed. *)
Definition attemptReconnect (fuel : nat) (serverName : string)
    (connection : Connection) (maxAttempts_arg delayMs_arg : option Z) (st : State)
  : option (Outcome unit * State) :=
  let maxAttempts := default_parameter 3%Z maxAttempts_arg in
  let delayMs := default_parameter 1000%Z delayMs_arg in
  match cleanupServerResources serverName st with
  | (Return _, st1) =>
      match reconnect_loop fuel serverName connection (Some maxAttempts) delayMs
                           false 0%Z st1 with
      | Some (Return _, st2) => Some (Return tt, st2)
      | Some (Throw e, st2) => Some (Throw e, st2)
      | None => None
      end
  | (Throw e, st1) => Some (Throw e, st1)
  end.

(** The closure assigned to [transport.onclose] by [setupStdioRestart]
    and [setupSSEReconnect] (the two differ in their debug lines only),
    run when transport [t] signals closure.  [originalOnClose] is the
    handler the SDK installed when the client connected. *)
Definition restart_handler (fuel : nat) (t : TransportId) (h : Hook) (st : State)
  : option (Outcome unit * State) :=
  match await (CallOriginalOnClose t) (originalOnClose_outcome w t) st with
  | (Return _, st1) =>
      if map_has (hook_server h) (clients st1)
      then attemptReconnect fuel (hook_server h) (hook_connection h)
                            (maxAttempts (hook_policy h)) (delayMs (hook_policy h)) st1
      else Some (Return tt, st1)
  | (Throw e, st1) => Some (Throw e, st1)
  end.

(** The [onclose] currently installed on transport [t], if the
    supervisor replaced it. *)
Fixpoint installed_hook (t : TransportId) (l : list (TransportId * Hook))
  : option Hook :=
  match l with
  | [] => None
  | (t', h) :: rest => if Nat.eqb t' t then Some h else installed_hook t rest
  end.

(** Transport [t] signals closure: the SDK calls [t.onclose]. *)
Definition transport_closed (fuel : nat) (t : TransportId) (st : State)
  : option (Outcome unit * State) :=
  match installed_hook t (onclose st) with
  | Some h => restart_handler fuel t h st
  | None => Some (await (CallOriginalOnClose t) (originalOnClose_outcome w t) st)
  end.

(** The handler of [transport_closed] is an [async] function: it runs
    up to its next [await] and goes on later.  [closure_begins] is its
    first part, up to the first [await] inside the loop of
    [attemptReconnect]: the SDK's own handler, the guard
    [this.clients.has(serverName)] and, when the guard passes,
    [cleanupServerResources]. *)
Definition closure_begins (t : TransportId) (st : State) : State :=
  match installed_hook t (onclose st) with
  | Some h =>
      match await (CallOriginalOnClose t) (originalOnClose_outcome w t) st with
      | (Return _, st1) =>
          if map_has (hook_server h) (clients st1)
          then snd (cleanupServerResources (hook_server h) st1)
          else st1
      | (Throw _, st1) => st1
      end
  | None => snd (await (CallOriginalOnClose t) (originalOnClose_outcome w t) st)
  end.

(** The rest of the handler with hook [h], once [closure_begins] passed
    the guard: the loop of [attemptReconnect], from no attempt. *)
Definition closure_resumes (fuel : nat) (h : Hook) (st : State)
  : option (Outcome (bool * Z) * State) :=
  reconnect_loop fuel (hook_server h) (hook_connection h)
                 (Some (default_parameter 3%Z (maxAttempts (hook_policy h))))
                 (default_parameter 1000%Z (delayMs (hook_policy h)))
                 false 0%Z st.

(** [await] of an external operation while other flows of control of
    the client run: [during] is what they do to the client before the
    awaiting flow is resumed. *)
Definition await_while {A : Type} (c : Call) (result : thrown + A)
    (during : State -> State) : M A :=
  fun st =>
    match result with
    | inr a => (Return a, during (record_call c st))
    | inl e => (Throw e, during (record_call c st))
    end.

(** The [for] loop of [close()] when nothing else runs while it is
    suspended. *)
Fixpoint close_loop_quiet (cleanups : list Cleanup) : M unit :=
  match cleanups with
  | [] => ret tt
  | cleanup :: rest =>
      try_catch
        (await (CallClose (cleanup_transport cleanup))
               (close_outcome w (cleanup_transport cleanup)))
        (fun _ => ret tt) ;;
      close_loop_quiet rest
  end.

(** The [for] loop of [close()].  [for (const cleanup of
    this.cleanupFunctions)] walks the ledger itself, by position [i]: a
    cleanup pushed while the loop runs is visited too.  Each
    [await cleanup()] suspends [close()], and closing a transport makes
    the SDK call the transport's [onclose]: the handlers of
    [setupStdioRestart] and [setupSSEReconnect], and the reconnect
    loops they started, run while the maps are still filled.
    [schedule] gives, suspension by suspension, what these other flows
    do to the client ([closure_begins], passes of the reconnect loop);
    once it is used up, nothing else runs. *)
Fixpoint close_loop (schedule : list (State -> State)) (i : nat) : M unit :=
  fun st =>
    match schedule with
    | [] => close_loop_quiet (skipn i (cleanupFunctions st)) st
    | during :: later =>
        match nth_error (cleanupFunctions st) i with
        | None => ret tt st
        | Some cleanup =>
            (try_catch
               (await_while (CallClose (cleanup_transport cleanup))
                            (close_outcome w (cleanup_transport cleanup))
                            during)
               (fun _ => ret tt) ;;
             close_loop later (S i)) st
        end
    end.

(** [close()]; the maps and the ledger are cleared after the loop. *)
Definition close (schedule : list (State -> State)) : M unit :=
  close_loop schedule 0 ;;
  modify (set_cleanups (fun _ => [])) ;;
  modify (set_clients (fun _ => [])) ;;
  modify (set_tools (fun _ => [])) ;;
  modify (set_transportInstances (fun _ => [])).

(** [{ ...a, ...b }]: the properties of [a], then those of [b]
    assigned one after the other. *)
Definition spread {A : Type} (a b : list (string * A)) : list (string * A) :=
  fold_left (fun acc kv => obj_set (fst kv) (snd kv) acc) b a.

(** [addConnections(connections)]; the debug lines of the validator are
    dropped here. *)
Definition addConnections (raw : value) : M unit :=
  match fst (processConnections (URL_protocol w) raw) with
  | inl e => throw e
  | inr processedConnections =>
      conns <- gets connections ;;
      match conns with
      | Some existing =>
          modify (set_connections (Some (spread existing processedConnections)))
      | None => modify (set_connections (Some processedConnections))
      end
  end.

(** [connectToServerViaStdio(serverName, command, args, env, restart)] *)
Definition connectToServerViaStdio (serverName cmd : string)
    (arguments : list string) (environment : option (list (string * string)))
    (policy : option RestartPolicy) : M (list (string * list Tool)) :=
  modify (set_connections
            (Some [(serverName,
                    Stdio (mkStdio cmd arguments environment None None policy))])) ;;
  initializeConnections.

(** [connectToServerViaSSE(serverName, url, headers, useNodeEventSource,
    reconnect)] *)
Definition connectToServerViaSSE (serverName address : string)
    (hs : option (list (string * string))) (useNode : option bool)
    (policy : option RestartPolicy) : M (list (string * list Tool)) :=
  modify (set_connections
            (Some [(serverName, SSE (mkSSE address hs useNode policy))])) ;;
  initializeConnections.

End WithWorld.

(** *** The tool registry *)

(** [getAllToolsAsFlatArray()]: [allTools.push(...tools)] for each value
    of the map. *)
Definition getAllToolsAsFlatArray (st : State) : list Tool :=
  fold_left (fun allTools tools => allTools ++ tools)%list
            (map_values (serverNameToTools st)) [].

(** [getToolsFromServers(serverNames)] *)
Definition getToolsFromServers (serverNames : list string) (st : State) : list Tool :=
  fold_left (fun allTools serverName =>
               match assoc serverName (serverNameToTools st) with
               | Some tools => allTools ++ tools
               | None => allTools
               end)%list
            serverNames [].

(** [getTools(servers?)]; [None] is a call without argument. *)
Definition getTools (servers : option (list string)) (st : State) : list Tool :=
  match servers with
  | None => getAllToolsAsFlatArray st
  | Some names =>
      if Nat.eqb (length names) 0 then getAllToolsAsFlatArray st
      else getToolsFromServers names st
  end.

(** [getClient(serverName)] *)
Definition getClient (serverName : string) (st : State) : option ClientId :=
  assoc serverName (clients st).

(** [getServerForTool(toolName)] *)
Fixpoint getServerForTool_loop (toolName : string)
    (entries : list (string * list Tool)) : option string :=
  match entries with
  | [] => None
  | (serverName, tools) :: rest =>
      if existsb (fun tool => tool_name tool =? toolName) tools
      then Some serverName
      else getServerForTool_loop toolName rest
  end.

Definition getServerForTool (toolName : string) (st : State) : option string :=
  getServerForTool_loop toolName (serverNameToTools st).

End Supervisor.

Import Supervisor.

(* ================================================================= *)
(** ** Construction and configuration files *)

Module Loading.

Section WithPlatform.

(** [new URL(s).protocol] and [process.env], as before. *)
Variable URL_protocol : string -> option string.
Variable process_env : string -> option string.

(** [loadConfigFromFile(configPath)] from the file itself: [file] is
    what [fs.readFileSync] followed by [JSON.parse] gives for
    [configPath], [inl e] when either of them throws [e].  The debug
    lines are dropped here and below. *)
Definition loadConfigFromPath (configPath : string) (file : thrown + value)
  : thrown + value :=
  match file with
  | inl e => inl e
  | inr config => fst (loadConfigFromFile process_env configPath config)
  end.

(** [processConnections(loadConfigFromFile(configPath).servers)] *)
Definition connections_of_file (configPath : string) (file : thrown + value)
  : thrown + list (string * Connection) :=
  match loadConfigFromPath configPath file with
  | inl e => inl e
  | inr config => fst (processConnections URL_protocol (get config "servers"))
  end.

(** [tryLoadDefaultConfig()]: [default_file] is [None] when
    [fs.existsSync] finds no [mcp.json] in the working directory, and
    what reading it gives otherwise. *)
Definition tryLoadDefaultConfig (defaultConfigPath : string)
    (default_file : option (thrown + value))
  : thrown + option (list (string * Connection)) :=
  match default_file with
  | Some file =>
      match connections_of_file defaultConfigPath file with
      | inl e => inl e
      | inr conns => inr (Some conns)
      end
  | None => inr None
  end.

(** [new MultiServerMCPClient(connections)]; [connections] is
    [Undefined] when the argument is left out. *)
Definition new_MultiServerMCPClient (connections : value)
    (defaultConfigPath : string) (default_file : option (thrown + value))
  : thrown + State :=
  if truthy connections then
    match fst (processConnections URL_protocol connections) with
    | inl e => inl e
    | inr conns => inr (set_connections (Some conns) initial_state)
    end
  else
    match tryLoadDefaultConfig defaultConfigPath default_file with
    | inl e => inl e
    | inr conns => inr (set_connections conns initial_state)
    end.

(** [{ ...existing, ...added }] when [this.connections] is set, [added]
    otherwise: the merge of [fromConfigFile], [addConfigFromFile] and
    [addConnections]. *)
Definition merge_connections (existing : option (list (string * Connection)))
    (added : list (string * Connection)) : list (string * Connection) :=
  match existing with
  | Some conns => spread conns added
  | None => added
  end.

(** [MultiServerMCPClient.fromConfigFile(configPath)] *)
Definition fromConfigFile (configPath : string) (file : thrown + value)
    (defaultConfigPath : string) (default_file : option (thrown + value))
  : thrown + State :=
  match
    match new_MultiServerMCPClient Undefined defaultConfigPath default_file with
    | inl e => inl e
    | inr client =>
        match connections_of_file configPath file with
        | inl e => inl e
        | inr added =>
            inr (set_connections
                   (Some (merge_connections (connections client) added)) client)
        end
    end
  with
  | inl error =>
      inl (MCPClientError
             ("Failed to load MCP configuration: " ++ error_text error) None)
  | inr client => inr client
  end.

(** [addConfigFromFile(configPath)] *)
Definition addConfigFromFile (configPath : string) (file : thrown + value)
  : M unit :=
  match connections_of_file configPath file with
  | inl error =>
      throw (MCPClientError
               ("Failed to add MCP configuration: " ++ error_text error) None)
  | inr added =>
      modify (fun st =>
                set_connections (Some (merge_connections (connections st) added)) st)
  end.

End WithPlatform.

End Loading.

Import Loading.

(* ================================================================= *)
(** ** Concrete inputs used by the examples *)

Module Examples.

(** The scheme of an absolute URL as the URL Standard reads it: an ASCII
    letter, then letters, digits, [+], [-] or [.] up to the first [:],
    lower-cased.  [new URL(s)] also rejects some strings whose scheme is
    well formed; the validator and the supervisor therefore take the
    platform's parser as a parameter, and [scheme_protocol] stands for
    it only on the well-formed URLs of the examples below. *)
Definition is_alpha (c : ascii) : bool :=
  let n := nat_of_ascii c in
  ((65 <=? n) && (n <=? 90))%nat || ((97 <=? n) && (n <=? 122))%nat.

Definition is_scheme_char (c : ascii) : bool :=
  let n := nat_of_ascii c in
  is_alpha c || ((48 <=? n) && (n <=? 57))%nat
  || (n =? 43)%nat || (n =? 45)%nat || (n =? 46)%nat.

Definition lower (c : ascii) : ascii :=
  let n := nat_of_ascii c in
  if ((65 <=? n) && (n <=? 90))%nat then ascii_of_nat (n + 32) else c.

Fixpoint scan_scheme (s acc : string) : option string :=
  match s with
  | EmptyString => None
  | String c rest =>
      if (nat_of_ascii c =? 58)%nat then Some (acc ++ ":")
      else if is_scheme_char c
           then scan_scheme rest (acc ++ String (lower c) EmptyString)
           else None
  end.

Definition scheme_protocol (s : string) : option string :=
  match s with
  | String c _ => if is_alpha c then scan_scheme s "" else None
  | EmptyString => None
  end.

(** The environment of the interpolation examples. *)
Definition example_env (envVar : string) : option string :=
  if envVar =? "API_KEY" then Some "secret"
  else if envVar =? "TOKEN" then Some "t0k3n"
  else None.

(** The servers of a configuration file: [fs] without [transport],
    the SSE server [search], and [git] with [transport: "stdio"]. *)
Definition example_servers : list (string * value) :=
  [("fs",
    Obj [("command", Str "node");
         ("args", Arr [Str "fs-server.js"]);
         ("env", Obj [("API_KEY", Str "${API_KEY}")])]);
   ("search",
    Obj [("transport", Str "sse");
         ("url", Str "https://api.example.com/mcp");
         ("headers", Obj [("Authorization", Str "${TOKEN}")])]);
   ("git",
    Obj [("transport", Str "stdio");
         ("command", Str "${GIT_BIN}");
         ("env", Obj [("HOME", Str "${API_KEY}")])])].

(** The parsed configuration file. *)
Definition example_file : value := Obj [("servers", Obj example_servers)].

(** [{ enabled: true }]: neither [maxAttempts] nor [delayMs] is given. *)
Definition enabled_only : RestartPolicy := mkPolicy (Some true) None None.

(** The [fs] server of the scenarios, with a restart policy. *)
Definition fs_with (policy : RestartPolicy) : Connection :=
  Stdio (mkStdio "node" ["fs-server.js"] None None None (Some policy)).

(** The [search] server of the scenarios, with a reconnect policy. *)
Definition search_with (policy : RestartPolicy) : Connection :=
  SSE (mkSSE "https://api.example.com/mcp" None None (Some policy)).

Definition read_file : Tool := mkTool "read_file" "Read a file".
Definition write_file : Tool := mkTool "write_file" "Write a file".
Definition web_search : Tool := mkTool "web_search" "Search the web".

(** What the tool adapter discovers on each server of the scenarios. *)
Definition scenario_tools (serverName : string) : list Tool :=
  if serverName =? "fs" then [read_file; write_file]
  else if serverName =? "search" then [web_search]
  else [].

(** The world of the scenarios: the first two clients connect, every
    later connection is refused. *)
Definition scenario_world : World :=
  mkWorld scheme_protocol
          (fun _ => inr tt)
          (fun c _ => if Nat.ltb c 2 then inr tt
                      else inl (ExternalError "Error: connection refused"))
          (fun serverName _ => inr (scenario_tools serverName))
          (fun _ => inr tt)
          (fun _ => inr tt).

(** The client of the scenarios after [initializeConnections()]: [fs]
    and [search] are connected, in this order, each with the policy
    [{ enabled: true }]. *)
Definition two_servers : State :=
  snd (initializeConnections scenario_world
         (set_connections
            (Some [("fs", fs_with enabled_only);
                   ("search", search_with enabled_only)])
            initial_state)).

(** Three servers in configuration order: [docs], [fs], [search]. *)
Definition three_servers : list (string * Connection) :=
  [("docs", Stdio (mkStdio "node" ["docs-server.js"] None None None None));
   ("fs", fs_with enabled_only);
   ("search", search_with enabled_only)].

(** A world in which every connection is refused. *)
Definition refusing_world : World :=
  mkWorld scheme_protocol
          (fun _ => inr tt)
          (fun _ _ => inl (ExternalError "Error: connection refused"))
          (fun serverName _ => inr (scenario_tools serverName))
          (fun _ => inr tt)
          (fun _ => inr tt).

(** A world in which tool discovery fails on the [fs] server. *)
Definition no_discovery_on_fs : World :=
  mkWorld scheme_protocol
          (fun _ => inr tt)
          (fun _ _ => inr tt)
          (fun serverName _ =>
             if serverName =? "fs"
             then inl (ExternalError "Error: tools/list failed")
             else inr (scenario_tools serverName))
          (fun _ => inr tt)
          (fun _ => inr tt).

(** A world in which every connection is accepted and tool discovery
    on [fs] fails for a while: for the clients 2, 3 and 4. *)
Definition flaky_discovery : World :=
  mkWorld scheme_protocol
          (fun _ => inr tt)
          (fun _ _ => inr tt)
          (fun serverName client =>
             if (serverName =? "fs") && Nat.leb 2 client && Nat.leb client 4
             then inl (ExternalError "Error: tools/list failed")
             else inr (scenario_tools serverName))
          (fun _ => inr tt)
          (fun _ => inr tt).

End Examples.

Import Examples.

(* ================================================================= *)
(** ** Vocabulary of the properties *)

(** The tools registered for [name], the empty list when there is no
    entry. *)
Definition tools_of (st : State) (name : string) : list Tool :=
  match assoc name (serverNameToTools st) with
  | Some tools => tools
  | None => []
  end.

(** The call is a pause of the reconnect loop. *)
Definition is_sleep (c : Call) : bool :=
  match c with CallSleep _ => true | _ => false end.

(** The transports of the sessions opened by [calls]: those of its
    connects that completed normally. *)
Definition opened (w : World) (calls : list (Call * Snapshot)) : list TransportId :=
  flat_map (fun cs =>
              match fst cs with
              | CallConnect c t =>
                  match connect_outcome w c t with
                  | inr _ => [t]
                  | inl _ => []
                  end
              | _ => []
              end) calls.

(** [l'] is [l], or [l] with [name] bound to an object not older than
    [bound]. *)
Definition same_or_fresh (name : string) (bound : nat) (l l' : list (string * nat))
  : Prop :=
  l' = l \/ exists x, bound <= x /\ l' = set_assoc name x l.

(** What is visible at a suspension point of an attempt to connect
    [name] that started in [st]. *)
Definition seen_during (name : string) (st : State) (cs : Call * Snapshot) : Prop :=
  is_sleep (fst cs) = false
  /\ seen_tools (snd cs) = serverNameToTools st
  /\ same_or_fresh name (client_count st) (clients st) (seen_clients (snd cs))
  /\ same_or_fresh name (length (transports st)) (transportInstances st)
                   (seen_transports (snd cs)).

(** The attempt registered the freshly discovered tools of [name]. *)
Definition attempt_succeeded (w : World) (name : string) (st st' : State) : Prop :=
  exists c tools,
    client_count st <= c
    /\ clients st' = set_assoc name c (clients st)
    /\ loadMcpTools_outcome w name c = inr tools
    /\ serverNameToTools st' = set_assoc name tools (serverNameToTools st).

(** The attempt left the registry as it was. *)
Definition attempt_failed (name : string) (st st' : State) : Prop :=
  serverNameToTools st' = serverNameToTools st
  /\ same_or_fresh name (client_count st) (clients st) (clients st').

(** What an attempt does to the rest of the state, whatever its
    outcome; [calls] are the operations it awaited. *)
Definition attempt_frame (w : World) (name : string) (st st' : State)
    (calls : list (Call * Snapshot)) : Prop :=
  Forall (seen_during name st) calls
  /\ connections st' = connections st
  /\ client_count st <= client_count st'
  /\ length (transports st) <= length (transports st')
  /\ cleanupFunctions st'
     = (cleanupFunctions st ++ map (mkCleanup name) (opened w calls))%list
  /\ length (opened w calls) <= 1
  /\ same_or_fresh name (length (transports st)) (transportInstances st)
                   (transportInstances st').

(** What one run of [initializeStdioConnection] or
    [initializeSSEConnection] for [name] amounts to: [r] is its outcome
    and [st'] the state it leaves. *)
Definition attempt_spec (w : World) (name : string) (st : State)
    (r : Outcome unit) (st' : State) : Prop :=
  exists calls,
    trace st' = (trace st ++ calls)%list
    /\ attempt_frame w name st st' calls
    /\ match r with
       | Return _ => attempt_succeeded w name st st' /\ length (opened w calls) = 1
       | Throw e => isMCPClientError e = true /\ attempt_failed name st st'
       end.

(** The entry of [name] is absent, or made of objects created after
    [st0]. *)
Definition evicted (name : string) (st0 : State) (s : Snapshot) : Prop :=
  assoc name (seen_tools s) = None
  /\ (forall c, assoc name (seen_clients s) = Some c -> client_count st0 <= c)
  /\ (forall t, assoc name (seen_transports s) = Some t -> length (transports st0) <= t).

(** The pause before an attempt: [if (delayMs) await ...]. *)
Definition sleep_calls (d : Z) (st : State) : list (Call * Snapshot) :=
  if truthy (Num d) then [(CallSleep d, snapshot st)] else [].

(** Symbolic execution of a straight-line operation: case analysis on
    the next outcome the world, the descriptor or a test decides. *)
Ltac run_step :=
  match goal with
  | |- context [match ?x with _ => _ end] =>
      match type of x with
      | sum _ _ => destruct x eqn:?
      | option _ => destruct x eqn:?
      | bool => destruct x eqn:?
      end
  end.

(** Closes the side conditions of [attempt_spec] on an explicit final
    state. *)
Ltac solve_seen :=
  repeat match goal with
  | |- Forall _ [] => constructor
  | |- Forall _ (_ :: _) => constructor
  | |- seen_during _ _ _ => unfold seen_during; simpl
  | |- same_or_fresh _ _ _ _ => unfold same_or_fresh; simpl
  | |- _ /\ _ => split
  | |- _ = _ => reflexivity
  | |- _ = _ => (repeat rewrite <- app_assoc); reflexivity
  | |- _ <= _ => simpl; rewrite ?length_app; simpl; lia
  | |- _ \/ _ => first [ left; reflexivity | right; eexists; split; [|reflexivity]; simpl; lia ]
  | |- exists _, _ => eexists
  end.

(** Proves [attempt_spec] once the operation has been run. *)
Ltac solve_attempt :=
  unfold attempt_spec, attempt_frame, attempt_succeeded, attempt_failed; simpl;
  first [ exists []; split; [now rewrite app_nil_r|]
        | eexists; split; [repeat rewrite <- app_assoc; simpl; reflexivity|] ];
  unfold opened; simpl;
  repeat match goal with
         | H : connect_outcome _ _ _ = _ |- _ => rewrite H
         end;
  simpl; rewrite ?app_nil_r;
  solve_seen.

(** What interpolation makes of the string [s]: the value of the
    variable it names when that value is a non-empty string, [s] itself
    otherwise. *)
Definition interpolated (process_env : string -> option string) (s : string) : string :=
  if is_placeholder s then
    match process_env (slice_2_m1 s) with
    | Some v => if v =? "" then s else v
    | None => s
    end
  else s.

(** The variable is missing from the environment, or empty. *)
Definition unset (process_env : string -> option string) (envVar : string) : bool :=
  match process_env envVar with
  | Some v => v =? ""
  | None => true
  end.

(** The warning written for the placeholder [s] of server [serverName]. *)
Definition warning (serverName s : string) : string :=
  "WARN: Environment variable " ++ slice_2_m1 s ++ " not found for server "
  ++ quoted serverName.

(** The value reached from [v] through the property names [path]. *)
Fixpoint lookup_path (v : value) (path : list string) : option value :=
  match path with
  | [] => Some v
  | k :: rest =>
      match v with
      | Obj _ | Arr _ =>
          match assoc k (own_entries v) with
          | Some x => lookup_path x rest
          | None => None
          end
      | _ => None
      end
  end.

(** The file was loaded: [loadConfigFromFile] returned. *)
Definition loaded (r : Logged value) : bool :=
  match fst r with inr _ => true | inl _ => false end.

(** *** Vocabulary of the validator *)
(** [processConnections] throws on this entry: it is an object, and
    neither a stdio descriptor that [processStdioConfig] accepts nor an
    SSE descriptor that [processSSEConfig] accepts. *)
Definition rejects (URLp : string -> option string) (name : string) (config : value)
  : bool :=
  (typeof config =? "object") && negb (is_null config)
  && (if isStdioConnection config
      then match processStdioConfig name config with inl _ => true | inr _ => false end
      else if isSSEConnection config
           then match processSSEConfig URLp name config with
                | inl _ => true
                | inr _ => false
                end
           else true).

(** A policy object that [process_policy] refuses. *)
Definition ill_typed_policy (policy : value) : bool :=
  truthy policy
  && (negb (typeof policy =? "object")
      || negb (is_undefined (get policy "enabled"))
         && negb (typeof (get policy "enabled") =? "boolean")
      || negb (is_undefined (get policy "maxAttempts"))
         && negb (typeof (get policy "maxAttempts") =? "number")
      || negb (is_undefined (get policy "delayMs"))
         && negb (typeof (get policy "delayMs") =? "number")).

(** An optional field of a stdio descriptor has the wrong type. *)
Definition ill_typed_stdio (config : value) : bool :=
  negb (is_undefined (get config "args"))
  && negb (isArray (get config "args")
           && forallb isString (Object_values (get config "args")))
  || truthy (get config "env")
     && (negb (typeof (get config "env") =? "object")
         || isArray (get config "env")
         || negb (forallb isString (Object_values (get config "env"))))
  || negb (is_undefined (get config "encoding"))
     && negb (typeof (get config "encoding") =? "string")
  || negb (is_undefined (get config "encodingErrorHandler"))
     && negb (is_error_handler (get config "encodingErrorHandler"))
  || ill_typed_policy (get config "restart").

(** An optional field of an SSE descriptor has the wrong type. *)
Definition ill_typed_sse (config : value) : bool :=
  truthy (get config "headers")
  && (negb (typeof (get config "headers") =? "object")
      || isArray (get config "headers")
      || negb (forallb isString (Object_values (get config "headers"))))
  || negb (is_undefined (get config "useNodeEventSource"))
     && negb (typeof (get config "useNodeEventSource") =? "boolean")
  || ill_typed_policy (get config "reconnect").

(** The entry is skipped by [processConnections]: it is no object. *)
Definition non_object (v : value) : bool :=
  negb (typeof v =? "object") || is_null v.

(** The debug line written for a skipped entry. *)
Definition skip_warning (serverName : string) : string :=
  "WARN: Invalid configuration for server " ++ quoted serverName ++ ". Skipping.".

(** *** Vocabulary of the supervisor, continued *)
(** The options [createSSETransport] builds the transport with. *)
Definition sse_options (w : World) (hs : option (list (string * string)))
    (useNode : option bool) : SSEOptions :=
  match hs with
  | None => NoOptions
  | Some h =>
      match useNode with
      | Some true =>
          match import_outcome w "extended-eventsource" with
          | inr _ => EmptyInits
          | inl _ => RequestInitHeaders h
          end
      | _ => RequestInitHeaders h
      end
  end.

(** [globalThis.EventSource] after a call of [createSSETransport] whose
    URL parses. *)
Definition sse_global (w : World) (hs : option (list (string * string)))
    (useNode : option bool) (before : EventSourceImpl) : EventSourceImpl :=
  match hs, useNode with
  | Some _, Some true =>
      match import_outcome w "extended-eventsource" with
      | inr _ => ExtendedEventSource
      | inl _ =>
          match import_outcome w "eventsource" with
          | inr _ => NodeEventSource
          | inl _ => before
          end
      end
  | _, _ => before
  end.

(** The restart or reconnect policy of a descriptor. *)
Definition connection_policy (conn : Connection) : option RestartPolicy :=
  match conn with
  | Stdio c => restart c
  | SSE c => reconnect c
  end.

(** The hooks installed for the sessions opened by [calls]. *)
Definition hooks_for (w : World) (name : string) (conn : Connection)
    (calls : list (Call * Snapshot)) : list (TransportId * Hook) :=
  match connection_policy conn with
  | Some p =>
      if policy_enabled (Some p)
      then map (fun t => (t, mkHook name conn p)) (opened w calls)
      else []
  | None => []
  end.

(** Proves a statement of the form [exists calls, trace _ = _ ++ calls
    /\ _] on an explicit final state. *)
Ltac solve_hooks :=
  simpl;
  first [ exists []; split; [now rewrite app_nil_r|]
        | eexists; split; [repeat rewrite <- app_assoc; simpl; reflexivity|] ];
  unfold hooks_for, connection_policy, opened; simpl;
  repeat match goal with
         | H : connect_outcome _ _ _ = _ |- _ => rewrite H
         | H : restart _ = _ |- _ => rewrite H
         | H : reconnect _ = _ |- _ => rewrite H
         | H : policy_enabled _ = _ |- _ => rewrite H
         end;
  simpl; try reflexivity;
  repeat (run_step; simpl; try reflexivity);
  try congruence.

(** The call closes a transport. *)
Definition closes (c : Call) : bool :=
  match c with CallClose _ => true | _ => false end.

(** No call of [calls] closes a transport. *)
Definition closes_nothing (calls : list (Call * Snapshot)) : bool :=
  forallb (fun cs => negb (closes (fst cs))) calls.

(** The transports closed by [calls], in order. *)
Definition closed_by (calls : list (Call * Snapshot)) : list TransportId :=
  flat_map (fun cs => match fst cs with CallClose t => [t] | _ => [] end) calls.

(** What the other flows of control of the client can do while
    [close()] is suspended: they await operations of their own, none of
    which closes a transport (only the cleanups do, and only [close()]
    calls them), and they leave the ledger as it is or push onto it. *)
Definition interferes (during : State -> State) : Prop :=
  forall st, exists calls added,
    trace (during st) = (trace st ++ calls)%list
    /\ closes_nothing calls = true
    /\ cleanupFunctions (during st) = (cleanupFunctions st ++ added)%list.

(** The clients whose connect succeeded among [calls], in order. *)
Definition connected_clients (w : World) (calls : list (Call * Snapshot))
  : list ClientId :=
  flat_map (fun cs =>
              match fst cs with
              | CallConnect c t =>
                  match connect_outcome w c t with
                  | inr _ => [c]
                  | inl _ => []
                  end
              | _ => []
              end) calls.

(** The client of the latest connect that succeeded among [calls]. *)
Definition last_connected (w : World) (calls : list (Call * Snapshot))
  : option ClientId :=
  fold_left (fun _ c => Some c) (connected_clients w calls) None.

(** The tools of a registry entry include one named [toolName]. *)
Definition offers (toolName : string) (entry : string * list Tool) : bool :=
  existsb (fun tool => tool_name tool =? toolName) (snd entry).

(** The descriptor configured for [name]. *)
Definition configured (st : State) (name : string) : option Connection :=
  match connections st with
  | Some conns => assoc name conns
  | None => None
  end.

(** Closes the side conditions of [initializeConnection_sessions] on an
    explicit final state. *)
Ltac solve_sessions :=
  simpl;
  first [ exists []; split; [now rewrite app_nil_r|]
        | eexists; split; [repeat rewrite <- app_assoc; simpl; reflexivity|] ];
  unfold closes_nothing, connected_clients, hooks_for, connection_policy, opened; simpl;
  repeat match goal with
         | H : connect_outcome _ _ _ = _ |- _ => rewrite H
         | H : restart _ = _ |- _ => rewrite H
         | H : reconnect _ = _ |- _ => rewrite H
         | H : policy_enabled _ = _ |- _ => rewrite H
         end;
  simpl; repeat split; try reflexivity;
  repeat (run_step; simpl; try reflexivity);
  try congruence.

(** The state in which an attempt starts after the pause of a pass. *)
Definition after_pause (d : Z) (st : State) : State :=
  if truthy (Num d) then record_call (CallSleep d) st else st.

(** The operations of one pass of the reconnect loop that starts in the
    state [fst p]: a pause of [d] ms, then the operations [snd p] of a
    connection attempt. *)
Definition pass_calls (d : Z) (p : State * list (Call * Snapshot))
  : list (Call * Snapshot) :=
  (CallSleep d, snapshot (fst p)) :: snd p.

(** [p] is a pass for the server [name]: what follows the pause is one
    run of [initializeConnection], started as soon as the pause is over,
    and none of its operations is a pause. *)
Definition is_pass (w : World) (name : string) (conn : Connection) (d : Z)
    (p : State * list (Call * Snapshot)) : Prop :=
  trace (snd (initializeConnection w name conn (record_call (CallSleep d) (fst p))))
  = (trace (fst p) ++ pass_calls d p)%list
  /\ Forall (fun cs => is_sleep (fst cs) = false) (snd p).

(* ================================================================= *)
(** ** Properties *)

(** *** Association lists as JavaScript maps *)

Lemma assoc_set_assoc_same {A : Type} (k : string) (x : A) (l : list (string * A)) :
  assoc k (set_assoc k x l) = Some x.
Proof.
  induction l as [|[k' y] l IH]; simpl.
  - now rewrite String.eqb_refl.
  - destruct (k' =? k) eqn:E; simpl; rewrite E; auto.
Qed.

Lemma assoc_set_assoc_other {A : Type} (k k' : string) (x : A) (l : list (string * A)) :
  k' <> k -> assoc k' (set_assoc k x l) = assoc k' l.
Proof.
  intros Hne. induction l as [|[k0 y] l IH]; simpl.
  - apply String.eqb_neq in Hne. rewrite String.eqb_sym. now rewrite Hne.
  - destruct (k0 =? k) eqn:E; simpl.
    + apply String.eqb_eq in E. subst k0.
      assert ((k =? k') = false) as -> by (apply String.eqb_neq; congruence).
      reflexivity.
    + destruct (k0 =? k'); auto.
Qed.

Lemma assoc_insert_index_same {A : Type} (n : N) (k : string) (x : A)
    (l : list (string * A)) :
  assoc k l = None -> assoc k (insert_index n k x l) = Some x.
Proof.
  induction l as [|[k' y] l IH]; simpl.
  - now rewrite String.eqb_refl.
  - destruct (k' =? k) eqn:E; [discriminate|]. intros Hl.
    destruct (array_index k') as [n'|]; [destruct (n' <? n)%N|]; simpl;
      rewrite ?E, ?String.eqb_refl; auto.
Qed.

Lemma assoc_insert_index_other {A : Type} (n : N) (k k' : string) (x : A)
    (l : list (string * A)) :
  k' <> k -> assoc k' (insert_index n k x l) = assoc k' l.
Proof.
  intros Hne. assert ((k =? k') = false) as Hk by (apply String.eqb_neq; congruence).
  induction l as [|[k0 y] l IH]; simpl.
  - now rewrite Hk.
  - destruct (array_index k0) as [n'|]; [destruct (n' <? n)%N|]; simpl;
      rewrite ?Hk, ?IH; reflexivity.
Qed.

Lemma assoc_obj_set_same {A : Type} (k : string) (x : A) (l : list (string * A)) :
  assoc k (obj_set k x l) = Some x.
Proof.
  unfold obj_set. destruct (array_index k) as [n|]; [|apply assoc_set_assoc_same].
  destruct (assoc k l) eqn:E; [apply assoc_set_assoc_same|].
  now apply assoc_insert_index_same.
Qed.

Lemma assoc_obj_set_other {A : Type} (k k' : string) (x : A) (l : list (string * A)) :
  k' <> k -> assoc k' (obj_set k x l) = assoc k' l.
Proof.
  intros Hne. unfold obj_set.
  destruct (array_index k) as [n|]; [|now apply assoc_set_assoc_other].
  destruct (assoc k l); [now apply assoc_set_assoc_other|].
  now apply assoc_insert_index_other.
Qed.

(** A name that is no array index is set as in a [Map]. *)
Lemma obj_set_name {A : Type} (k : string) (x : A) (l : list (string * A)) :
  array_index k = None -> obj_set k x l = set_assoc k x l.
Proof. unfold obj_set. now intros ->. Qed.

Lemma assoc_map_delete_same {A : Type} (k : string) (l : list (string * A)) :
  assoc k (map_delete k l) = None.
Proof.
  induction l as [|[k' y] l IH]; simpl; auto.
  destruct (k' =? k) eqn:E; simpl; auto. now rewrite E.
Qed.

Lemma assoc_map_delete_other {A : Type} (k k' : string) (l : list (string * A)) :
  k' <> k -> assoc k' (map_delete k l) = assoc k' l.
Proof.
  intros Hne. induction l as [|[k0 y] l IH]; simpl; auto.
  destruct (k0 =? k) eqn:E; simpl.
  - apply String.eqb_eq in E. subst k0.
    assert ((k =? k') = false) as -> by (apply String.eqb_neq; congruence).
    exact IH.
  - destruct (k0 =? k'); auto.
Qed.

Lemma set_assoc_fresh {A : Type} (k : string) (x : A) (l : list (string * A)) :
  assoc k l = None -> set_assoc k x l = (l ++ [(k, x)])%list.
Proof.
  induction l as [|[k' y] l IH]; simpl; auto.
  destruct (k' =? k); [discriminate|].
  intros H. now rewrite IH.
Qed.

(** An array has no property whose name is not a numeral. *)
Lemma array_has_no_key (k : string) (items : list value) (i : nat) :
  NilEmpty.uint_of_string k = None ->
  assoc k (indexed_from i items) = None.
Proof.
  intros Hk. revert i. induction items as [|x l IH]; intros i; simpl; [reflexivity|].
  destruct (index_key i =? k) eqn:E; [|apply IH].
  exfalso. apply String.eqb_eq in E. unfold index_key in E.
  pose proof (NilEmpty.usu (Nat.to_uint i)) as Hu. rewrite E, Hk in Hu.
  discriminate.
Qed.

(** *** The tool registry *)

Lemma fold_left_app_concat {A : Type} (l : list (list A)) (acc : list A) :
  fold_left (fun allTools tools => allTools ++ tools)%list l acc
  = (acc ++ concat l)%list.
Proof.
  revert acc. induction l as [|x l IH]; intros acc; simpl.
  - now rewrite app_nil_r.
  - rewrite IH. now rewrite app_assoc.
Qed.

Lemma getAllToolsAsFlatArray_concat (st : State) :
  getAllToolsAsFlatArray st = concat (map snd (serverNameToTools st)).
Proof.
  unfold getAllToolsAsFlatArray, map_values. now rewrite fold_left_app_concat.
Qed.

Lemma getToolsFromServers_fold (st : State) (names : list string) (acc : list Tool) :
  fold_left (fun allTools serverName =>
               match assoc serverName (serverNameToTools st) with
               | Some tools => allTools ++ tools
               | None => allTools
               end)%list names acc
  = (acc ++ concat (map (tools_of st) names))%list.
Proof.
  revert acc. induction names as [|n names IH]; intros acc; simpl.
  - now rewrite app_nil_r.
  - rewrite IH. unfold tools_of at 2.
    destruct (assoc n (serverNameToTools st)); simpl.
    + now rewrite app_assoc.
    + reflexivity.
Qed.

Lemma getToolsFromServers_concat (st : State) (names : list string) :
  getToolsFromServers names st = concat (map (tools_of st) names).
Proof.
  unfold getToolsFromServers. now rewrite getToolsFromServers_fold.
Qed.

(** C8, as the claim states it, fails for the empty list of names: the
    registry [two_servers] answers [getTools([])] with all three tools,
    where the concatenation over no name is empty. *)
Lemma getTools_empty_names_not_concatenation :
  getTools (Some []) two_servers = [read_file; write_file; web_search]
  /\ concat (map (tools_of two_servers) []) = []
  /\ getTools (Some []) two_servers <> concat (map (tools_of two_servers) []).
Proof.
  repeat split; try reflexivity. discriminate.
Qed.

(** C8 (amended): [getTools()] returns the tools of every registered
    server as one flat list, servers in the insertion order of the map
    and tools in discovery order -- a server registered under a new name
    comes last; for a non-empty list of names, [getTools(names)] is the
    concatenation of the named servers' tool lists in the order of the
    names, a name without entry contributing nothing and raising no
    error. *)
Theorem getTools_flat_in_order (st : State) :
  getTools None st = concat (map snd (serverNameToTools st))
  /\ (forall name tools,
         assoc name (serverNameToTools st) = None ->
         getTools None (set_tools (set_assoc name tools) st)
         = (getTools None st ++ tools)%list)
  /\ (forall names,
         names <> [] ->
         getTools (Some names) st = concat (map (tools_of st) names)).
Proof.
  split; [|split].
  - apply getAllToolsAsFlatArray_concat.
  - intros name tools Hfresh. simpl.
    rewrite !getAllToolsAsFlatArray_concat. simpl.
    rewrite (set_assoc_fresh _ _ _ Hfresh).
    rewrite map_app, concat_app. simpl. now rewrite app_nil_r.
  - intros names Hne. unfold getTools.
    destruct names as [|n names]; [congruence|]. simpl.
    apply getToolsFromServers_concat.
Qed.

Lemma getTools_flat_in_order_witness :
  assoc "docs" (serverNameToTools two_servers) = None
  /\ getTools None (set_tools (set_assoc "docs" [read_file]) two_servers)
     = [read_file; write_file; web_search; read_file]
  /\ ["search"; "nobody"; "fs"] <> []
  /\ getTools (Some ["search"; "nobody"; "fs"]) two_servers
     = [web_search; read_file; write_file].
Proof.
  destruct (getTools_flat_in_order two_servers) as [_ [Hnew Hnames]].
  split; [reflexivity|]. split.
  - rewrite (Hnew "docs" [read_file]); reflexivity.
  - split; [discriminate|].
    rewrite (Hnames ["search"; "nobody"; "fs"]); [reflexivity | discriminate].
Defined.

(** C10: [getTools([])] is [getTools()]: an empty list of names selects
    every server, not none. *)
Theorem getTools_empty_names_is_all (st : State) :
  getTools (Some []) st = getTools None st
  /\ getTools (Some []) st = concat (map snd (serverNameToTools st)).
Proof.
  split; [reflexivity|]. apply getAllToolsAsFlatArray_concat.
Qed.

(** *** Connection attempts *)

Lemma initializeStdioConnection_spec w name c st :
  attempt_spec w name st (fst (initializeStdioConnection w name c st))
                         (snd (initializeStdioConnection w name c st)).
Proof.
  unfold initializeStdioConnection, loadToolsForServer, new_StdioClientTransport, new_Client,
    setupStdioRestart, when, policy_enabled, bind, try_catch, ret, throw, gets, modify, await.
  simpl.
  repeat (run_step; simpl); solve_attempt.
  all: try eassumption; try lia.
Qed.

Lemma initializeSSEConnection_spec w name c st :
  attempt_spec w name st (fst (initializeSSEConnection w name c st))
                         (snd (initializeSSEConnection w name c st)).
Proof.
  unfold initializeSSEConnection, createSSETransport, createNodeEventSourceTransport,
    new_SSEClientTransport, import, loadToolsForServer, new_Client,
    setupSSEReconnect, when, policy_enabled, bind, try_catch, ret, throw, gets, modify, await.
  simpl.
  repeat (run_step; simpl); solve_attempt.
  all: try eassumption; try lia.
Qed.

Lemma initializeConnection_spec w name conn st :
  attempt_spec w name st (fst (initializeConnection w name conn st))
                         (snd (initializeConnection w name conn st)).
Proof.
  destruct conn; simpl.
  - apply initializeStdioConnection_spec.
  - apply initializeSSEConnection_spec.
Qed.

Lemma map_has_set_assoc_same {A : Type} (k : string) (x : A) (l : list (string * A)) :
  map_has k (set_assoc k x l) = true.
Proof. unfold map_has. now rewrite assoc_set_assoc_same. Qed.

(** One pass of the reconnect loop never throws; it pauses, then makes
    one attempt. *)
Lemma reconnect_attempt_spec w name conn d st :
  exists connected st' calls,
    reconnect_attempt w name conn d false st = (Return connected, st')
    /\ trace st' = (trace st ++ sleep_calls d st ++ calls)%list
    /\ attempt_frame w name st st' calls
    /\ (if connected then attempt_succeeded w name st st'
        else attempt_failed name st st').
Proof.
  unfold reconnect_attempt, try_catch, bind, when.
  set (st_s := if truthy (Num d) then record_call (CallSleep d) st else st).
  assert (Hs : (if truthy (Num d) then await (CallSleep d) (inr tt) else ret tt) st
               = (Return tt, st_s)).
  { unfold st_s. destruct (truthy (Num d)); reflexivity. }
  rewrite Hs.
  assert (Htr : trace st_s = (trace st ++ sleep_calls d st)%list).
  { unfold st_s, sleep_calls. destruct (truthy (Num d)); simpl; [reflexivity|].
    now rewrite app_nil_r. }
  assert (Hsame : clients st_s = clients st
                  /\ serverNameToTools st_s = serverNameToTools st
                  /\ transportInstances st_s = transportInstances st
                  /\ client_count st_s = client_count st
                  /\ transports st_s = transports st
                  /\ connections st_s = connections st
                  /\ cleanupFunctions st_s = cleanupFunctions st).
  { unfold st_s. destruct (truthy (Num d)); repeat split; reflexivity. }
  destruct Hsame as (Hc & Ht & Hi & Hn & Hts & Hco & Hcl).
  pose proof (initializeConnection_spec w name conn st_s) as Hspec.
  destruct (initializeConnection w name conn st_s) as [r st'] eqn:Hrun.
  simpl in Hspec. destruct Hspec as (calls & Htrace & Hframe & Hres).
  assert (Hframe' : attempt_frame w name st st' calls).
  { unfold attempt_frame, seen_during in *.
    rewrite Hc, Ht, Hi, Hn, Hts, Hco, Hcl in Hframe. exact Hframe. }
  assert (Htrace' : trace st' = (trace st ++ sleep_calls d st ++ calls)%list).
  { rewrite Htrace, Htr. now rewrite app_assoc. }
  destruct r as [[]|e].
  - destruct Hres as [Hok _].
    assert (Hok' : attempt_succeeded w name st st').
    { unfold attempt_succeeded in *. rewrite Hc, Ht, Hn in Hok. exact Hok. }
    destruct Hok' as (c & tools & Hle & Hcs & Hload & Htools).
    unfold gets, ret. rewrite Hcs, map_has_set_assoc_same.
    exists true, st', calls.
    split; [reflexivity|]. split; [exact Htrace'|]. split; [exact Hframe'|].
    exists c, tools. auto.
  - destruct Hres as [_ Hfail].
    exists false, st', calls.
    split; [reflexivity|]. split; [exact Htrace'|]. split; [exact Hframe'|].
    unfold attempt_failed in *. rewrite Hc, Ht, Hn in Hfail. exact Hfail.
Qed.

(** The sessions one connection attempt leaves behind, read off the
    operations it awaited: the client of a connect that succeeded is
    registered under the server's name, its transport gets the restart
    hook when the policy is enabled, and nothing is closed. *)
Lemma initializeConnection_sessions w name conn st :
  exists calls,
    trace (snd (initializeConnection w name conn st)) = (trace st ++ calls)%list
    /\ closes_nothing calls = true
    /\ clients (snd (initializeConnection w name conn st))
       = match connected_clients w calls with
         | [] => clients st
         | c :: _ => set_assoc name c (clients st)
         end
    /\ onclose (snd (initializeConnection w name conn st))
       = (hooks_for w name conn calls ++ onclose st)%list
    /\ length (connected_clients w calls) = length (opened w calls).
Proof.
  destruct conn as [c|c]; simpl.
  - unfold initializeStdioConnection, loadToolsForServer, new_StdioClientTransport,
      new_Client, setupStdioRestart, when,
      bind, try_catch, ret, throw, gets, modify, await.
    simpl. repeat (run_step; simpl); solve_sessions.
  - unfold initializeSSEConnection, createSSETransport, createNodeEventSourceTransport,
      new_SSEClientTransport, import, loadToolsForServer, new_Client,
      setupSSEReconnect, when,
      bind, try_catch, ret, throw, gets, modify, await.
    simpl. repeat (run_step; simpl); solve_sessions.
Qed.

Lemma trace_after_pause d st :
  trace (after_pause d st) = (trace st ++ sleep_calls d st)%list.
Proof.
  unfold after_pause, sleep_calls. destruct (truthy (Num d)); simpl; [reflexivity|].
  now rewrite app_nil_r.
Qed.

(** One pass of the reconnect loop, in full: the pause, then one
    connection attempt made of the operations [calls]; what the attempt
    leaves in the maps, in the ledger and on the transports. *)
Lemma reconnect_attempt_effects w name conn d st :
  exists connected st' calls,
    reconnect_attempt w name conn d false st = (Return connected, st')
    /\ trace st' = (trace st ++ sleep_calls d st ++ calls)%list
    /\ trace (snd (initializeConnection w name conn (after_pause d st)))
       = (trace (after_pause d st) ++ calls)%list
    /\ attempt_frame w name st st' calls
    /\ (if connected then attempt_succeeded w name st st'
        else attempt_failed name st st')
    /\ closes_nothing calls = true
    /\ clients st'
       = match connected_clients w calls with
         | [] => clients st
         | c :: _ => set_assoc name c (clients st)
         end
    /\ onclose st' = (hooks_for w name conn calls ++ onclose st)%list
    /\ length (connected_clients w calls) = length (opened w calls)
    /\ (connected = true -> length (opened w calls) = 1).
Proof.
  destruct (reconnect_attempt_spec w name conn d st)
    as (connected & st' & calls & Hrun & Htr & Hframe & Hres).
  exists connected, st', calls.
  split; [exact Hrun|]. split; [exact Htr|].
  destruct (initializeConnection_sessions w name conn (after_pause d st))
    as (made & Hmade & Hno & Hcl & Hhooks & Hlen).
  assert (Hsame : trace st' = trace (snd (initializeConnection w name conn (after_pause d st)))
                  /\ clients st' = clients (snd (initializeConnection w name conn (after_pause d st)))
                  /\ onclose st' = onclose (snd (initializeConnection w name conn (after_pause d st)))
                  /\ (connected = true ->
                      fst (initializeConnection w name conn (after_pause d st))
                      = Return tt)).
  { revert Hrun. unfold reconnect_attempt, try_catch, bind, when.
    assert (Hs : (if truthy (Num d) then await (CallSleep d) (inr tt) else ret tt) st
                 = (Return tt, after_pause d st)).
    { unfold after_pause. destruct (truthy (Num d)); reflexivity. }
    rewrite Hs.
    destruct (initializeConnection w name conn (after_pause d st)) as [[[]|e] s];
      unfold gets, ret; simpl; intros H; inversion H; subst; auto.
    repeat split; discriminate. }
  destruct Hsame as (Ht & Hc & Ho & Hret).
  assert (Heq : made = calls).
  { apply (app_inv_head (trace (after_pause d st))).
    rewrite <- Hmade, <- Ht, Htr, trace_after_pause. now rewrite app_assoc. }
  subst made.
  assert (Hbase : clients (after_pause d st) = clients st
                  /\ onclose (after_pause d st) = onclose st).
  { unfold after_pause. destruct (truthy (Num d)); split; reflexivity. }
  destruct Hbase as [Hbc Hbo].
  split; [exact Hmade|]. split; [exact Hframe|]. split; [exact Hres|].
  split; [exact Hno|].
  split; [rewrite Hc, Hcl, Hbc; reflexivity|].
  split; [rewrite Ho, Hhooks, Hbo; reflexivity|]. split; [exact Hlen|].
  intros Hconnected. specialize (Hret Hconnected).
  pose proof (initializeConnection_spec w name conn (after_pause d st)) as Hspec.
  rewrite Hret in Hspec. destruct Hspec as (calls' & Htr' & _ & _ & Hone).
  assert (calls' = calls) as ->; [|exact Hone].
  apply (app_inv_head (trace (after_pause d st))). congruence.
Qed.

Lemma connected_clients_app w l1 l2 :
  connected_clients w (l1 ++ l2)
  = (connected_clients w l1 ++ connected_clients w l2)%list.
Proof. unfold connected_clients. apply flat_map_app. Qed.

Lemma connected_clients_sleep_calls w d st : connected_clients w (sleep_calls d st) = [].
Proof. unfold sleep_calls. destruct (truthy (Num d)); reflexivity. Qed.

Lemma opened_sleep_calls w d st : opened w (sleep_calls d st) = [].
Proof. unfold sleep_calls. destruct (truthy (Num d)); reflexivity. Qed.

Lemma opened_app w l1 l2 : opened w (l1 ++ l2) = (opened w l1 ++ opened w l2)%list.
Proof. unfold opened. apply flat_map_app. Qed.

Lemma hooks_for_app w name conn l1 l2 :
  hooks_for w name conn (l1 ++ l2)
  = (hooks_for w name conn l1 ++ hooks_for w name conn l2)%list.
Proof.
  unfold hooks_for. destruct (connection_policy conn) as [p|]; [|reflexivity].
  destruct (policy_enabled (Some p)); [|reflexivity].
  now rewrite opened_app, map_app.
Qed.

Lemma hooks_for_sleep_calls w name conn d st :
  hooks_for w name conn (sleep_calls d st) = [].
Proof.
  unfold hooks_for. rewrite opened_sleep_calls.
  destruct (connection_policy conn) as [p|]; [|reflexivity].
  now destruct (policy_enabled (Some p)).
Qed.

Lemma length_hooks_for w name conn calls :
  length (hooks_for w name conn calls) <= length (opened w calls).
Proof.
  unfold hooks_for. destruct (connection_policy conn) as [p|]; [|simpl; lia].
  destruct (policy_enabled (Some p)); [|simpl; lia].
  now rewrite length_map.
Qed.

Lemma last_connected_app w l1 l2 :
  last_connected w (l1 ++ l2)
  = match connected_clients w l2 with
    | [] => last_connected w l1
    | _ :: _ => last_connected w l2
    end.
Proof.
  unfold last_connected. rewrite connected_clients_app, fold_left_app.
  generalize (fold_left (fun _ c => Some c) (connected_clients w l1) None) as acc.
  generalize (@None ClientId) as acc'.
  induction (connected_clients w l2) as [|c l IH]; intros acc' acc; simpl.
  - reflexivity.
  - destruct l as [|c' l]; [reflexivity|]. apply (IH (Some c) (Some c)).
Qed.

(** *** The reconnect loop *)

(** With a numeric limit the loop ends within [limit - attempts] passes
    and never throws; an invariant kept by every pass holds at the end.
    The loop stops because it connected or because the limit is
    reached. *)
Lemma reconnect_loop_invariant w name conn (limit d : Z)
    (I : bool -> Z -> State -> Prop) :
  (forall a st connected st',
      I false a st -> (a < limit)%Z ->
      reconnect_attempt w name conn d false st = (Return connected, st') ->
      I connected (a + 1)%Z st') ->
  forall fuel a st,
    I false a st ->
    Z.to_nat (limit - a) <= fuel ->
    exists connected a' st',
      reconnect_loop w fuel name conn (Some limit) d false a st
      = Some (Return (connected, a'), st')
      /\ I connected a' st'
      /\ (a <= a')%Z
      /\ (a' <= Z.max a limit)%Z
      /\ (connected = false -> (limit <= a')%Z)
      /\ (connected = true -> (a < a')%Z).
Proof.
  intros Hstep fuel. induction fuel as [|fuel IH]; intros a st HI Hfuel.
  - assert ((a <? limit)%Z = false) as Hlt by (apply Z.ltb_ge; lia).
    simpl. rewrite Hlt. exists false, a, st.
    repeat split; auto; try lia; discriminate.
  - simpl. destruct (a <? limit)%Z eqn:Hlt.
    + apply Z.ltb_lt in Hlt.
      destruct (reconnect_attempt_spec w name conn d st)
        as (connected & st1 & calls & Hrun & _).
      rewrite Hrun.
      pose proof (Hstep a st connected st1 HI Hlt Hrun) as HI1.
      destruct connected.
      * exists true, (a + 1)%Z, st1.
        destruct fuel; simpl; repeat split; auto; try lia; discriminate.
      * destruct (IH (a + 1)%Z st1 HI1)
          as (c' & a' & st' & Hloop & HI' & Hle & Hmax & Hlim & Hpass); [lia|].
        exists c', a', st'.
        repeat split; auto; try lia; try (intros Hc; specialize (Hpass Hc); lia).
    + apply Z.ltb_ge in Hlt. exists false, a, st.
      repeat split; auto; try lia; discriminate.
Qed.

(** Without a limit, and as long as no attempt connects, the loop is
    still running after any number of passes: this is the branch
    [maxAttempts === undefined] of the loop condition. *)
Lemma reconnect_loop_unlimited w name conn d :
  (forall c t, exists e, connect_outcome w c t = inl e) ->
  forall fuel a st, reconnect_loop w fuel name conn None d false a st = None.
Proof.
  intros Hrefuse fuel. induction fuel as [|fuel IH]; intros a st; simpl; auto.
  destruct (reconnect_attempt_spec w name conn d st)
    as (connected & st1 & calls & Hrun & Htrace & Hframe & Hres).
  rewrite Hrun. destruct connected; [|apply IH].
  exfalso.
  (* a successful attempt has one successful connect among its calls *)
  revert Hrun. unfold reconnect_attempt, try_catch, bind, when.
  set (st_s := (if truthy (Num d) then await (CallSleep d) (inr tt) else ret tt) st).
  assert (Hs : exists s, st_s = (Return tt, s)).
  { unfold st_s. destruct (truthy (Num d)); eexists; reflexivity. }
  destruct Hs as [s Hs]. rewrite Hs.
  pose proof (initializeConnection_spec w name conn s) as Hspec.
  destruct (initializeConnection w name conn s) as [r s'].
  simpl in Hspec. destruct Hspec as (calls' & _ & _ & Hr).
  destruct r as [[]|e].
  - destruct Hr as [_ Hone]. intros _.
    assert (Hnil : opened w calls' = []).
    { unfold opened. clear Hone. induction calls' as [|[c sn] l IHl]; simpl; auto.
      rewrite IHl. destruct c; auto.
      destruct (Hrefuse client tr) as [e He]. now rewrite He. }
    rewrite Hnil in Hone. discriminate.
  - unfold ret. intros H. inversion H.
Qed.

(** [attemptReconnect] evicts, then runs the loop from zero attempts
    with the defaults applied; given enough fuel for the limit it
    returns normally, and an invariant of the passes holds at the end. *)
Lemma attemptReconnect_invariant w name conn (m d : option Z)
    (I : bool -> Z -> State -> Prop) st fuel :
  I false 0%Z (snd (cleanupServerResources name st)) ->
  (forall a s connected s',
      I false a s -> (a < default_parameter 3%Z m)%Z ->
      reconnect_attempt w name conn (default_parameter 1000%Z d) false s
      = (Return connected, s') ->
      I connected (a + 1)%Z s') ->
  Z.to_nat (default_parameter 3%Z m) <= fuel ->
  exists connected attempts st',
    reconnect_loop w fuel name conn (Some (default_parameter 3%Z m))
                   (default_parameter 1000%Z d) false 0%Z
                   (snd (cleanupServerResources name st))
    = Some (Return (connected, attempts), st')
    /\ attemptReconnect w fuel name conn m d st = Some (Return tt, st')
    /\ I connected attempts st'
    /\ (0 <= attempts <= Z.max 0 (default_parameter 3%Z m))%Z
    /\ (connected = false -> (default_parameter 3%Z m <= attempts)%Z)
    /\ (connected = true -> (0 < attempts)%Z).
Proof.
  intros H0 Hstep Hfuel.
  destruct (reconnect_loop_invariant w name conn (default_parameter 3%Z m)
              (default_parameter 1000%Z d) I Hstep fuel 0%Z
              (snd (cleanupServerResources name st)) H0)
    as (connected & attempts & st' & Hloop & HI & Hle & Hmax & Hlim & Hpass).
  { now rewrite Z.sub_0_r. }
  exists connected, attempts, st'.
  split; [exact Hloop|]. split.
  - unfold attemptReconnect.
    remember (snd (cleanupServerResources name st)) as st1 eqn:Hst1.
    assert (cleanupServerResources name st = (Return tt, st1)) as ->
        by (subst st1; reflexivity).
    now rewrite Hloop.
  - repeat split; auto.
Qed.

(** Given fuel for the limit in force, [attemptReconnect] returns
    normally. *)
Lemma attemptReconnect_returns w name conn (m d : option Z) st fuel :
  Z.to_nat (default_parameter 3%Z m) <= fuel ->
  exists st', attemptReconnect w fuel name conn m d st = Some (Return tt, st').
Proof.
  intros Hfuel.
  destruct (attemptReconnect_invariant w name conn m d (fun _ _ _ => True) st fuel)
    as (c & a & st' & _ & Hrun & _); auto.
  exists st'. exact Hrun.
Qed.

Lemma same_or_fresh_other name bound (l l' : list (string * nat)) n :
  same_or_fresh name bound l l' -> n <> name -> assoc n l' = assoc n l.
Proof.
  intros [->|(x & _ & ->)] Hne; [reflexivity|].
  now apply assoc_set_assoc_other.
Qed.

Lemma same_or_fresh_bound name bound (l l' : list (string * nat)) x :
  same_or_fresh name bound l l' ->
  (forall y, assoc name l = Some y -> bound <= y) ->
  assoc name l' = Some x -> bound <= x.
Proof.
  intros [->|(y & Hy & ->)] Hold; [apply Hold|].
  rewrite assoc_set_assoc_same. intros H. inversion H. now subst.
Qed.

(** C1, as the claim states it, fails.  In [two_servers] the [fs]
    server is connected with the policy [{ enabled: true }], and from
    then on every connection is refused.  When its transport signals
    closure the handler runs [attemptReconnect] with [maxAttempts]
    undefined: three attempts are made, each refused, and the handler
    returns -- it has given up. *)
Lemma reconnect_without_maxAttempts_gives_up :
  maxAttempts enabled_only = None
  /\ installed_hook 0 (onclose two_servers)
     = Some (mkHook "fs" (fs_with enabled_only) enabled_only)
  /\ (exists st',
         transport_closed scenario_world 3 0 two_servers = Some (Return tt, st')
         /\ map fst (skipn (length (trace two_servers)) (trace st'))
            = [CallOriginalOnClose 0;
               CallSleep 1000; CallConnect 2 2;
               CallSleep 1000; CallConnect 3 3;
               CallSleep 1000; CallConnect 4 4]
         /\ getClient "fs" st' = None)
  /\ ~ (forall fuel, transport_closed scenario_world fuel 0 two_servers = None).
Proof.
  split; [reflexivity|]. split; [reflexivity|]. split.
  - eexists. split; [vm_compute; reflexivity|]. split; reflexivity.
  - intros H. specialize (H 3). vm_compute in H. discriminate.
Qed.

(** C1 (amended): when [maxAttempts] is absent, [attemptReconnect]
    applies its default of 3.  Whatever the server, the descriptor, the
    delay and the behaviour of the outside world, it returns normally
    after at most three passes of the loop, and it returns unconnected
    only after exactly three failed attempts. *)
Theorem absent_maxAttempts_defaults_to_three w name conn (d : option Z) st fuel :
  3 <= fuel ->
  exists connected attempts st',
    reconnect_loop w fuel name conn (Some 3%Z) (default_parameter 1000%Z d)
                   false 0%Z (snd (cleanupServerResources name st))
    = Some (Return (connected, attempts), st')
    /\ attemptReconnect w fuel name conn None d st = Some (Return tt, st')
    /\ (1 <= attempts <= 3)%Z
    /\ (connected = false -> attempts = 3%Z).
Proof.
  intros Hfuel.
  destruct (attemptReconnect_invariant w name conn None d
              (fun _ _ _ => True) st fuel)
    as (connected & attempts & st' & Hloop & Hrun & _ & Hrange & Hlim & Hpass);
    auto.
  exists connected, attempts, st'. simpl in *.
  split; [exact Hloop|]. split; [exact Hrun|]. split.
  - destruct connected; [specialize (Hpass eq_refl)|specialize (Hlim eq_refl)]; lia.
  - intros Hc. specialize (Hlim Hc). lia.
Qed.

Lemma absent_maxAttempts_defaults_to_three_witness :
  3 <= 3
  /\ option_map fst
       (attemptReconnect scenario_world 3 "fs" (fs_with enabled_only) None None
                         two_servers)
     = Some (Return tt).
Proof.
  split; [lia|].
  destruct (absent_maxAttempts_defaults_to_three scenario_world "fs"
              (fs_with enabled_only) None two_servers 3 (le_n 3))
    as (connected & attempts & st' & _ & Hrun & _ & _).
  rewrite Hrun. reflexivity.
Defined.

(** C3, as the claim states it, fails: the absence of the server from
    the tools is not the only effect of an exhausted reconnect, and it
    need not last.  [fs] and [search] are connected; the transport of
    [fs] closes; each of the three attempts connects and then fails to
    discover the tools.  [attemptReconnect] returns normally and [fs]
    has no tools, but [getClient("fs")] is the client of the third
    attempt, the ledger has three more cleanups and the three new
    transports have a restart handler.  When the transport of the third
    attempt closes in its turn, that handler finds the client and
    reconnects: [fs] is back among the tools. *)
Lemma exhausted_reconnect_leaves_a_session :
  two_servers
  = snd (initializeConnections flaky_discovery
           (set_connections (Some [("fs", fs_with enabled_only);
                                   ("search", search_with enabled_only)])
                            initial_state))
  /\ exists st',
      attemptReconnect flaky_discovery 3 "fs" (fs_with enabled_only) None None
                       two_servers
      = Some (Return tt, st')
      /\ getTools (Some ["fs"]) st' = []
      /\ getClient "fs" two_servers = Some 0
      /\ getClient "fs" st' = Some 4
      /\ length (cleanupFunctions two_servers) = 2
      /\ length (cleanupFunctions st') = 5
      /\ map fst (onclose st') = [4; 3; 2; 1; 0]
      /\ exists st'',
          transport_closed flaky_discovery 3 4 st' = Some (Return tt, st'')
          /\ getTools (Some ["fs"]) st'' = [read_file; write_file].
Proof.
  split; [vm_compute; reflexivity|].
  eexists. split; [vm_compute; reflexivity|].
  repeat (split; [vm_compute; reflexivity|]).
  eexists. split; vm_compute; reflexivity.
Qed.

(** C3 (amended): no error of a reconnect attempt leaves
    [attemptReconnect].  Given fuel for the limit in force, the call
    returns normally whatever the outside world does; the entries of
    the other servers are as before; and when the loop ends unconnected
    -- the attempts are exhausted -- the server has no entry in the
    registry, so that [getTools] returns nothing for it and, without
    filter, exactly the tools of the other servers.  The absence is not
    the only effect the caller can see: every attempt whose connect
    succeeded leaves its session behind.  [getClient] of the server is
    the client of the latest connect that succeeded during the call,
    [undefined] when none did; the ledger has one more cleanup for each
    of these connects, in order; their transports have the restart
    handler when the policy is enabled; the configuration is as
    before. *)
Theorem reconnect_errors_never_escape w name conn (m d : option Z) st fuel :
  Z.to_nat (default_parameter 3%Z m) <= fuel ->
  exists connected attempts st' calls,
    reconnect_loop w fuel name conn (Some (default_parameter 3%Z m))
                   (default_parameter 1000%Z d) false 0%Z
                   (snd (cleanupServerResources name st))
    = Some (Return (connected, attempts), st')
    /\ attemptReconnect w fuel name conn m d st = Some (Return tt, st')
    /\ trace st' = (trace st ++ calls)%list
    /\ (forall n, n <> name ->
                  tools_of st' n = tools_of st n
                  /\ getClient n st' = getClient n st)
    /\ (connected = false ->
        (default_parameter 3%Z m <= attempts)%Z
        /\ serverNameToTools st' = map_delete name (serverNameToTools st)
        /\ getTools (Some [name]) st' = []
        /\ getTools None st'
           = concat (map snd (map_delete name (serverNameToTools st))))
    /\ getClient name st' = last_connected w calls
    /\ cleanupFunctions st'
       = (cleanupFunctions st ++ map (mkCleanup name) (opened w calls))%list
    /\ onclose st' = (rev (hooks_for w name conn calls) ++ onclose st)%list
    /\ connections st' = connections st.
Proof.
  intros Hfuel.
  destruct (attemptReconnect_invariant w name conn m d
              (fun c _ s =>
                 (forall n, n <> name ->
                            assoc n (serverNameToTools s) = assoc n (serverNameToTools st)
                            /\ assoc n (clients s) = assoc n (clients st))
                 /\ (c = false ->
                     serverNameToTools s = map_delete name (serverNameToTools st))
                 /\ exists calls,
                     trace s = (trace st ++ calls)%list
                     /\ assoc name (clients s) = last_connected w calls
                     /\ cleanupFunctions s
                        = (cleanupFunctions st
                           ++ map (mkCleanup name) (opened w calls))%list
                     /\ onclose s
                        = (rev (hooks_for w name conn calls) ++ onclose st)%list
                     /\ connections s = connections st)
              st fuel)
    as (connected & attempts & st' & Hloop & Hrun
        & (Hother & Hgone & calls & Htr & Hclient & Hledger & Hhooks & Hconns)
        & Hrange & Hlim & _).
  - simpl. split; [|split; [reflexivity|]].
    + intros n Hn. split; now apply assoc_map_delete_other.
    + exists []. rewrite !app_nil_r.
      split; [reflexivity|]. split; [apply assoc_map_delete_same|].
      split; [reflexivity|]. split; [|reflexivity].
      unfold hooks_for. destruct (connection_policy conn) as [p|]; [|reflexivity].
      now destruct (policy_enabled (Some p)).
  - intros a s c s'
           (Hother & Hgone & calls & Htr & Hclient & Hledger & Hhooks & Hconns)
           _ Hattempt.
    destruct (reconnect_attempt_effects w name conn (default_parameter 1000%Z d) s)
      as (c1 & s1 & made & Hrun & Htr' & _ & Hframe & Hres & _ & Hcl & Hho & Hlen & _).
    rewrite Hattempt in Hrun. inversion Hrun; subst c1 s1. clear Hrun.
    split; [|split].
    + intros n Hn. destruct (Hother n Hn) as [H1 H2]. destruct c.
      * destruct Hres as (cl & tools & _ & Hcl' & _ & Htools).
        rewrite Hcl', Htools, !assoc_set_assoc_other by exact Hn. now split.
      * destruct Hres as [Htools Hcl']. split; [now rewrite Htools|].
        rewrite <- H2. exact (same_or_fresh_other _ _ _ _ n Hcl' Hn).
    + intros ->. destruct Hres as [Htools _]. rewrite Htools. now apply Hgone.
    + destruct Hframe as (_ & Hco & _ & _ & Hle & Hone & _).
      exists (calls ++ sleep_calls (default_parameter 1000%Z d) s ++ made)%list.
      split; [rewrite Htr', Htr, <- app_assoc; reflexivity|].
      split; [|split; [|split]].
      * rewrite last_connected_app, connected_clients_app,
          connected_clients_sleep_calls. simpl.
        rewrite Hcl. destruct (connected_clients w made) as [|c0 l] eqn:Hmade.
        -- exact Hclient.
        -- rewrite assoc_set_assoc_same.
           assert (l = []) as ->.
           { rewrite <- Hlen in Hone. simpl in Hone. destruct l; [reflexivity|].
             simpl in Hone. lia. }
           unfold last_connected.
           rewrite connected_clients_app, connected_clients_sleep_calls, Hmade.
           reflexivity.
      * rewrite Hle, Hledger, !opened_app, opened_sleep_calls, !map_app, <- app_assoc.
        reflexivity.
      * rewrite Hho, Hhooks, !hooks_for_app, hooks_for_sleep_calls, rev_app_distr.
        simpl. rewrite <- app_assoc. f_equal.
        pose proof (length_hooks_for w name conn made) as Hh.
        destruct (hooks_for w name conn made) as [|h0 [|h1 l]]; try reflexivity.
        simpl in Hh. lia.
      * now rewrite Hco.
  - exact Hfuel.
  - exists connected, attempts, st', calls.
    split; [exact Hloop|]. split; [exact Hrun|]. split; [exact Htr|]. split; [|split].
    + intros n Hn. destruct (Hother n Hn) as [H1 H2].
      unfold tools_of, getClient. now rewrite H1, H2.
    + intros Hc. specialize (Hgone Hc). split; [now apply Hlim|].
      split; [exact Hgone|]. split.
      * unfold getTools, getToolsFromServers. simpl.
        now rewrite Hgone, assoc_map_delete_same.
      * simpl. now rewrite getAllToolsAsFlatArray_concat, Hgone.
    + repeat split; assumption.
Qed.

Lemma reconnect_errors_never_escape_witness :
  Z.to_nat (default_parameter 3%Z (Some 2%Z)) <= 2
  /\ option_map fst
       (attemptReconnect scenario_world 2 "fs"
          (fs_with (mkPolicy (Some true) (Some 2%Z) (Some 0%Z)))
          (Some 2%Z) (Some 0%Z) two_servers)
     = Some (Return tt).
Proof.
  split; [simpl; lia|].
  destruct (reconnect_errors_never_escape scenario_world "fs"
              (fs_with (mkPolicy (Some true) (Some 2%Z) (Some 0%Z)))
              (Some 2%Z) (Some 0%Z) two_servers 2)
    as (connected & attempts & st' & calls & _ & Hrun & _); [simpl; lia|].
  rewrite Hrun. reflexivity.
Defined.

(** The [onclose] handler installed by [setupStdioRestart] and
    [setupSSEReconnect] returns normally whenever the SDK's own handler
    does. *)
Lemma restart_handler_returns w t h st fuel :
  originalOnClose_outcome w t = inr tt ->
  Z.to_nat (default_parameter 3%Z (maxAttempts (hook_policy h))) <= fuel ->
  exists st', restart_handler w fuel t h st = Some (Return tt, st').
Proof.
  intros Horig Hfuel. unfold restart_handler, await. rewrite Horig.
  destruct (map_has (hook_server h) (clients (record_call (CallOriginalOnClose t) st))).
  - apply attemptReconnect_returns. exact Hfuel.
  - eexists. reflexivity.
Qed.

Lemma evicted_of_seen_during name st0 s cs :
  evicted name st0 (snapshot s) ->
  client_count st0 <= client_count s ->
  length (transports st0) <= length (transports s) ->
  seen_during name s cs ->
  evicted name st0 (snd cs).
Proof.
  intros (Ht & Hc & Hi) Hcc Hlen (_ & Hst & Hsc & Hsi).
  unfold evicted. simpl in *. rewrite Hst. split; [exact Ht|]. split.
  - intros c. apply (same_or_fresh_bound name (client_count st0) (clients s)).
    + destruct Hsc as [->|(x & Hx & ->)]; [now left|].
      right. exists x. split; [lia|reflexivity].
    + exact Hc.
  - intros t. apply (same_or_fresh_bound name (length (transports st0)) (transportInstances s)).
    + destruct Hsi as [->|(x & Hx & ->)]; [now left|].
      right. exists x. split; [lia|reflexivity].
    + exact Hi.
Qed.

(** C4: [attemptReconnect] first removes the server from the client
    map, the tool registry and the transport map, whatever the
    arguments; the loop starts from that state.  At every point where
    the supervisor is then suspended, and at the end when it gives up,
    the registry holds no tools for the server, and what the other two
    maps hold for it was created by this call. *)
Theorem eviction_precedes_reconnect w name conn (m d : option Z) st fuel :
  Z.to_nat (default_parameter 3%Z m) <= fuel ->
  let st1 := snd (cleanupServerResources name st) in
  getClient name st1 = None
  /\ tools_of st1 name = []
  /\ assoc name (serverNameToTools st1) = None
  /\ assoc name (transportInstances st1) = None
  /\ trace st1 = trace st
  /\ exists connected attempts st' calls,
       reconnect_loop w fuel name conn (Some (default_parameter 3%Z m))
                      (default_parameter 1000%Z d) false 0%Z st1
       = Some (Return (connected, attempts), st')
       /\ attemptReconnect w fuel name conn m d st = Some (Return tt, st')
       /\ trace st' = (trace st ++ calls)%list
       /\ Forall (fun cs => evicted name st (snd cs)) calls
       /\ (connected = false -> evicted name st (snapshot st')).
Proof.
  intros Hfuel st1.
  assert (Hev1 : evicted name st (snapshot st1)).
  { unfold evicted, st1. simpl. rewrite !assoc_map_delete_same.
    repeat split; discriminate. }
  split; [apply assoc_map_delete_same|].
  split; [unfold tools_of, st1; simpl; now rewrite assoc_map_delete_same|].
  split; [apply assoc_map_delete_same|].
  split; [apply assoc_map_delete_same|].
  split; [reflexivity|].
  destruct (attemptReconnect_invariant w name conn m d
              (fun c _ s =>
                 client_count st <= client_count s
                 /\ length (transports st) <= length (transports s)
                 /\ (exists calls,
                        trace s = (trace st ++ calls)%list
                        /\ Forall (fun cs => evicted name st (snd cs)) calls)
                 /\ (c = false -> evicted name st (snapshot s)))
              st fuel)
    as (connected & attempts & st' & Hloop & Hrun & HI & _); auto.
  - split; [reflexivity|]. split; [reflexivity|]. split.
    + exists []. split; [now rewrite app_nil_r|constructor].
    + intros _. exact Hev1.
  - intros a s c s' (Hcc & Hlen & (calls & Htr & Hall) & Hev) _ Hattempt.
    specialize (Hev eq_refl).
    destruct (reconnect_attempt_spec w name conn (default_parameter 1000%Z d) s)
      as (c1 & s1 & calls' & Hrun & Htr' & Hframe & Hres).
    rewrite Hattempt in Hrun. inversion Hrun; subst c1 s1. clear Hrun.
    destruct Hframe as (Hseen & _ & Hcc' & Hlen' & _ & _ & Hinst).
    split; [lia|]. split; [lia|]. split.
    + exists (calls ++ sleep_calls (default_parameter 1000%Z d) s ++ calls')%list.
      split; [rewrite Htr', Htr; now rewrite <- app_assoc|].
      apply Forall_app. split; [exact Hall|].
      apply Forall_app. split.
      * unfold sleep_calls. destruct (truthy _); constructor; [exact Hev|constructor].
      * eapply Forall_impl; [|exact Hseen].
        intros cs Hcs. eapply evicted_of_seen_during; eauto.
    + intros ->. destruct Hres as [Htools Hcl].
      destruct Hev as (Ht & Hc & Hi).
      unfold evicted. simpl. rewrite Htools. split; [exact Ht|]. split.
      * intros x. apply (same_or_fresh_bound name (client_count st) (clients s)); auto.
        destruct Hcl as [->|(y & Hy & ->)]; [now left|].
        right. exists y. split; [lia|reflexivity].
      * intros x.
        apply (same_or_fresh_bound name (length (transports st)) (transportInstances s)); auto.
        destruct Hinst as [->|(y & Hy & ->)]; [now left|].
        right. exists y. split; [lia|reflexivity].
  - destruct HI as (_ & _ & (calls & Htr & Hall) & Hev).
    exists connected, attempts, st', calls. auto.
Qed.

Lemma eviction_precedes_reconnect_witness :
  Z.to_nat (default_parameter 3%Z None) <= 3
  /\ getClient "fs" two_servers = Some 0
  /\ getClient "fs" (snd (cleanupServerResources "fs" two_servers)) = None
  /\ tools_of (snd (cleanupServerResources "fs" two_servers)) "fs" = [].
Proof.
  split; [simpl; lia|]. split; [reflexivity|].
  destruct (eviction_precedes_reconnect scenario_world "fs" (fs_with enabled_only)
              None None two_servers 3)
    as (Hclient & Htools & _); [simpl; lia|].
  split; [exact Hclient | exact Htools].
Defined.

(** C6, as the claim states it, fails for the SSE transport.  The
    [search] server of [two_servers] is an SSE server whose policy
    [{ enabled: true }] omits [delayMs]; when its transport signals
    closure, every pause before a reconnect attempt lasts 1000 ms, none
    3000 ms. *)
Lemma sse_reconnect_delay_is_not_3000 :
  delayMs enabled_only = None
  /\ installed_hook 1 (onclose two_servers)
     = Some (mkHook "search" (search_with enabled_only) enabled_only)
  /\ (exists st',
         transport_closed scenario_world 3 1 two_servers = Some (Return tt, st')
         /\ filter is_sleep (map fst (skipn (length (trace two_servers)) (trace st')))
            = [CallSleep 1000; CallSleep 1000; CallSleep 1000]
         /\ ~ In (CallSleep 3000) (map fst (trace st'))).
Proof.
  split; [reflexivity|]. split; [reflexivity|].
  eexists. split; [vm_compute; reflexivity|]. split; [reflexivity|].
  simpl. intros H.
  repeat (destruct H as [H|H]; [discriminate|]). exact H.
Qed.

(** C6 (amended): when [delayMs] is omitted, the pause before each
    reconnect attempt defaults to 1000 ms, for a stdio server and for an
    SSE server alike.  The operations of the call are those of its
    passes, one pass for each attempt counted by the loop; every pass
    is a pause of 1000 ms followed at once by one connection attempt,
    which makes no pause of its own.  Hence every pause of the call
    lasts 1000 ms, every attempt comes right after one, and the call
    starts with one unless no attempt is allowed. *)
Theorem omitted_delayMs_defaults_to_1000 w name conn (m : option Z) st fuel :
  Z.to_nat (default_parameter 3%Z m) <= fuel ->
  exists st' calls,
    attemptReconnect w fuel name conn m None st = Some (Return tt, st')
    /\ trace st' = (trace st ++ calls)%list
    /\ (forall ms sn, In (CallSleep ms, sn) calls -> ms = 1000%Z)
    /\ ((0 < default_parameter 3%Z m)%Z ->
        exists sn rest, calls = (CallSleep 1000, sn) :: rest)
    /\ exists connected attempts passes,
        reconnect_loop w fuel name conn (Some (default_parameter 3%Z m)) 1000%Z
                       false 0%Z (snd (cleanupServerResources name st))
        = Some (Return (connected, attempts), st')
        /\ calls = concat (map (pass_calls 1000) passes)
        /\ Z.of_nat (length passes) = attempts
        /\ Forall (is_pass w name conn 1000) passes.
Proof.
  intros Hfuel.
  destruct (attemptReconnect_invariant w name conn m None
              (fun _ a s =>
                 exists passes,
                   trace s = (trace st ++ concat (map (pass_calls 1000) passes))%list
                   /\ Z.of_nat (length passes) = a
                   /\ Forall (is_pass w name conn 1000) passes)
              st fuel)
    as (connected & attempts & st' & Hloop & Hrun & (passes & Htr & Hlen & Hpasses)
        & Hrange & Hlim & Hpass).
  - exists []. simpl. rewrite app_nil_r. repeat split. constructor.
  - intros a s c s' (passes & Htr & Hlen & Hpasses) _ Hattempt.
    destruct (reconnect_attempt_effects w name conn (default_parameter 1000%Z None) s)
      as (c1 & s1 & made & Hrun & Htr' & Htie & Hframe & _).
    rewrite Hattempt in Hrun. inversion Hrun; subst c1 s1. clear Hrun.
    destruct Hframe as (Hseen & _).
    change (default_parameter 1000%Z None) with 1000%Z in *.
    change (after_pause 1000 s) with (record_call (CallSleep 1000) s) in Htie.
    change (sleep_calls 1000 s) with [(CallSleep 1000, snapshot s)] in Htr'.
    exists (passes ++ [(s, made)])%list.
    split; [|split].
    + rewrite Htr', Htr, map_app, concat_app. simpl.
      rewrite app_nil_r, <- app_assoc. reflexivity.
    + rewrite length_app. simpl. lia.
    + apply Forall_app. split; [exact Hpasses|]. constructor; [|constructor].
      unfold is_pass, pass_calls. cbn [fst snd]. split.
      * rewrite Htie. cbn [record_call trace]. rewrite <- app_assoc. reflexivity.
      * eapply Forall_impl; [|exact Hseen]. intros cs Hcs. apply Hcs.
  - exact Hfuel.
  - exists st', (concat (map (pass_calls 1000) passes)).
    split; [exact Hrun|]. split; [exact Htr|]. split; [|split].
    + intros ms sn Hin. apply in_concat in Hin. destruct Hin as (l & Hl & Hin).
      apply in_map_iff in Hl. destruct Hl as (p & <- & Hp).
      destruct Hin as [Hin|Hin]; [now inversion Hin|].
      rewrite Forall_forall in Hpasses. destruct (Hpasses p Hp) as [_ Hns].
      rewrite Forall_forall in Hns. specialize (Hns _ Hin). discriminate.
    + intros Hm.
      assert (0 < attempts)%Z as Hpos
          by (destruct connected;
              [specialize (Hpass eq_refl)|specialize (Hlim eq_refl)]; lia).
      destruct passes as [|p rest]; [simpl in Hlen; lia|].
      simpl. unfold pass_calls at 1. simpl. eauto.
    + exists connected, attempts, passes.
      split; [exact Hloop|]. split; [reflexivity|]. split; [exact Hlen|exact Hpasses].
Qed.

Lemma omitted_delayMs_defaults_to_1000_witness :
  Z.to_nat (default_parameter 3%Z None) <= 3
  /\ option_map fst
       (attemptReconnect scenario_world 3 "search" (search_with enabled_only)
                         None None two_servers)
     = Some (Return tt).
Proof.
  split; [simpl; lia|].
  destruct (omitted_delayMs_defaults_to_1000 scenario_world "search"
              (search_with enabled_only) None two_servers 3)
    as (st' & calls & Hrun & _); [simpl; lia|].
  rewrite Hrun. reflexivity.
Defined.

(** *** Shutdown *)

(** The loop of [close()], undisturbed, calls [close] on the transport
    of every ledger entry, in order; a rejected call is caught; nothing
    but the trace changes. *)
Lemma close_loop_quiet_spec w cleanups st :
  exists st',
    close_loop_quiet w cleanups st = (Return tt, st')
    /\ trace st'
       = (trace st
          ++ map (fun c => (CallClose (cleanup_transport c), snapshot st)) cleanups)%list
    /\ snapshot st' = snapshot st
    /\ cleanupFunctions st' = cleanupFunctions st
    /\ connections st' = connections st.
Proof.
  revert st. induction cleanups as [|c rest IH]; intros st; simpl.
  - exists st. unfold ret. repeat split. now rewrite app_nil_r.
  - unfold bind, try_catch, await, ret.
    destruct (IH (record_call (CallClose (cleanup_transport c)) st))
      as (st' & Hrun & Htr & Hsnap & Hcl & Hco).
    exists st'.
    destruct (close_outcome w (cleanup_transport c)); rewrite Hrun;
      (split; [reflexivity|]);
      (split; [rewrite Htr; simpl; now rewrite <- app_assoc|]);
      repeat split; assumption.
Qed.

Lemma closed_by_app l1 l2 : closed_by (l1 ++ l2) = (closed_by l1 ++ closed_by l2)%list.
Proof. unfold closed_by. apply flat_map_app. Qed.

Lemma closed_by_cleanups (sn : Snapshot) (cleanups : list Cleanup) :
  closed_by (map (fun c => (CallClose (cleanup_transport c), sn)) cleanups)
  = map cleanup_transport cleanups.
Proof. induction cleanups as [|c l IH]; simpl; [reflexivity|now rewrite IH]. Qed.

Lemma closes_nothing_closed_by calls :
  closes_nothing calls = true -> closed_by calls = [].
Proof.
  unfold closes_nothing. induction calls as [|[c sn] l IH]; simpl; [reflexivity|].
  intros H. apply andb_true_iff in H. destruct H as [Hc Hl].
  rewrite (IH Hl). destruct c; simpl in *; try reflexivity. discriminate.
Qed.

Lemma skipn_nth_error {A : Type} (l : list A) (i : nat) (x : A) :
  nth_error l i = Some x -> skipn i l = x :: skipn (S i) l.
Proof.
  revert l. induction i as [|i IH]; intros [|y l]; simpl; try discriminate.
  - intros H. now inversion H.
  - apply IH.
Qed.

(** The loop of [close()] with other flows running at its suspensions:
    it ends normally; the ledger has only grown, by what the other
    flows pushed; and from position [i] on every entry of the ledger as
    it is at the end has had its transport closed, in order, by the
    loop, which closed nothing else. *)
Lemma close_loop_spec w schedule :
  Forall interferes schedule ->
  forall i st,
  exists st' calls added,
    close_loop w schedule i st = (Return tt, st')
    /\ trace st' = (trace st ++ calls)%list
    /\ cleanupFunctions st' = (cleanupFunctions st ++ added)%list
    /\ closed_by calls = map cleanup_transport (skipn i (cleanupFunctions st')).
Proof.
  induction 1 as [|during later Hduring _ IH]; intros i st.
  - destruct (close_loop_quiet_spec w (skipn i (cleanupFunctions st)) st)
      as (st' & Hrun & Htr & _ & Hcl & _).
    exists st', (map (fun c => (CallClose (cleanup_transport c), snapshot st))
                     (skipn i (cleanupFunctions st))), [].
    split; [exact Hrun|]. split; [exact Htr|].
    split; [now rewrite app_nil_r|].
    now rewrite closed_by_cleanups, Hcl.
  - simpl. destruct (nth_error (cleanupFunctions st) i) as [c|] eqn:Hi.
    + set (st1 := during (record_call (CallClose (cleanup_transport c)) st)).
      assert (Hstep : (try_catch
                         (await_while (CallClose (cleanup_transport c))
                                      (close_outcome w (cleanup_transport c)) during)
                         (fun _ => ret tt)) st = (Return tt, st1)).
      { unfold try_catch, await_while, ret.
        destruct (close_outcome w (cleanup_transport c)) as [e|[]]; reflexivity. }
      unfold bind. rewrite Hstep.
      destruct (Hduring (record_call (CallClose (cleanup_transport c)) st))
        as (calls1 & added1 & Htr1 & Hno1 & Hcl1).
      fold st1 in Htr1, Hcl1. simpl in Htr1, Hcl1.
      destruct (IH (S i) st1) as (st' & calls' & added' & Hrun & Htr & Hcl & Hclosed).
      exists st', ((CallClose (cleanup_transport c), snapshot st) :: calls1 ++ calls')%list,
             (added1 ++ added')%list.
      split; [exact Hrun|].
      split; [rewrite Htr, Htr1, <- !app_assoc; reflexivity|].
      split; [rewrite Hcl, Hcl1, <- app_assoc; reflexivity|].
      assert (Hnth : nth_error (cleanupFunctions st') i = Some c).
      { rewrite Hcl, Hcl1, <- app_assoc, nth_error_app1; [exact Hi|].
        apply nth_error_Some. congruence. }
      rewrite (skipn_nth_error _ _ _ Hnth). simpl.
      now rewrite closed_by_app, (closes_nothing_closed_by _ Hno1), Hclosed.
    + exists st, [], []. unfold ret. rewrite !app_nil_r.
      repeat split. apply nth_error_None in Hi. now rewrite skipn_all2.
Qed.

(** C9: [close()] calls every cleanup of the ledger in the order in
    which they were appended, catches the errors of the individual
    cleanups -- it returns normally whatever they do -- and leaves the
    ledger, the client map, the tool map and the transport map empty.
    This holds with the restart handlers running: closing a transport
    signals its closure, and the handlers and reconnect loops that run
    while [close()] is suspended may evict servers, register them again
    and push cleanups; the loop then closes what they pushed as well,
    and the maps are cleared after the loop whatever was written to
    them.  With nothing else running the calls of [close()] are exactly
    the closes of the ledger.  The ledger itself grows by one entry for
    each session opened, in order: connecting a server appends the
    cleanup of the transport whose connect succeeded, and nothing when
    the connect failed. *)
Theorem close_runs_ledger_in_order_and_clears w schedule st :
  Forall interferes schedule ->
  (exists loop_end st' calls added,
      close_loop w schedule 0 st = (Return tt, loop_end)
      /\ close w schedule st = (Return tt, st')
      /\ trace st' = (trace st ++ calls)%list
      /\ cleanupFunctions loop_end = (cleanupFunctions st ++ added)%list
      /\ closed_by calls = map cleanup_transport (cleanupFunctions st ++ added)
      /\ (schedule = [] ->
          added = []
          /\ calls = map (fun c => (CallClose (cleanup_transport c), snapshot st))
                         (cleanupFunctions st))
      /\ cleanupFunctions st' = []
      /\ clients st' = []
      /\ serverNameToTools st' = []
      /\ transportInstances st' = []
      /\ getTools None st' = [])
  /\ (forall name conn,
         exists calls,
           trace (snd (initializeConnection w name conn st)) = (trace st ++ calls)%list
           /\ cleanupFunctions (snd (initializeConnection w name conn st))
              = (cleanupFunctions st ++ map (mkCleanup name) (opened w calls))%list
           /\ length (opened w calls) <= 1).
Proof.
  intros Hschedule. split.
  - destruct (close_loop_spec w schedule Hschedule 0 st)
      as (st1 & calls & added & Hrun & Htr & Hcl & Hclosed).
    exists st1. unfold close, bind, modify. rewrite Hrun. simpl.
    eexists. exists calls, added.
    split; [reflexivity|]. split; [reflexivity|]. simpl.
    split; [exact Htr|]. split; [exact Hcl|].
    split; [now rewrite <- Hcl|].
    split; [|repeat split].
    intros ->. simpl in Hrun.
    destruct (close_loop_quiet_spec w (cleanupFunctions st) st)
      as (st2 & Hrun2 & Htr2 & _ & Hcl2 & _).
    rewrite Hrun2 in Hrun. inversion Hrun; subst st2. split.
    + rewrite Hcl2 in Hcl. apply (app_inv_head (cleanupFunctions st)).
      now rewrite app_nil_r.
    + apply (app_inv_head (trace st)). congruence.
  - intros name conn.
    destruct (initializeConnection_spec w name conn st)
      as (calls & Htr & (_ & _ & _ & _ & Hcl & Hone & _) & _).
    exists calls. auto.
Qed.

(** *** Initialization *)

Lemma map_has_set_assoc_mono {A : Type} (k n : string) (x : A) (l : list (string * A)) :
  map_has n l = true -> map_has n (set_assoc k x l) = true.
Proof.
  unfold map_has. destruct (String.eqb_spec n k) as [->|Hne].
  - now rewrite assoc_set_assoc_same.
  - now rewrite assoc_set_assoc_other.
Qed.

(** A connection attempt never removes another entry from the client
    map or the registry. *)
Lemma attempt_keeps_entries w name st r st' n :
  attempt_spec w name st r st' ->
  (map_has n (clients st) = true -> map_has n (clients st') = true)
  /\ (map_has n (serverNameToTools st) = true
      -> map_has n (serverNameToTools st') = true).
Proof.
  intros (calls & _ & _ & Hres). destruct r as [[]|e].
  - destruct Hres as [(c & tools & _ & -> & _ & ->) _].
    split; apply map_has_set_assoc_mono.
  - destruct Hres as (_ & -> & [->|(c & _ & ->)]); split; auto;
      apply map_has_set_assoc_mono.
Qed.

Lemma initialize_loop_app w pre post st :
  initialize_loop w (pre ++ post)%list st
  = match initialize_loop w pre st with
    | (Return _, st1) => initialize_loop w post st1
    | (Throw e, st1) => (Throw e, st1)
    end.
Proof.
  revert st. induction pre as [|[n c] pre IH]; intros st; simpl; [reflexivity|].
  unfold bind. destruct (initializeConnection w n c st) as [[[]|e] st1]; auto.
Qed.

(** After the loop of [initializeConnections] went through [entries],
    every one of them has a client and a registry entry. *)
Lemma initialize_loop_connects_all w entries st st1 :
  initialize_loop w entries st = (Return tt, st1) ->
  (forall n, map_has n (clients st) = true -> map_has n (clients st1) = true)
  /\ (forall n, map_has n (serverNameToTools st) = true
                -> map_has n (serverNameToTools st1) = true)
  /\ (forall n, In n (map fst entries) ->
                map_has n (clients st1) = true
                /\ map_has n (serverNameToTools st1) = true).
Proof.
  revert st. induction entries as [|[name conn] rest IH]; intros st; simpl.
  - unfold ret. intros H. inversion H. subst. repeat split; auto; contradiction.
  - unfold bind. pose proof (initializeConnection_spec w name conn st) as Hspec.
    destruct (initializeConnection w name conn st) as [[[]|e] s] eqn:Hrun;
      [|discriminate].
    simpl in Hspec. intros Hrest.
    destruct (IH s Hrest) as (Hc & Ht & Hall).
    split; [|split].
    + intros n Hn. apply Hc. now apply (attempt_keeps_entries _ _ _ _ _ n Hspec).
    + intros n Hn. apply Ht. now apply (attempt_keeps_entries _ _ _ _ _ n Hspec).
    + intros n [<-|Hin]; [|now apply Hall].
      destruct Hspec as (calls & _ & _ & (c & tools & _ & Hcl & _ & Htl) & _).
      split; [apply Hc | apply Ht]; rewrite ?Hcl, ?Htl; apply map_has_set_assoc_same.
Qed.

(** Servers are initialized one after the other in configuration order;
    the first failure is raised at once, as an [MCPClientError]; the
    servers after it are not touched and those before it keep their
    client and their registry entry. *)
Lemma initialize_loop_stops_at_first_failure w pre name conn post st st1 e st2 :
  initialize_loop w pre st = (Return tt, st1) ->
  initializeConnection w name conn st1 = (Throw e, st2) ->
  initialize_loop w (pre ++ (name, conn) :: post)%list st = (Throw e, st2)
  /\ isMCPClientError e = true
  /\ (forall n, In n (map fst pre) ->
                map_has n (clients st2) = true
                /\ map_has n (serverNameToTools st2) = true).
Proof.
  intros Hpre Hfail. split; [|split].
  - rewrite initialize_loop_app, Hpre. simpl. unfold bind. now rewrite Hfail.
  - pose proof (initializeConnection_spec w name conn st1) as Hspec.
    rewrite Hfail in Hspec. simpl in Hspec.
    destruct Hspec as (_ & _ & _ & He & _). exact He.
  - intros n Hin.
    destruct (initialize_loop_connects_all w pre st st1 Hpre) as (_ & _ & Hall).
    destruct (Hall n Hin) as [Hc Ht].
    pose proof (initializeConnection_spec w name conn st1) as Hspec.
    rewrite Hfail in Hspec. simpl in Hspec.
    destruct (attempt_keeps_entries _ _ _ _ _ n Hspec) as [Hc' Ht']. auto.
Qed.

(** The error of a failed initialization carries the server's name in
    its [serverName] field on every path but one. *)
Lemma sse_failure_is_tagged w name c st e :
  fst (initializeSSEConnection w name c st) = Throw e ->
  error_serverName e = Some name.
Proof.
  unfold initializeSSEConnection, try_catch.
  destruct (bind _ _ st) as [[[]|e0] s]; simpl; [discriminate|].
  intros H. inversion H. reflexivity.
Qed.

Lemma stdio_connect_failure_is_tagged w name c st e0 :
  connect_outcome w (client_count st) (length (transports st)) = inl e0 ->
  fst (initializeStdioConnection w name c st)
  = Throw (MCPClientError
             ("Failed to connect to stdio server " ++ quoted name ++ ": "
              ++ error_text e0)
             (Some name)).
Proof.
  intros Hc.
  unfold initializeStdioConnection, new_StdioClientTransport, new_Client,
    bind, try_catch, ret, throw, gets, modify, await. simpl.
  now rewrite Hc.
Qed.

Lemma stdio_discovery_failure_is_untagged w name c st e0 :
  connect_outcome w (client_count st) (length (transports st)) = inr tt ->
  loadMcpTools_outcome w name (client_count st) = inl e0 ->
  fst (initializeStdioConnection w name c st)
  = Throw (MCPClientError
             ("Failed to load tools from server " ++ quoted name ++ ": "
              ++ error_text e0)
             None).
Proof.
  intros Hc Hl.
  unfold initializeStdioConnection, loadToolsForServer, new_StdioClientTransport,
    new_Client, setupStdioRestart, when, policy_enabled,
    bind, try_catch, ret, throw, gets, modify, await. simpl.
  rewrite Hc. simpl.
  destruct (restart c) as [p|]; simpl;
    [destruct (enabled p) as [[|]|]; simpl|]; now rewrite Hl.
Qed.

(** C5 (the code departs from the claim): three servers are configured
    in the order [docs], [fs], [search], and tool discovery fails on the
    stdio server [fs].  [initializeConnections] raises at [fs] without
    touching [search], and [docs] stays connected and registered, as
    claimed; but the [MCPClientError] raised has no [serverName].  The
    same failure on an SSE server carries the name. *)
Theorem stdio_discovery_failure_carries_no_server_name :
  let run := initializeConnections no_discovery_on_fs
               (set_connections (Some three_servers) initial_state) in
  fst run
  = Throw (MCPClientError
             ("Failed to load tools from server " ++ quoted "fs"
              ++ ": Error: tools/list failed") None)
  /\ option_map error_serverName
       (match fst run with Throw e => Some e | Return _ => None end)
     = Some None
  /\ map fst (clients (snd run)) = ["docs"; "fs"]
  /\ map fst (serverNameToTools (snd run)) = ["docs"]
  /\ map fst (trace (snd run))
     = [CallConnect 0 0; CallLoadTools "docs" 0;
        CallConnect 1 1; CallLoadTools "fs" 1]
  /\ option_map error_serverName
       (match fst (initializeConnection no_discovery_on_fs "fs"
                     (search_with enabled_only) initial_state) with
        | Throw e => Some e
        | Return _ => None
        end)
     = Some (Some "fs").
Proof.
  repeat split.
Qed.

(** *** The validator *)

Lemma process_policy_error field name v e :
  process_policy field name v = inl e -> isMCPClientError e = true.
Proof.
  unfold process_policy, bindE, throw_if, config_error.
  repeat match goal with
         | |- context [if ?c then _ else _] => destruct c
         end; intros H; inversion H; reflexivity.
Qed.

Lemma processStdioConfig_error name config e :
  processStdioConfig name config = inl e -> isMCPClientError e = true.
Proof.
  unfold processStdioConfig, bindE, throw_if, config_error.
  repeat match goal with
         | |- context [if ?c then inl _ else _] => destruct c
         end; try (intros H; inversion H; reflexivity).
  destruct (process_policy _ _ _) eqn:Hp; intros H; inversion H; subst.
  eapply process_policy_error; eauto.
Qed.

Lemma processSSEConfig_error URLp name config e :
  processSSEConfig URLp name config = inl e -> isMCPClientError e = true.
Proof.
  unfold processSSEConfig, check_url, rethrow_as, bindE, throw_if, config_error.
  repeat match goal with
         | |- context [if ?c then inl _ else _] => destruct c
         | |- context [match URLp ?u with _ => _ end] => destruct (URLp u)
         end; try (intros H; inversion H; reflexivity).
  all: destruct (process_policy _ _ _) eqn:Hp; intros H; inversion H; subst;
    eapply process_policy_error; eauto.
Qed.

(** The URL check of [processSSEConfig] rejects a URL that does not
    parse, and one whose protocol does not start with ["http"]. *)
Lemma processSSEConfig_rejects_url URLp name config u :
  get config "url" = Str u ->
  (URLp u = None
   \/ exists protocol, URLp u = Some protocol /\ startsWith protocol "http" = false) ->
  exists message, processSSEConfig URLp name config = inl (MCPClientError message None).
Proof.
  intros Hu Hbad.
  unfold processSSEConfig, check_url, rethrow_as, bindE, throw_if, config_error.
  rewrite Hu. simpl.
  destruct (u =? ""); simpl; [eexists; reflexivity|].
  destruct Hbad as [->|(p & -> & ->)]; simpl; eexists; reflexivity.
Qed.

(** [processConnections] fails with an [MCPClientError] as soon as one
    of the descriptors is an SSE descriptor with such a URL: nothing is
    returned to be stored as the validated connections. *)
Lemma processConnections_loop_rejects_url URLp name config u entries processed :
  In (name, config) entries ->
  get config "transport" = Str "sse" ->
  get config "url" = Str u ->
  (URLp u = None
   \/ exists protocol, URLp u = Some protocol /\ startsWith protocol "http" = false) ->
  exists e, fst (processConnections_loop URLp entries processed) = inl e
            /\ isMCPClientError e = true.
Proof.
  intros Hin Htr Hu Hbad. revert processed.
  induction entries as [|[n c] rest IH]; intros processed; [contradiction|].
  simpl. destruct Hin as [Heq|Hin].
  - inversion Heq; subst n c. clear Heq.
    assert (Hobj : typeof config = "object" /\ is_null config = false
                   /\ has "transport" config = true /\ has "url" config = true).
    { unfold get, has in *. destruct config; try discriminate;
        simpl in *;
        try (rewrite array_has_no_key in Htr by reflexivity; discriminate);
        (destruct (assoc "transport" _); [|discriminate]);
        (destruct (assoc "url" _); [|discriminate]); auto. }
    destruct Hobj as (Hty & Hnull & Hht & Hhu).
    rewrite Hty, Hnull. simpl.
    assert (isStdioConnection config = false) as ->.
    { unfold isStdioConnection. rewrite Hty, Hnull, Hht, Htr. reflexivity. }
    assert (isSSEConnection config = true) as ->.
    { unfold isSSEConnection. rewrite Hty, Hnull, Hht, Htr, Hhu, Hu. reflexivity. }
    destruct (processSSEConfig_rejects_url URLp name config u Hu Hbad) as [msg ->].
    eexists. split; reflexivity.
  - specialize (IH Hin).
    destruct (negb (typeof c =? "object") || is_null c).
    + destruct (IH processed) as (e & He & HM).
      destruct (processConnections_loop URLp rest processed) as [r log].
      simpl in *. eauto.
    + destruct (isStdioConnection c).
      * destruct (processStdioConfig n c) eqn:Hp; [|apply IH].
        eexists. split; [reflexivity|]. eapply processStdioConfig_error; eauto.
      * destruct (isSSEConnection c).
        -- destruct (processSSEConfig URLp n c) eqn:Hp; [|apply IH].
           eexists. split; [reflexivity|]. eapply processSSEConfig_error; eauto.
        -- eexists. split; reflexivity.
Qed.

(** [addConnections] with such a descriptor throws and leaves the
    client as it was. *)
Lemma addConnections_rejects_url w name config u fields st :
  In (name, config) fields ->
  get config "transport" = Str "sse" ->
  get config "url" = Str u ->
  (URL_protocol w u = None
   \/ exists protocol, URL_protocol w u = Some protocol
                       /\ startsWith protocol "http" = false) ->
  exists e, addConnections w (Obj fields) st = (Throw e, st)
            /\ isMCPClientError e = true.
Proof.
  intros Hin Htr Hu Hbad.
  destruct (processConnections_loop_rejects_url (URL_protocol w) name config u
              fields [] Hin Htr Hu Hbad) as (e & He & HM).
  unfold addConnections, processConnections. simpl.
  rewrite He. exists e. split; [reflexivity|exact HM].
Qed.

(** C7 (the code departs from the claim): the scheme check of
    [processSSEConfig] is [url.protocol.startsWith("http")].  It rejects
    [ftp://host], but a URL such as [httpx://host], whose scheme is
    neither [http] nor [https], passes validation and is returned among
    the validated connections. *)
Theorem sse_url_scheme_check_is_a_prefix_test :
  scheme_protocol "httpx://host" = Some "httpx:"
  /\ processConnections scheme_protocol
       (Obj [("s", Obj [("transport", Str "sse"); ("url", Str "httpx://host")])])
     = (inr [("s", SSE (mkSSE "httpx://host" None None None))], [])
  /\ scheme_protocol "ftp://host" = Some "ftp:"
  /\ processConnections scheme_protocol
       (Obj [("s", Obj [("transport", Str "sse"); ("url", Str "ftp://host")])])
     = (inl (MCPClientError
               ("Invalid url for server " ++ dq ++ "s - must be a valid URL") None),
        []).
Proof.
  split; [reflexivity|]. split; [reflexivity|]. split; reflexivity.
Qed.

(** *** Environment-variable interpolation *)

Section InterpolationProperties.

Variable process_env : string -> option string.

Lemma recur_entry_string self is_env s :
  recur_entry process_env self is_env (Str s) = Str (interpolated process_env s).
Proof.
  unfold recur_entry, interpolated, env_value.
  destruct (is_placeholder s); [|reflexivity].
  destruct (process_env (slice_2_m1 s)) as [v|]; simpl; [|reflexivity].
  destruct (v =? ""); reflexivity.
Qed.

Lemma env_entry_string name s :
  env_entry process_env name (Str s)
  = (Str (interpolated process_env s),
     if is_placeholder s && unset process_env (slice_2_m1 s)
     then [warning name s] else []).
Proof.
  unfold env_entry, interpolated, env_value, unset, warning.
  destruct (is_placeholder s); [|reflexivity].
  destruct (process_env (slice_2_m1 s)) as [v|]; simpl; [|reflexivity].
  destruct (v =? ""); reflexivity.
Qed.

Lemma assoc_map_entries {A B : Type} (f : string -> A -> B) k (l : list (string * A)) :
  assoc k (map (fun kv => (fst kv, f (fst kv) (snd kv))) l)
  = option_map (f k) (assoc k l).
Proof.
  induction l as [|[k' x] l IH]; simpl; [reflexivity|].
  destruct (String.eqb_spec k' k) as [->|]; [reflexivity|exact IH].
Qed.

Lemma assoc_indexed_map (g : value -> value) k i (l : list value) :
  assoc k (indexed_from i (map g l)) = option_map g (assoc k (indexed_from i l)).
Proof.
  revert i. induction l as [|x l IH]; intros i; simpl; [reflexivity|].
  destruct (index_key i =? k); [reflexivity|apply IH].
Qed.

Lemma assoc_In {A : Type} k (x : A) (l : list (string * A)) :
  assoc k l = Some x -> In (k, x) l.
Proof.
  induction l as [|[k' y] l IH]; simpl; [discriminate|].
  destruct (String.eqb_spec k' k) as [->|].
  - intros H. inversion H. now left.
  - intros H. right. now apply IH.
Qed.

(** [processEnvVarsRecursively] replaces every string it reaches
    without entering an object stored under the key ["env"]. *)
Lemma processEnvVarsRecursively_path path :
  forall v s,
    path <> [] ->
    ~ In "env" (removelast path) ->
    lookup_path v path = Some (Str s) ->
    lookup_path (processEnvVarsRecursively process_env v) path
    = Some (Str (interpolated process_env s)).
Proof.
  induction path as [|k rest IH]; intros v s Hne Henv Hlook; [congruence|].
  assert (Hchild : forall x is_env,
             lookup_path x rest = Some (Str s) ->
             (rest <> [] -> is_env = false) ->
             lookup_path
               (recur_entry process_env (processEnvVarsRecursively process_env) is_env x)
               rest
             = Some (Str (interpolated process_env s))).
  { intros x is_env Hx Hkey. destruct rest as [|k' rest'].
    - simpl in Hx. inversion Hx. now rewrite recur_entry_string.
    - rewrite (Hkey ltac:(discriminate)).
      assert (Hrest : ~ In "env" (removelast (k' :: rest'))).
      { intros Hin. apply Henv. change (removelast (k :: k' :: rest'))
          with (k :: removelast (k' :: rest')). now right. }
      destruct x; try (simpl in Hx; discriminate).
      + exact (IH (Arr items) s ltac:(discriminate) Hrest Hx).
      + exact (IH (Obj fields) s ltac:(discriminate) Hrest Hx). }
  assert (Hk : rest <> [] -> (k =? "env") = false).
  { intros Hr. apply String.eqb_neq. intros ->. apply Henv.
    destruct rest; [congruence|]. now left. }
  destruct v; simpl in Hlook; try discriminate.
  - (* an array *)
    simpl. rewrite assoc_indexed_map.
    destruct (assoc k (indexed_from 0 items)) as [x|]; [|discriminate].
    simpl. apply Hchild; auto.
  - (* an object *)
    simpl.
    rewrite (assoc_map_entries
               (fun key x =>
                  recur_entry process_env (processEnvVarsRecursively process_env)
                              (key =? "env") x)).
    destruct (assoc k fields) as [x|]; [|discriminate].
    simpl. apply Hchild; auto.
Qed.

(** The first pass of [processEnvVarsInConfig] only rewrites the
    entries of an [env] object. *)
Lemma env_pass_keeps_paths d envObj' path s :
  path <> [] ->
  ~ In "env" (removelast path) ->
  lookup_path d path = Some (Str s) ->
  typeof (get d "env") = "object" ->
  lookup_path (set d "env" envObj') path = Some (Str s).
Proof.
  intros Hne Henv Hlook Hobj. unfold get in Hobj.
  destruct path as [|k rest]; [congruence|].
  destruct d; simpl in *; try exact Hlook.
  destruct (String.eqb_spec k "env") as [->|Hk].
  - destruct rest as [|k' rest'].
    + destruct (assoc "env" fields) as [x|]; [|discriminate].
      inversion Hlook; subst x. discriminate.
    + exfalso. apply Henv. now left.
  - now rewrite assoc_obj_set_other.
Qed.

(** What [processEnvVarsInConfig] does to one descriptor. *)
Lemma process_server_spec name d :
  (forall path s,
      path <> [] ->
      ~ In "env" (removelast path) ->
      lookup_path d path = Some (Str s) ->
      lookup_path (fst (process_server process_env name d)) path
      = Some (Str (interpolated process_env s)))
  /\ (forall entries k s,
         get d "env" = Obj entries ->
         assoc k entries = Some (Str s) ->
         lookup_path (fst (process_server process_env name d)) ["env"; k]
         = Some (Str (interpolated process_env s))
         /\ (is_placeholder s = true ->
             unset process_env (slice_2_m1 s) = true ->
             In (warning name s) (snd (process_server process_env name d)))).
Proof.
  split.
  - intros path s Hne Henv Hlook.
    assert (Hd : typeof d = "object" /\ is_null d = false).
    { destruct path; [congruence|]. destruct d; simpl in Hlook; try discriminate; auto. }
    destruct Hd as [Hty Hnull].
    unfold process_server. rewrite Hty, Hnull. simpl.
    destruct (truthy (get d "env") && (typeof (get d "env") =? "object")) eqn:Hpass.
    + apply andb_prop in Hpass. destruct Hpass as [_ Hobj].
      apply String.eqb_eq in Hobj.
      destruct (process_env_object process_env name (get d "env")) as [e' log].
      simpl. apply processEnvVarsRecursively_path; auto.
      now apply env_pass_keeps_paths.
    + simpl. now apply processEnvVarsRecursively_path.
  - intros entries k s Henvobj Hk.
    assert (Hd : exists fields, d = Obj fields).
    { unfold get in Henvobj.
      destruct d; simpl in Henvobj; try discriminate; [| |eauto];
        now rewrite array_has_no_key in Henvobj. }
    destruct Hd as [fields ->].
    unfold process_server. rewrite Henvobj. simpl.
    rewrite (assoc_map_entries
               (fun key x =>
                  recur_entry process_env (processEnvVarsRecursively process_env)
                              (key =? "env") x)).
    rewrite assoc_obj_set_same. simpl.
    rewrite (assoc_map_entries (fun _ x => fst (env_entry process_env name x))).
    rewrite Hk. cbv [option_map]. rewrite env_entry_string.
    split; [reflexivity|].
    intros Hp Hu. apply in_flat_map. exists (k, Str s).
    split; [now apply assoc_In|].
    cbv [snd]. rewrite env_entry_string. cbv [snd]. rewrite Hp, Hu. now left.
Qed.

End InterpolationProperties.

(** C2, as the claim states it, fails.  The file below configures
    [fs] without a [transport] field, the SSE server [search], and [git]
    with [transport: "stdio"]; [API_KEY] and [TOKEN] are set, [GIT_BIN]
    is not.  The file loads and validates, but the placeholders of [fs]
    and of [search] are not replaced although their variables are set,
    and no warning is written for the placeholder in the command of
    [git]. *)
Lemma placeholders_left_in_validated_config :
  example_env "API_KEY" = Some "secret"
  /\ example_env "TOKEN" = Some "t0k3n"
  /\ example_env "GIT_BIN" = None
  /\ load_and_process scheme_protocol example_env "mcp.json" example_file
     = (inr [("fs",
              Stdio (mkStdio "node" ["fs-server.js"]
                             (Some [("API_KEY", "${API_KEY}")]) None None None));
             ("search",
              SSE (mkSSE "https://api.example.com/mcp"
                         (Some [("Authorization", "${TOKEN}")]) None None));
             ("git",
              Stdio (mkStdio "${GIT_BIN}" [] (Some [("HOME", "secret")])
                             None None None))],
        []).
Proof.
  repeat split.
Qed.

(** C2 (amended): interpolation is applied to the descriptors of a
    configuration file whose [transport] field is the string ["stdio"];
    an SSE descriptor is returned as it was read.  In a descriptor with
    [transport: "stdio"], a string that starts with [${] and ends with
    [}] is replaced by the value of the variable named in between when
    that value is a non-empty string, and is left as it is otherwise;
    this holds for the entries of the descriptor's [env] object, where
    a placeholder that is not replaced writes a warning, and for every
    other string reached without entering an object stored under a key
    [env].  Whether the file loads does not depend on the
    environment. *)
Theorem interpolation_of_file_descriptors process_env configPath config servers :
  get config "servers" = Obj servers ->
  loaded (loadConfigFromFile process_env configPath config) = true ->
  (forall other_env, loaded (loadConfigFromFile other_env configPath config) = true)
  /\ exists config' servers' log,
      loadConfigFromFile process_env configPath config = (inr config', log)
      /\ get config' "servers" = Obj servers'
      /\ map fst servers' = map fst servers
      /\ forall name d,
          assoc name servers = Some d ->
          exists d',
            assoc name servers' = Some d'
            /\ (is_str (get d "transport") "sse" = true -> d' = d)
            /\ (transport_is_stdio d = true ->
                (forall entries k s,
                    get d "env" = Obj entries ->
                    assoc k entries = Some (Str s) ->
                    lookup_path d' ["env"; k]
                    = Some (Str (interpolated process_env s))
                    /\ (is_placeholder s = true ->
                        unset process_env (slice_2_m1 s) = true ->
                        In (warning name s) log))
                /\ (forall path s,
                       path <> [] ->
                       ~ In "env" (removelast path) ->
                       lookup_path d path = Some (Str s) ->
                       lookup_path d' path
                       = Some (Str (interpolated process_env s)))).
Proof.
  intros Hservers Hloaded.
  assert (Hobj : exists fields, config = Obj fields).
  { unfold get in Hservers.
    destruct config; simpl in Hservers; try discriminate; [| |eauto];
      now rewrite array_has_no_key in Hservers. }
  destruct Hobj as [fields ->].
  assert (Hhas : has "servers" (Obj fields) = true).
  { unfold has, get in *. simpl in *. destruct (assoc "servers" fields); [reflexivity|discriminate]. }
  assert (Hrun : forall env,
             loadConfigFromFile env configPath (Obj fields)
             = if existsb (fun kv => is_null (snd kv) || is_undefined (snd kv)) servers
               then (inl (TypeError "Cannot read properties of null (reading 'transport')"), [])
               else (inr (set (Obj fields) "servers"
                              (fst (interpolate_servers env (Obj servers)))),
                     snd (interpolate_servers env (Obj servers)))).
  { intros env. unfold loadConfigFromFile. rewrite Hhas, Hservers. simpl.
    destruct (existsb _ servers); reflexivity. }
  assert (Hok : existsb (fun kv => is_null (snd kv) || is_undefined (snd kv)) servers
                = false).
  { unfold loaded in Hloaded. rewrite Hrun in Hloaded.
    destruct (existsb _ servers); [discriminate|reflexivity]. }
  split.
  - intros env. unfold loaded. rewrite Hrun, Hok. reflexivity.
  - rewrite Hrun, Hok.
    eexists. eexists. eexists. split; [reflexivity|].
    split; [unfold get; simpl; rewrite assoc_obj_set_same; reflexivity|].
    split; [rewrite map_map; reflexivity|].
    intros name d Hd.
    rewrite (assoc_map_entries
               (fun k v => if transport_is_stdio v
                           then fst (process_server process_env k v) else v)).
    rewrite Hd. simpl.
    destruct (transport_is_stdio d) eqn:Hstdio.
    + eexists. split; [reflexivity|]. split.
      { intros Hsse. exfalso. unfold transport_is_stdio in Hstdio.
        destruct (get d "transport"); try discriminate. simpl in *.
        apply String.eqb_eq in Hstdio, Hsse. congruence. }
      intros _.
      destruct (process_server_spec process_env name d) as [Hpaths Henv].
      split; [|exact Hpaths].
      intros entries k s He Hk. destruct (Henv entries k s He Hk) as [Hval Hwarn].
      split; [exact Hval|].
      intros Hp Hu. apply in_flat_map. exists (name, d). split.
      * apply filter_In. split; [now apply assoc_In|exact Hstdio].
      * simpl. now apply Hwarn.
    + eexists. split; [reflexivity|]. split; [reflexivity|discriminate].
Qed.

Lemma interpolation_of_file_descriptors_witness :
  get example_file "servers" = Obj example_servers
  /\ loaded (loadConfigFromFile example_env "mcp.json" example_file) = true
  /\ loaded (loadConfigFromFile (fun _ => None) "mcp.json" example_file) = true.
Proof.
  split; [reflexivity|]. split; [reflexivity|].
  destruct (interpolation_of_file_descriptors example_env "mcp.json" example_file
              example_servers eq_refl eq_refl) as [Hany _].
  exact (Hany (fun _ => None)).
Defined.

(** *** Instances of the supporting properties *)

Lemma initialize_loop_stops_at_first_failure_witness :
  initialize_loop no_discovery_on_fs
    ([("docs", Stdio (mkStdio "node" ["docs-server.js"] None None None None))]
     ++ ("fs", fs_with enabled_only) :: [("search", search_with enabled_only)])%list
    initial_state
  = (Throw (MCPClientError
              ("Failed to load tools from server " ++ quoted "fs"
               ++ ": Error: tools/list failed") None),
     snd (initializeConnection no_discovery_on_fs "fs" (fs_with enabled_only)
            (snd (initialize_loop no_discovery_on_fs
                    [("docs", Stdio (mkStdio "node" ["docs-server.js"]
                                             None None None None))]
                    initial_state)))).
Proof.
  exact (proj1 (initialize_loop_stops_at_first_failure no_discovery_on_fs
                  [("docs", Stdio (mkStdio "node" ["docs-server.js"] None None None None))]
                  "fs" (fs_with enabled_only) [("search", search_with enabled_only)]
                  initial_state _ _ _ eq_refl eq_refl)).
Defined.

Lemma addConnections_rejects_url_witness :
  exists e,
    addConnections scenario_world
      (Obj [("files", Obj [("transport", Str "sse"); ("url", Str "ftp://host")])])
      two_servers
    = (Throw e, two_servers)
    /\ isMCPClientError e = true.
Proof.
  apply (addConnections_rejects_url scenario_world "files"
           (Obj [("transport", Str "sse"); ("url", Str "ftp://host")]) "ftp://host").
  - now left.
  - reflexivity.
  - reflexivity.
  - right. exists "ftp:". split; reflexivity.
Defined.

Lemma reconnect_loop_unlimited_witness :
  reconnect_loop refusing_world 1000 "fs" (fs_with enabled_only) None 0%Z false 0%Z
                 two_servers
  = None.
Proof.
  apply reconnect_loop_unlimited.
  intros c t. eexists. reflexivity.
Defined.

Lemma restart_handler_returns_witness :
  exists st',
    restart_handler scenario_world 3 0
      (mkHook "fs" (fs_with enabled_only) enabled_only) two_servers
    = Some (Return tt, st').
Proof.
  apply restart_handler_returns; [reflexivity|simpl; lia].
Defined.

(* ================================================================= *)
(** ** Further properties of the validator *)

Lemma bindE_throw_if {A : Type} c e (k : unit -> thrown + A) x :
  bindE (throw_if c e) k = inr x -> c = false /\ k tt = inr x.
Proof. destruct c; simpl; [discriminate|auto]. Qed.

Lemma bindE_inr {A B : Type} (m : thrown + A) (k : A -> thrown + B) x :
  bindE m k = inr x -> exists a, m = inr a /\ k a = inr x.
Proof. destruct m; simpl; [discriminate|eauto]. Qed.

(** What an accepted policy looks like. *)
Lemma process_policy_accepts field name v r :
  process_policy field name v = inr r ->
  ill_typed_policy v = false
  /\ r = if truthy v
         then Some {| enabled := Some (truthy (get v "enabled"));
                      maxAttempts := number_of (get v "maxAttempts");
                      delayMs := number_of (get v "delayMs") |}
         else None.
Proof.
  unfold process_policy, ill_typed_policy. intros H.
  apply bindE_throw_if in H. destruct H as [H0 H].
  destruct (truthy v) eqn:Ht; simpl in *.
  - apply negb_false_iff in H0. rewrite H0 in *. simpl in *.
    apply bindE_throw_if in H. destruct H as [H1 H].
    apply bindE_throw_if in H. destruct H as [H2 H].
    apply bindE_throw_if in H. destruct H as [H3 H].
    rewrite H1, H2, H3. split; [reflexivity|]. now inversion H.
  - split; [reflexivity|]. now inversion H.
Qed.

(** What [processStdioConfig] checked when it returns. *)
Lemma processStdioConfig_accepts name config c :
  processStdioConfig name config = inr c ->
  truthy (get config "command") = true
  /\ typeof (get config "command") = "string"
  /\ ill_typed_stdio config = false
  /\ command c = string_of (get config "command")
  /\ args c = map string_of (Object_values (get config "args"))
  /\ env c = (if truthy (get config "env")
              then Some (string_record (get config "env")) else None)
  /\ encoding c = (if typeof (get config "encoding") =? "string"
                   then Some (string_of (get config "encoding")) else None)
  /\ encodingErrorHandler c
     = (if is_error_handler (get config "encodingErrorHandler")
        then Some (string_of (get config "encodingErrorHandler")) else None)
  /\ process_policy "restart" name (get config "restart") = inr (restart c).
Proof.
  unfold processStdioConfig, ill_typed_stdio. intros H.
  apply bindE_throw_if in H. destruct H as [H0 H].
  apply bindE_throw_if in H. destruct H as [H1 H].
  apply bindE_throw_if in H. destruct H as [H2 H].
  apply bindE_throw_if in H. destruct H as [H3 H].
  apply bindE_throw_if in H. destruct H as [H4 H].
  apply bindE_throw_if in H. destruct H as [H5 H].
  apply bindE_throw_if in H. destruct H as [H6 H].
  apply bindE_throw_if in H. destruct H as [H7 H].
  apply bindE_inr in H. destruct H as (policy & Hp & H).
  inversion H; subst c; clear H. simpl.
  destruct (process_policy_accepts _ _ _ _ Hp) as [Hpol _].
  apply orb_false_iff in H0. destruct H0 as [Hc1 Hc2].
  apply negb_false_iff in Hc1, Hc2. apply String.eqb_eq in Hc2.
  rewrite Hpol, H6, H7.
  destruct (is_undefined (get config "args")) eqn:Ha; simpl in *.
  - destruct (truthy (get config "env")) eqn:He; simpl in *.
    + destruct (typeof (get config "env") =? "object") eqn:Ho; simpl in *;
        [|discriminate].
      rewrite H4, H5. repeat split; auto.
    + repeat split; auto.
  - apply negb_false_iff in H1, H2. rewrite H1, H2. simpl.
    destruct (truthy (get config "env")) eqn:He; simpl in *.
    + destruct (typeof (get config "env") =? "object") eqn:Ho; simpl in *;
        [|discriminate].
      rewrite H4, H5. repeat split; auto.
    + repeat split; auto.
Qed.

(** What [processSSEConfig] checked when it returns. *)
Lemma processSSEConfig_accepts URLp name config c :
  processSSEConfig URLp name config = inr c ->
  truthy (get config "url") = true
  /\ typeof (get config "url") = "string"
  /\ (exists protocol,
         URLp (string_of (get config "url")) = Some protocol
         /\ startsWith protocol "http" = true)
  /\ is_str (get config "transport") "sse" = true
  /\ ill_typed_sse config = false
  /\ url c = string_of (get config "url")
  /\ headers c = (if truthy (get config "headers")
                  then Some (string_record (get config "headers")) else None)
  /\ useNodeEventSource c = bool_of (get config "useNodeEventSource")
  /\ process_policy "reconnect" name (get config "reconnect") = inr (reconnect c).
Proof.
  unfold processSSEConfig, ill_typed_sse. intros H.
  apply bindE_throw_if in H. destruct H as [H0 H].
  apply bindE_inr in H. destruct H as ([] & Hurl & H).
  apply bindE_throw_if in H. destruct H as [H1 H].
  apply bindE_throw_if in H. destruct H as [H2 H].
  apply bindE_throw_if in H. destruct H as [H3 H].
  apply bindE_throw_if in H. destruct H as [H4 H].
  apply bindE_throw_if in H. destruct H as [H5 H].
  apply bindE_inr in H. destruct H as (policy & Hp & H).
  inversion H; subst c; clear H. simpl.
  destruct (process_policy_accepts _ _ _ _ Hp) as [Hpol _].
  apply orb_false_iff in H0. destruct H0 as [Hc1 Hc2].
  apply negb_false_iff in Hc1, Hc2. apply String.eqb_eq in Hc2.
  apply orb_false_iff in H1. destruct H1 as [_ Ht]. apply negb_false_iff in Ht.
  rewrite Hpol, H5.
  split; [exact Hc1|]. split; [exact Hc2|]. split.
  { unfold check_url, rethrow_as, throw_if in Hurl.
    destruct (URLp (string_of (get config "url"))) as [p|]; [|discriminate].
    exists p. split; [reflexivity|].
    destruct (startsWith p "http"); [reflexivity|discriminate]. }
  split; [exact Ht|].
  destruct (truthy (get config "headers")) eqn:He; simpl in *.
  - destruct (typeof (get config "headers") =? "object") eqn:Ho; simpl in *;
      [|discriminate].
    rewrite H3, H4. repeat split; auto.
  - repeat split; auto.
Qed.

Lemma process_policy_complete field name v :
  ill_typed_policy v = false ->
  exists r, process_policy field name v = inr r.
Proof.
  unfold process_policy, ill_typed_policy, bindE, throw_if. intros H.
  destruct (truthy v); simpl in *; [|eauto].
  apply orb_false_iff in H. destruct H as [H H3].
  apply orb_false_iff in H. destruct H as [H H2].
  apply orb_false_iff in H. destruct H as [H0 H1].
  apply negb_false_iff in H0. rewrite H0, H1, H2, H3. simpl. eauto.
Qed.

(** [processStdioConfig] accepts a descriptor exactly when its command
    is a non-empty string and none of its optional fields is ill
    typed. *)
Theorem stdio_descriptor_accepted_iff name config :
  (exists c, processStdioConfig name config = inr c)
  <-> truthy (get config "command") = true
      /\ typeof (get config "command") = "string"
      /\ ill_typed_stdio config = false.
Proof.
  split.
  - intros [c H]. apply processStdioConfig_accepts in H. tauto.
  - intros (Hc1 & Hc2 & Hill).
    unfold ill_typed_stdio in Hill.
    apply orb_false_iff in Hill. destruct Hill as [Hill Hpol].
    apply orb_false_iff in Hill. destruct Hill as [Hill Hhandler].
    apply orb_false_iff in Hill. destruct Hill as [Hill Henc].
    apply orb_false_iff in Hill. destruct Hill as [Hargs Henv].
    destruct (process_policy_complete "restart" name (get config "restart") Hpol)
      as [r Hr].
    unfold processStdioConfig, bindE, throw_if.
    rewrite Hc1, Hc2, Henc, Hhandler, Hr. simpl.
    assert (Ha : negb (is_undefined (get config "args"))
                 && negb (isArray (get config "args")) = false
                 /\ negb (is_undefined (get config "args"))
                    && negb (forallb isString (Object_values (get config "args")))
                    = false).
    { destruct (is_undefined (get config "args")); simpl in *; [auto|].
      apply negb_false_iff, andb_true_iff in Hargs. destruct Hargs as [-> ->]. auto. }
    destruct Ha as [-> ->].
    assert (He : truthy (get config "env")
                 && negb (typeof (get config "env") =? "object") = false
                 /\ truthy (get config "env") && (typeof (get config "env") =? "object")
                    && isArray (get config "env") = false
                 /\ truthy (get config "env") && (typeof (get config "env") =? "object")
                    && negb (forallb isString (Object_values (get config "env")))
                    = false).
    { destruct (truthy (get config "env")); simpl in *; [|auto].
      apply orb_false_iff in Henv. destruct Henv as [Henv H3].
      apply orb_false_iff in Henv. destruct Henv as [H1 H2].
      rewrite H1, H2, H3. apply negb_false_iff in H1. rewrite H1. auto. }
    destruct He as (-> & -> & ->).
    eexists. reflexivity.
Qed.

(** [processSSEConfig] accepts a descriptor exactly when its url is a
    non-empty string that parses with a protocol starting with
    ["http"], its transport is ["sse"], and none of its optional fields
    is ill typed. *)
Theorem sse_descriptor_accepted_iff URLp name config :
  (exists c, processSSEConfig URLp name config = inr c)
  <-> truthy (get config "url") = true
      /\ typeof (get config "url") = "string"
      /\ (exists protocol,
             URLp (string_of (get config "url")) = Some protocol
             /\ startsWith protocol "http" = true)
      /\ is_str (get config "transport") "sse" = true
      /\ ill_typed_sse config = false.
Proof.
  split.
  - intros [c H]. apply processSSEConfig_accepts in H. tauto.
  - intros (Hc1 & Hc2 & (p & Hp & Hhttp) & Htr & Hill).
    unfold ill_typed_sse in Hill.
    apply orb_false_iff in Hill. destruct Hill as [Hill Hpol].
    apply orb_false_iff in Hill. destruct Hill as [Hhd Hnes].
    destruct (process_policy_complete "reconnect" name (get config "reconnect") Hpol)
      as [r Hr].
    assert (Htruthy : truthy (get config "transport") = true).
    { destruct (get config "transport"); try discriminate. simpl in *.
      apply String.eqb_eq in Htr. now subst. }
    unfold processSSEConfig, check_url, rethrow_as, bindE, throw_if.
    rewrite Hc1, Hc2, Hp, Hhttp, Htr, Htruthy, Hnes, Hr. simpl.
    assert (He : truthy (get config "headers")
                 && negb (typeof (get config "headers") =? "object") = false
                 /\ truthy (get config "headers")
                    && (typeof (get config "headers") =? "object")
                    && isArray (get config "headers") = false
                 /\ truthy (get config "headers")
                    && (typeof (get config "headers") =? "object")
                    && negb (forallb isString (Object_values (get config "headers")))
                    = false).
    { destruct (truthy (get config "headers")); simpl in *; [|auto].
      apply orb_false_iff in Hhd. destruct Hhd as [Hhd H3].
      apply orb_false_iff in Hhd. destruct Hhd as [H1 H2].
      rewrite H1, H2, H3. apply negb_false_iff in H1. rewrite H1. auto. }
    destruct He as (-> & -> & ->).
    eexists. reflexivity.
Qed.

Lemma map_Str_string_of (items : list value) :
  forallb isString items = true -> map Str (map string_of items) = items.
Proof.
  induction items as [|x l IH]; simpl; [reflexivity|].
  intros H. apply andb_true_iff in H. destruct H as [Hx Hl].
  destruct x; try discriminate. simpl. now rewrite IH.
Qed.

(** A validated stdio descriptor carries the command of the raw one,
    which is not empty, and its arguments: the empty list when [args]
    is missing, the strings of the array otherwise; the transport
    discriminator is ["stdio"] whether or not the raw descriptor had
    one. *)
Theorem validated_stdio_fields name config c :
  processStdioConfig name config = inr c ->
  get config "command" = Str (command c)
  /\ command c <> ""
  /\ (get config "args" = Undefined -> args c = [])
  /\ (forall items, get config "args" = Arr items -> map Str (args c) = items)
  /\ transport (Stdio c) = "stdio".
Proof.
  intros H. apply processStdioConfig_accepts in H.
  destruct H as (Ht & Hty & Hill & Hc & Ha & _).
  assert (Hcmd : get config "command" = Str (command c) /\ command c <> "").
  { rewrite Hc. destruct (get config "command"); try discriminate. simpl in *.
    split; [reflexivity|]. intros ->. discriminate. }
  destruct Hcmd as [Hcmd Hne].
  repeat split; auto.
  - intros Hu. rewrite Ha, Hu. reflexivity.
  - intros items Hi. rewrite Ha, Hi. unfold Object_values. simpl.
    unfold ill_typed_stdio in Hill. rewrite Hi in Hill. simpl in Hill.
    apply orb_false_iff in Hill. destruct Hill as [Hill _].
    apply orb_false_iff in Hill. destruct Hill as [Hill _].
    apply orb_false_iff in Hill. destruct Hill as [Hill _].
    apply orb_false_iff in Hill. destruct Hill as [Hill _].
    apply negb_false_iff in Hill. unfold Object_values in Hill. simpl in Hill.
    assert (Hvals : forall i l, map snd (indexed_from i l) = l).
    { intros i l. revert i. induction l as [|x l IHl]; intros i; simpl;
        [reflexivity|now rewrite IHl]. }
    rewrite Hvals in *. now apply map_Str_string_of.
Qed.

Lemma validated_stdio_fields_witness :
  processStdioConfig "fs" (Obj [("command", Str "node")])
  = inr (mkStdio "node" [] None None None None)
  /\ args (mkStdio "node" [] None None None None) = [].
Proof.
  split; [reflexivity|].
  exact (proj1 (proj2 (proj2
           (validated_stdio_fields "fs" (Obj [("command", Str "node")])
              (mkStdio "node" [] None None None None) eq_refl))) eq_refl).
Defined.

(** A policy block that the validator accepts always comes out with an
    explicit [enabled], true exactly when the raw block says [true];
    it is dropped only when the raw field is falsy. *)
Theorem validated_policy_has_enabled field name raw r :
  process_policy field name raw = inr r ->
  match r with
  | Some p =>
      truthy raw = true
      /\ exists b, enabled p = Some b
                   /\ (b = true <-> get raw "enabled" = Bool true)
                   /\ (get raw "enabled" = Undefined -> b = false)
  | None => truthy raw = false
  end.
Proof.
  intros H. apply process_policy_accepts in H. destruct H as [Hill ->].
  unfold ill_typed_policy in Hill.
  destruct (truthy raw) eqn:Ht; [|reflexivity].
  split; [reflexivity|]. simpl in Hill.
  apply orb_false_iff in Hill. destruct Hill as [Hill _].
  apply orb_false_iff in Hill. destruct Hill as [Hill _].
  apply orb_false_iff in Hill. destruct Hill as [_ Hen].
  exists (truthy (get raw "enabled")). split; [reflexivity|].
  destruct (get raw "enabled") as [| |b| | | |]; simpl in *; try discriminate.
  - split; [split; discriminate|reflexivity].
  - split; [|discriminate]. split; [now intros ->|]. intros H. now inversion H.
Qed.

Lemma validated_policy_has_enabled_witness :
  process_policy "restart" "fs" (Obj [("maxAttempts", Num 2)])
  = inr (Some (mkPolicy (Some false) (Some 2%Z) None))
  /\ truthy (Obj [("maxAttempts", Num 2)]) = true.
Proof.
  split; [reflexivity|].
  exact (proj1 (validated_policy_has_enabled "restart" "fs"
                  (Obj [("maxAttempts", Num 2)])
                  (Some (mkPolicy (Some false) (Some 2%Z) None)) eq_refl)).
Defined.

(** [processConnections] fails, with an [MCPClientError], as soon as
    one descriptor is refused. *)
Lemma processConnections_loop_fails_on URLp name config entries processed :
  In (name, config) entries ->
  rejects URLp name config = true ->
  exists e, fst (processConnections_loop URLp entries processed) = inl e
            /\ isMCPClientError e = true.
Proof.
  intros Hin Hrej. revert processed.
  induction entries as [|[n c] rest IH]; intros processed; [contradiction|].
  simpl. destruct Hin as [Heq|Hin].
  - inversion Heq; subst n c. clear Heq. unfold rejects in Hrej.
    apply andb_true_iff in Hrej. destruct Hrej as [Hrej Hr].
    apply andb_true_iff in Hrej. destruct Hrej as [Hty Hnull].
    rewrite Hty. apply negb_true_iff in Hnull. rewrite Hnull. simpl.
    destruct (isStdioConnection config).
    + destruct (processStdioConfig name config) eqn:Hp; [|discriminate].
      eexists. split; [reflexivity|]. eapply processStdioConfig_error; eauto.
    + destruct (isSSEConnection config).
      * destruct (processSSEConfig URLp name config) eqn:Hp; [|discriminate].
        eexists. split; [reflexivity|]. eapply processSSEConfig_error; eauto.
      * eexists. split; reflexivity.
  - specialize (IH Hin).
    destruct (negb (typeof c =? "object") || is_null c).
    + destruct (IH processed) as (e & He & HM).
      destruct (processConnections_loop URLp rest processed) as [r log].
      simpl in *. eauto.
    + destruct (isStdioConnection c).
      * destruct (processStdioConfig n c) eqn:Hp; [|apply IH].
        eexists. split; [reflexivity|]. eapply processStdioConfig_error; eauto.
      * destruct (isSSEConnection c).
        -- destruct (processSSEConfig URLp n c) eqn:Hp; [|apply IH].
           eexists. split; [reflexivity|]. eapply processSSEConfig_error; eauto.
        -- eexists. split; reflexivity.
Qed.

(** A descriptor object with no [command], and that is not an SSE
    descriptor with a [url] string, makes [processConnections] fail:
    no connection at all is returned. *)
Theorem unsupported_descriptor_fails_validation URLp name config fields :
  In (name, config) fields ->
  typeof config = "object" ->
  config <> Null ->
  has "command" config = false ->
  isSSEConnection config = false ->
  exists e, fst (processConnections URLp (Obj fields)) = inl e
            /\ isMCPClientError e = true.
Proof.
  intros Hin Hty Hnull Hcmd Hsse. unfold processConnections. simpl.
  apply (processConnections_loop_fails_on URLp name config); [exact Hin|].
  unfold rejects. rewrite Hty, Hsse.
  assert (is_null config = false) as -> by (destruct config; simpl; congruence).
  assert (isStdioConnection config = false) as ->.
  { unfold isStdioConnection. rewrite Hcmd. now rewrite !andb_false_r. }
  reflexivity.
Qed.

Lemma unsupported_descriptor_fails_validation_witness :
  exists e,
    fst (processConnections scheme_protocol
           (Obj [("fs", Obj [("command", Str "node")]);
                 ("odd", Obj [("transport", Str "sse")])])) = inl e
    /\ isMCPClientError e = true.
Proof.
  apply (unsupported_descriptor_fails_validation scheme_protocol "odd"
           (Obj [("transport", Str "sse")])).
  - right. now left.
  - reflexivity.
  - discriminate.
  - reflexivity.
  - reflexivity.
Defined.

Lemma map_has_set_assoc {A : Type} (k n : string) (x : A) (l : list (string * A)) :
  map_has n (set_assoc k x l) = (k =? n) || map_has n l.
Proof.
  unfold map_has. destruct (String.eqb_spec k n) as [->|Hne]; simpl.
  - now rewrite assoc_set_assoc_same.
  - rewrite assoc_set_assoc_other; [reflexivity|congruence].
Qed.

Lemma map_has_obj_set {A : Type} (k n : string) (x : A) (l : list (string * A)) :
  map_has n (obj_set k x l) = (k =? n) || map_has n l.
Proof.
  unfold map_has. destruct (String.eqb_spec k n) as [->|Hne]; simpl.
  - now rewrite assoc_obj_set_same.
  - rewrite assoc_obj_set_other; [reflexivity|congruence].
Qed.

Lemma processConnections_loop_skip URLp n v rest processed :
  non_object v = true ->
  processConnections_loop URLp ((n, v) :: rest) processed
  = (fst (processConnections_loop URLp rest processed),
     skip_warning n :: snd (processConnections_loop URLp rest processed)).
Proof.
  unfold non_object. intros H. simpl. rewrite H.
  now destruct (processConnections_loop URLp rest processed).
Qed.

(** An entry that is no object -- a string, a number, [null] -- is
    skipped: the connections returned, or the error raised, are those
    of the same configuration without it; and when validation succeeds
    the debug lines are exactly one warning per skipped entry, in
    order. *)
Theorem non_object_entries_are_skipped URLp pre n v post processed :
  non_object v = true ->
  fst (processConnections_loop URLp (pre ++ (n, v) :: post)%list processed)
  = fst (processConnections_loop URLp (pre ++ post)%list processed)
  /\ (forall result log,
         processConnections_loop URLp (pre ++ (n, v) :: post)%list processed
         = (inr result, log) ->
         log = map (fun kv => skip_warning (fst kv))
                   (filter (fun kv => non_object (snd kv))
                           (pre ++ (n, v) :: post)%list)).
Proof.
  intros Hv. split.
  - revert processed. induction pre as [|[k c] pre IH]; intros processed.
    + simpl app. now rewrite processConnections_loop_skip.
    + simpl.
      destruct (negb (typeof c =? "object") || is_null c).
      * specialize (IH processed).
        destruct (processConnections_loop URLp (pre ++ (n, v) :: post) processed).
        destruct (processConnections_loop URLp (pre ++ post) processed).
        simpl in *. exact IH.
      * destruct (isStdioConnection c).
        -- destruct (processStdioConfig k c); [reflexivity|apply IH].
        -- destruct (isSSEConnection c); [|reflexivity].
           destruct (processSSEConfig URLp k c); [reflexivity|apply IH].
  - generalize (pre ++ (n, v) :: post)%list as entries. clear.
    intros entries. revert processed.
    induction entries as [|[k c] rest IH]; intros processed result log; simpl.
    + intros H. now inversion H.
    + unfold non_object at 1. simpl.
      destruct (negb (typeof c =? "object") || is_null c).
      * destruct (processConnections_loop URLp rest processed) as [r l] eqn:Hr.
        intros H. inversion H; subst. simpl. f_equal. eapply IH. exact Hr.
      * destruct (isStdioConnection c).
        -- destruct (processStdioConfig k c); [discriminate|apply IH].
        -- destruct (isSSEConnection c); [|discriminate].
           destruct (processSSEConfig URLp k c); [discriminate|apply IH].
Qed.

Lemma non_object_entries_are_skipped_witness :
  non_object (Str "node fs-server.js") = true
  /\ fst (processConnections_loop scheme_protocol
            ([("fs", Obj [("command", Str "node")])]
             ++ ("note", Str "node fs-server.js") :: [])%list [])
     = inr [("fs", Stdio (mkStdio "node" [] None None None None))].
Proof.
  split; [reflexivity|].
  rewrite (proj1 (non_object_entries_are_skipped scheme_protocol
                    [("fs", Obj [("command", Str "node")])]
                    "note" (Str "node fs-server.js") [] [] eq_refl)).
  reflexivity.
Defined.

(** When validation succeeds, the names of the connections returned
    are exactly the names of the entries that are objects (besides
    those already processed): nothing is dropped silently but the
    entries that are no objects. *)
Theorem validated_names URLp entries processed result log :
  processConnections_loop URLp entries processed = (inr result, log) ->
  forall n,
    map_has n result
    = map_has n processed
      || existsb (fun kv => (fst kv =? n) && negb (non_object (snd kv))) entries.
Proof.
  revert processed result log.
  induction entries as [|[k c] rest IH]; intros processed result log; simpl.
  - intros H n. inversion H. now rewrite orb_false_r.
  - unfold non_object at 1. simpl.
    destruct (negb (typeof c =? "object") || is_null c); simpl.
    + destruct (processConnections_loop URLp rest processed) as [r l] eqn:Hr.
      intros H n. inversion H; subst. rewrite andb_false_r. simpl.
      eapply IH. exact Hr.
    + destruct (isStdioConnection c).
      * destruct (processStdioConfig k c); [discriminate|].
        intros H n. rewrite (IH _ _ _ H n), map_has_obj_set, andb_true_r.
        destruct (k =? n), (map_has n processed); reflexivity.
      * destruct (isSSEConnection c); [|discriminate].
        destruct (processSSEConfig URLp k c); [discriminate|].
        intros H n. rewrite (IH _ _ _ H n), map_has_obj_set, andb_true_r.
        destruct (k =? n), (map_has n processed); reflexivity.
Qed.

Lemma validated_names_witness :
  processConnections_loop scheme_protocol
    [("fs", Obj [("command", Str "node")]); ("note", Null)] []
  = (inr [("fs", Stdio (mkStdio "node" [] None None None None))],
     [skip_warning "note"])
  /\ map_has "note" [("fs", Stdio (mkStdio "node" [] None None None None))] = false.
Proof.
  split; [reflexivity|].
  exact (validated_names scheme_protocol
           [("fs", Obj [("command", Str "node")]); ("note", Null)] []
           [("fs", Stdio (mkStdio "node" [] None None None None))]
           [skip_warning "note"] eq_refl "note").
Defined.

(* ================================================================= *)
(** ** Further properties of the supervisor *)

(** The transport factory never fails on a URL that parses, whatever
    the outcome of loading the optional EventSource packages: it
    returns a new transport built with [sse_options]; it throws, and
    creates nothing, exactly when the URL does not parse.  In both
    cases the bookkeeping maps are untouched. *)
Theorem createSSETransport_falls_back w address hs useNode st :
  let r := createSSETransport w address hs useNode st in
  snapshot (snd r) = snapshot st
  /\ cleanupFunctions (snd r) = cleanupFunctions st
  /\ match URL_protocol w address with
     | Some _ =>
         fst r = Return (length (transports st))
         /\ transports (snd r)
            = (transports st ++ [SSEInit address (sse_options w hs useNode)])%list
         /\ globalEventSource (snd r)
            = sse_global w hs useNode (globalEventSource st)
     | None =>
         fst r = Throw (TypeError "Invalid URL")
         /\ transports (snd r) = transports st
     end.
Proof.
  unfold createSSETransport, createNodeEventSourceTransport, new_SSEClientTransport,
    import, sse_options, sse_global, bind, try_catch, ret, throw, gets, modify, await.
  destruct hs as [h|]; [destruct useNode as [[|]|]|];
    destruct (URL_protocol w address); simpl;
    try destruct (import_outcome w "extended-eventsource"); simpl;
    try destruct (import_outcome w "eventsource"); simpl;
    repeat split.
Qed.

(** The [onclose] handler of a transport is replaced exactly when its
    connect succeeded and the descriptor's policy is enabled: a server
    whose policy is absent or disabled never gets a restart hook, nor
    does a transport whose connect failed. *)
Theorem restart_hook_only_when_enabled w name conn st :
  exists calls,
    trace (snd (initializeConnection w name conn st)) = (trace st ++ calls)%list
    /\ onclose (snd (initializeConnection w name conn st))
       = (hooks_for w name conn calls ++ onclose st)%list.
Proof.
  destruct conn as [c|c]; simpl.
  - unfold initializeStdioConnection, loadToolsForServer, new_StdioClientTransport,
      new_Client, setupStdioRestart, when,
      bind, try_catch, ret, throw, gets, modify, await.
    simpl. repeat (run_step; simpl); solve_hooks.
  - unfold initializeSSEConnection, createSSETransport, createNodeEventSourceTransport,
      new_SSEClientTransport, import, loadToolsForServer, new_Client,
      setupSSEReconnect, when,
      bind, try_catch, ret, throw, gets, modify, await.
    simpl. repeat (run_step; simpl); solve_hooks.
Qed.

(** A stdio transport whose connect fails has been created and stored
    in the transport map, but gets neither a client nor a cleanup: the
    client map, the registry and the ledger are as before, and when the
    ledger held cleanups of existing transports only, none of its
    entries closes the new transport. *)
Theorem failed_stdio_connect_leaves_transport w name c st e :
  connect_outcome w (client_count st) (length (transports st)) = inl e ->
  let st' := snd (initializeStdioConnection w name c st) in
  transports st' = (transports st ++ [StdioInit (command c) (args c) (env c)])%list
  /\ assoc name (transportInstances st') = Some (length (transports st))
  /\ clients st' = clients st
  /\ serverNameToTools st' = serverNameToTools st
  /\ cleanupFunctions st' = cleanupFunctions st
  /\ (Forall (fun cl => cleanup_transport cl < length (transports st))
             (cleanupFunctions st) ->
      ~ In (length (transports st)) (map cleanup_transport (cleanupFunctions st'))).
Proof.
  intros Hc st'.
  assert (Hst : st' = record_call (CallConnect (client_count st) (length (transports st)))
                        (set_client_count (S (client_count st))
                           (set_transportInstances
                              (set_assoc name (length (transports st)))
                              (set_transports
                                 (fun l => (l ++ [StdioInit (command c) (args c) (env c)])%list)
                                 st)))).
  { unfold st', initializeStdioConnection, new_StdioClientTransport, new_Client,
      bind, try_catch, ret, throw, gets, modify, await. simpl. now rewrite Hc. }
  rewrite Hst. simpl.
  split; [reflexivity|]. split; [apply assoc_set_assoc_same|].
  split; [reflexivity|]. split; [reflexivity|]. split; [reflexivity|].
  intros Hold Hin. apply in_map_iff in Hin. destruct Hin as (cl & Heq & Hin).
  rewrite Forall_forall in Hold. specialize (Hold cl Hin). lia.
Qed.

Lemma failed_stdio_connect_leaves_transport_witness :
  connect_outcome refusing_world (client_count two_servers)
                  (length (transports two_servers))
  = inl (ExternalError "Error: connection refused")
  /\ cleanupFunctions
       (snd (initializeStdioConnection refusing_world "docs"
               (mkStdio "node" ["docs-server.js"] None None None None) two_servers))
     = cleanupFunctions two_servers.
Proof.
  split; [reflexivity|].
  exact (proj1 (proj2 (proj2 (proj2 (proj2
           (failed_stdio_connect_leaves_transport refusing_world "docs"
              (mkStdio "node" ["docs-server.js"] None None None None) two_servers
              (ExternalError "Error: connection refused") eq_refl)))))).
Defined.

Lemma initializeConnection_closes_nothing w name conn st :
  exists calls,
    trace (snd (initializeConnection w name conn st)) = (trace st ++ calls)%list
    /\ closes_nothing calls = true.
Proof.
  destruct conn as [c|c]; simpl.
  - unfold initializeStdioConnection, loadToolsForServer, new_StdioClientTransport,
      new_Client, setupStdioRestart, when, policy_enabled,
      bind, try_catch, ret, throw, gets, modify, await.
    simpl. repeat (run_step; simpl);
      first [ exists []; split; [now rewrite app_nil_r|reflexivity]
            | eexists; split; [repeat rewrite <- app_assoc; simpl; reflexivity
                              |reflexivity] ].
  - unfold initializeSSEConnection, createSSETransport, createNodeEventSourceTransport,
      new_SSEClientTransport, import, loadToolsForServer, new_Client,
      setupSSEReconnect, when, policy_enabled,
      bind, try_catch, ret, throw, gets, modify, await.
    simpl. repeat (run_step; simpl);
      first [ exists []; split; [now rewrite app_nil_r|reflexivity]
            | eexists; split; [repeat rewrite <- app_assoc; simpl; reflexivity
                              |reflexivity] ].
Qed.

Lemma reconnect_attempt_closes_nothing w name conn d st :
  exists calls,
    trace (snd (reconnect_attempt w name conn d false st)) = (trace st ++ calls)%list
    /\ closes_nothing calls = true.
Proof.
  unfold reconnect_attempt, try_catch, bind, when.
  set (st_s := if truthy (Num d) then record_call (CallSleep d) st else st).
  assert (Hs : (if truthy (Num d) then await (CallSleep d) (inr tt) else ret tt) st
               = (Return tt, st_s)).
  { unfold st_s. destruct (truthy (Num d)); reflexivity. }
  rewrite Hs.
  assert (Htr : trace st_s = (trace st ++ sleep_calls d st)%list).
  { unfold st_s, sleep_calls. destruct (truthy (Num d)); simpl; [reflexivity|].
    now rewrite app_nil_r. }
  destruct (initializeConnection_closes_nothing w name conn st_s) as (calls & Hc & Hn).
  exists (sleep_calls d st ++ calls)%list. split.
  - destruct (initializeConnection w name conn st_s) as [[[]|e] s]; simpl in *;
      unfold gets, ret; simpl; rewrite Hc, Htr; now rewrite app_assoc.
  - unfold closes_nothing in *. rewrite forallb_app, Hn, andb_true_r.
    unfold sleep_calls. destruct (truthy (Num d)); reflexivity.
Qed.


(** [attemptReconnect] closes nothing and never removes an entry from
    the cleanup ledger: none of the calls it makes closes a transport,
    and the ledger after the call is the ledger before it followed by
    one cleanup for each connect that succeeded during the call.  The
    session that is replaced is only forgotten; its cleanup stays in the
    ledger until [close()]. *)
Theorem reconnect_keeps_ledger_entries w name conn (m d : option Z) st fuel :
  Z.to_nat (default_parameter 3%Z m) <= fuel ->
  exists st' calls,
    attemptReconnect w fuel name conn m d st = Some (Return tt, st')
    /\ trace st' = (trace st ++ calls)%list
    /\ closes_nothing calls = true
    /\ cleanupFunctions st'
       = (cleanupFunctions st ++ map (mkCleanup name) (opened w calls))%list
    /\ (forall cl, In cl (cleanupFunctions st) -> In cl (cleanupFunctions st')).
Proof.
  intros Hfuel.
  destruct (attemptReconnect_invariant w name conn m d
              (fun _ _ s =>
                 exists calls,
                   trace s = (trace st ++ calls)%list
                   /\ closes_nothing calls = true
                   /\ cleanupFunctions s
                      = (cleanupFunctions st
                         ++ map (mkCleanup name) (opened w calls))%list)
              st fuel)
    as (connected & attempts & st' & _ & Hrun & (calls & Htr & Hno & Hcl) & _).
  - exists []. repeat split; simpl; now rewrite app_nil_r.
  - intros a s c s' (calls & Htr & Hno & Hcl) _ Hattempt.
    destruct (reconnect_attempt_spec w name conn (default_parameter 1000%Z d) s)
      as (c1 & s1 & calls' & Hrun & Htr' & Hframe & _).
    rewrite Hattempt in Hrun. inversion Hrun; subst c1 s1. clear Hrun.
    destruct Hframe as (_ & _ & _ & _ & Hcl' & _).
    destruct (reconnect_attempt_closes_nothing w name conn
                (default_parameter 1000%Z d) s) as (made & Hmade & Hno').
    rewrite Hattempt in Hmade. simpl in Hmade.
    assert (made = (sleep_calls (default_parameter 1000%Z d) s ++ calls')%list)
      as Heq by (apply (app_inv_head (trace s)); congruence).
    exists (calls ++ made)%list.
    split; [rewrite Hmade, Htr; now rewrite <- app_assoc|].
    split; [unfold closes_nothing in *; now rewrite forallb_app, Hno, Hno'|].
    rewrite Hcl', Hcl, Heq, !opened_app, opened_sleep_calls, !map_app. simpl.
    now rewrite <- app_assoc.
  - exact Hfuel.
  - exists st', calls. split; [exact Hrun|]. split; [exact Htr|].
    split; [exact Hno|].
    split; [exact Hcl|]. intros cl Hin. rewrite Hcl. apply in_or_app. now left.
Qed.

Lemma reconnect_keeps_ledger_entries_witness :
  Z.to_nat (default_parameter 3%Z None) <= 3
  /\ exists st',
       attemptReconnect scenario_world 3 "fs" (fs_with enabled_only) None None
                        two_servers = Some (Return tt, st')
       /\ In (mkCleanup "fs" 0) (cleanupFunctions st').
Proof.
  split; [simpl; lia|].
  destruct (reconnect_keeps_ledger_entries scenario_world "fs" (fs_with enabled_only)
              None None two_servers 3)
    as (st' & calls & Hrun & _ & _ & _ & Hkeep); [simpl; lia|].
  exists st'. split; [exact Hrun|]. apply Hkeep. vm_compute. left. reflexivity.
Defined.

(** When the reconnect loop ends connected, the server has a client
    created by this call and the tools that client discovered, and it
    is the last server of the registry, whatever its place was; the
    entries of the other servers keep their order. *)
Theorem reconnect_success_registers_last w name conn (m d : option Z) st fuel :
  Z.to_nat (default_parameter 3%Z m) <= fuel ->
  exists connected attempts st',
    reconnect_loop w fuel name conn (Some (default_parameter 3%Z m))
                   (default_parameter 1000%Z d) false 0%Z
                   (snd (cleanupServerResources name st))
    = Some (Return (connected, attempts), st')
    /\ attemptReconnect w fuel name conn m d st = Some (Return tt, st')
    /\ (connected = true ->
        exists client tools,
          client_count st <= client
          /\ getClient name st' = Some client
          /\ loadMcpTools_outcome w name client = inr tools
          /\ serverNameToTools st'
             = (map_delete name (serverNameToTools st) ++ [(name, tools)])%list
          /\ getTools None st'
             = (concat (map snd (map_delete name (serverNameToTools st))) ++ tools)%list).
Proof.
  intros Hfuel.
  destruct (attemptReconnect_invariant w name conn m d
              (fun c _ s =>
                 client_count st <= client_count s
                 /\ if c
                    then exists client tools,
                        client_count st <= client
                        /\ assoc name (clients s) = Some client
                        /\ loadMcpTools_outcome w name client = inr tools
                        /\ serverNameToTools s
                           = (map_delete name (serverNameToTools st)
                              ++ [(name, tools)])%list
                    else serverNameToTools s = map_delete name (serverNameToTools st))
              st fuel)
    as (connected & attempts & st' & Hloop & Hrun & [_ HI] & _).
  - split; reflexivity.
  - intros a s c s' [Hcount Htools] _ Hattempt.
    destruct (reconnect_attempt_spec w name conn (default_parameter 1000%Z d) s)
      as (c1 & s1 & calls & Hrun & _ & Hframe & Hres).
    rewrite Hattempt in Hrun. inversion Hrun; subst c1 s1. clear Hrun.
    destruct Hframe as (_ & _ & Hcc & _).
    split; [lia|]. destruct c.
    + destruct Hres as (client & tools & Hle & Hcl & Hload & Hreg).
      exists client, tools. split; [lia|].
      split; [rewrite Hcl; apply assoc_set_assoc_same|]. split; [exact Hload|].
      rewrite Hreg, Htools. apply set_assoc_fresh. apply assoc_map_delete_same.
    + destruct Hres as [Hreg _]. now rewrite Hreg.
  - exact Hfuel.
  - exists connected, attempts, st'. split; [exact Hloop|]. split; [exact Hrun|].
    intros ->. destruct HI as (client & tools & Hle & Hcl & Hload & Hreg).
    exists client, tools. repeat split; auto.
    simpl. rewrite getAllToolsAsFlatArray_concat, Hreg, map_app, concat_app.
    simpl. now rewrite app_nil_r.
Qed.

Lemma reconnect_success_registers_last_witness :
  Z.to_nat (default_parameter 3%Z None) <= 3
  /\ option_map (fun r => map fst (serverNameToTools (snd r)))
       (attemptReconnect no_discovery_on_fs 3 "search" (search_with enabled_only)
                         None None
                         (set_tools (fun _ => [("search", []); ("docs", [])])
                                    initial_state))
     = Some ["docs"; "search"].
Proof.
  split; [simpl; lia|].
  destruct (reconnect_success_registers_last no_discovery_on_fs "search"
              (search_with enabled_only) None None
              (set_tools (fun _ => [("search", []); ("docs", [])]) initial_state) 3)
    as (connected & attempts & st' & Hloop & Hrun & Hok); [simpl; lia|].
  rewrite Hrun. simpl.
  assert (connected = true) as Hc.
  { vm_compute in Hloop. now inversion Hloop. }
  destruct (Hok Hc) as (client & tools & _ & _ & _ & Hreg & _).
  rewrite Hreg. reflexivity.
Defined.

(** *** The flows that run while [close()] is suspended *)

Lemma interferes_nothing : interferes (fun st => st).
Proof. intros st. exists [], []. now rewrite !app_nil_r. Qed.

Lemma interferes_then (first next : State -> State) :
  interferes first -> interferes next -> interferes (fun st => next (first st)).
Proof.
  intros H1 H2 st.
  destruct (H1 st) as (calls1 & added1 & Htr1 & Hno1 & Hcl1).
  destruct (H2 (first st)) as (calls2 & added2 & Htr2 & Hno2 & Hcl2).
  exists (calls1 ++ calls2)%list, (added1 ++ added2)%list.
  split; [rewrite Htr2, Htr1, <- app_assoc; reflexivity|].
  split; [unfold closes_nothing in *; now rewrite forallb_app, Hno1, Hno2|].
  rewrite Hcl2, Hcl1, <- app_assoc. reflexivity.
Qed.

(** The beginning of a restart handler calls the SDK's handler and may
    evict its server. *)
Lemma interferes_closure_begins w t : interferes (closure_begins w t).
Proof.
  intros st. unfold closure_begins, await, cleanupServerResources, bind, modify.
  destruct (installed_hook t (onclose st)) as [h|];
    destruct (originalOnClose_outcome w t) as [e|[]]; simpl;
    try destruct (map_has (hook_server h) (clients st)); simpl;
    exists [(CallOriginalOnClose t, snapshot st)], []; now rewrite app_nil_r.
Qed.

(** A pass of a reconnect loop pauses, connects and discovers. *)
Lemma interferes_reconnect_attempt w name conn d :
  interferes (fun st => snd (reconnect_attempt w name conn d false st)).
Proof.
  intros st.
  destruct (reconnect_attempt_effects w name conn d st)
    as (c & st' & calls & Hrun & Htr & _ & Hframe & _ & Hno & _).
  rewrite Hrun. simpl.
  exists (sleep_calls d st ++ calls)%list, (map (mkCleanup name) (opened w calls)).
  split; [exact Htr|]. split.
  - unfold closes_nothing in *. rewrite forallb_app, Hno, andb_true_r.
    unfold sleep_calls. destruct (truthy (Num d)); reflexivity.
  - destruct Hframe as (_ & _ & _ & _ & Hcl & _). exact Hcl.
Qed.

(** So does a reconnect loop as far as it gets. *)
Lemma reconnect_loop_interferes w name conn limit d fuel :
  forall a st r st',
    reconnect_loop w fuel name conn limit d false a st = Some (r, st') ->
    exists calls added,
      trace st' = (trace st ++ calls)%list
      /\ closes_nothing calls = true
      /\ cleanupFunctions st' = (cleanupFunctions st ++ added)%list.
Proof.
  induction fuel as [|fuel IH]; intros a st r st'; simpl.
  - destruct (match limit with Some maxAttempts => (a <? maxAttempts)%Z | None => true end);
      [discriminate|].
    intros H. inversion H; subst. exists [], []. now rewrite !app_nil_r.
  - destruct (match limit with Some maxAttempts => (a <? maxAttempts)%Z | None => true end).
    + destruct (interferes_reconnect_attempt w name conn d st)
        as (calls1 & added1 & Htr1 & Hno1 & Hcl1).
      destruct (reconnect_attempt_spec w name conn d st)
        as (c & s1 & calls & Hrun & _).
      rewrite Hrun in *. simpl in Htr1, Hcl1.
      destruct c.
      * assert (reconnect_loop w fuel name conn limit d true (a + 1) s1
                = Some (Return (true, (a + 1)%Z), s1)) as -> by (destruct fuel; reflexivity).
        intros H. inversion H; subst. exists calls1, added1. auto.
      * intros H. destruct (IH _ _ _ _ H) as (calls2 & added2 & Htr2 & Hno2 & Hcl2).
        exists (calls1 ++ calls2)%list, (added1 ++ added2)%list.
        split; [rewrite Htr2, Htr1, <- app_assoc; reflexivity|].
        split; [unfold closes_nothing in *; now rewrite forallb_app, Hno1, Hno2|].
        rewrite Hcl2, Hcl1, <- app_assoc. reflexivity.
    + intros H. inversion H; subst. exists [], []. now rewrite !app_nil_r.
Qed.

(** And so does a restart handler run from its beginning to its end. *)
Lemma interferes_transport_closed w fuel t :
  interferes (fun st => match transport_closed w fuel t st with
                        | Some (_, st') => st'
                        | None => st
                        end).
Proof.
  intros st. unfold transport_closed, restart_handler, await.
  destruct (installed_hook t (onclose st)) as [h|].
  - destruct (originalOnClose_outcome w t) as [e|[]]; simpl.
    + exists [(CallOriginalOnClose t, snapshot st)], []. now rewrite app_nil_r.
    + destruct (map_has (hook_server h) (clients st)).
      * unfold attemptReconnect, cleanupServerResources, bind, modify. simpl.
        match goal with
        | |- context [reconnect_loop w fuel ?n ?c ?l ?d false 0%Z ?s] =>
            destruct (reconnect_loop w fuel n c l d false 0%Z s) as [[r s2]|] eqn:Hloop
        end.
        -- destruct (reconnect_loop_interferes _ _ _ _ _ _ _ _ _ _ Hloop)
             as (calls & added & Htr & Hno & Hcl).
           simpl in Htr, Hcl.
           assert (exists s3, (match r with
                               | Return _ => Some (Return tt, s2)
                               | Throw e => Some (Throw e, s2)
                               end = Some (s3, s2))) as [s3 ->]
               by (destruct r; eauto).
           exists ((CallOriginalOnClose t, snapshot st) :: calls), added.
           split; [rewrite Htr, <- app_assoc; reflexivity|]. split; [exact Hno|exact Hcl].
        -- exists [], []. now rewrite !app_nil_r.
      * exists [(CallOriginalOnClose t, snapshot st)], []. now rewrite app_nil_r.
  - destruct (originalOnClose_outcome w t) as [e|[]]; simpl;
      exists [(CallOriginalOnClose t, snapshot st)], []; now rewrite app_nil_r.
Qed.

(** The handler of a hooked transport whose server has a client is
    [closure_begins] followed by [closure_resumes]. *)
Lemma transport_closed_in_two_parts w fuel t h st :
  installed_hook t (onclose st) = Some h ->
  originalOnClose_outcome w t = inr tt ->
  map_has (hook_server h) (clients st) = true ->
  transport_closed w fuel t st
  = match closure_resumes w fuel h (closure_begins w t st) with
    | Some (Return _, st') => Some (Return tt, st')
    | Some (Throw e, st') => Some (Throw e, st')
    | None => None
    end.
Proof.
  intros Hhook Hok Hclient.
  unfold transport_closed, restart_handler, closure_begins, closure_resumes,
    attemptReconnect, await.
  rewrite Hhook, Hok. simpl. rewrite Hclient. reflexivity.
Qed.

Lemma close_runs_ledger_in_order_and_clears_witness :
  Forall interferes [closure_begins scenario_world 0]
  /\ installed_hook 0 (onclose two_servers)
     = Some (mkHook "fs" (fs_with enabled_only) enabled_only)
  /\ exists st',
       close scenario_world [closure_begins scenario_world 0] two_servers
       = (Return tt, st')
       /\ cleanupFunctions st' = []
       /\ getTools None st' = [].
Proof.
  assert (H : Forall interferes [closure_begins scenario_world 0])
    by (constructor; [apply interferes_closure_begins|constructor]).
  split; [exact H|]. split; [reflexivity|].
  destruct (close_runs_ledger_in_order_and_clears scenario_world _ two_servers H)
    as [(loop_end & st' & calls & added & _ & Hrun & _ & _ & _ & _
         & Hledger & _ & _ & _ & Htools) _].
  exists st'. split; [exact Hrun|]. split; [exact Hledger|exact Htools].
Defined.

(** [close()] does not cancel the restart handlers, and it sets them
    off.  Closing the transport of the first ledger entry signals its
    closure while [close()] is suspended: the maps are still filled, so
    the guard [this.clients.has(serverName)] of the handler passes, the
    server is evicted and the reconnect loop is entered.  [close()]
    then ends with empty maps and an empty ledger; but the loop of the
    handler goes on afterwards, and when one of its attempts succeeds
    the server is connected again: it has a client, it is the one entry
    of the registry, [getTools()] returns its tools, and the ledger
    that [close()] emptied holds a cleanup again. *)
Theorem closure_during_close_reconnects w fuel st cl rest h :
  cleanupFunctions st = cl :: rest ->
  installed_hook (cleanup_transport cl) (onclose st) = Some h ->
  map_has (hook_server h) (clients st) = true ->
  originalOnClose_outcome w (cleanup_transport cl) = inr tt ->
  Z.to_nat (default_parameter 3%Z (maxAttempts (hook_policy h))) <= fuel ->
  let t := cleanup_transport cl in
  let name := hook_server h in
  closure_begins w t (record_call (CallClose t) st)
  = snd (cleanupServerResources name
           (record_call (CallOriginalOnClose t) (record_call (CallClose t) st)))
  /\ exists closed,
      close w [closure_begins w t] st = (Return tt, closed)
      /\ clients closed = []
      /\ serverNameToTools closed = []
      /\ cleanupFunctions closed = []
      /\ exists connected attempts st',
          closure_resumes w fuel h closed = Some (Return (connected, attempts), st')
          /\ (connected = true ->
              exists client tools,
                getClient name st' = Some client
                /\ loadMcpTools_outcome w name client = inr tools
                /\ serverNameToTools st' = [(name, tools)]
                /\ getTools None st' = tools
                /\ cleanupFunctions st' <> []).
Proof.
  intros Hledger Hhook Hclient Hok Hfuel t name. subst t.
  set (t := cleanup_transport cl) in *. split.
  - unfold closure_begins, await. simpl. rewrite Hhook, Hok. simpl.
    unfold name. now rewrite Hclient.
  - assert (Hs : Forall interferes [closure_begins w t])
      by (constructor; [apply interferes_closure_begins|constructor]).
    destruct (close_loop_spec w _ Hs 0 st) as (st1 & calls & added & Hrun & _).
    eexists. split; [unfold close, bind, modify; rewrite Hrun; reflexivity|].
    simpl. repeat (split; [reflexivity|]).
    match goal with |- context [closure_resumes w fuel h ?s] => set (closed := s) end.
    destruct (reconnect_loop_invariant w name (hook_connection h)
                (default_parameter 3%Z (maxAttempts (hook_policy h)))
                (default_parameter 1000%Z (delayMs (hook_policy h)))
                (fun c _ s =>
                   if c
                   then exists client tools,
                       assoc name (clients s) = Some client
                       /\ loadMcpTools_outcome w name client = inr tools
                       /\ serverNameToTools s = [(name, tools)]
                       /\ cleanupFunctions s <> []
                   else serverNameToTools s = []))
      with (fuel := fuel) (a := 0%Z) (st := closed)
      as (connected & attempts & st' & Hloop & HI & _).
    + intros a s c s' Hreg _ Hattempt.
      destruct (reconnect_attempt_effects w name (hook_connection h)
                  (default_parameter 1000%Z (delayMs (hook_policy h))) s)
        as (c1 & s1 & made & Hrun' & _ & _ & Hframe & Hres & _ & _ & _ & _ & Hone).
      rewrite Hattempt in Hrun'. inversion Hrun'; subst c1 s1. clear Hrun'.
      destruct c.
      * destruct Hres as (client & tools & _ & Hcl & Hload & Htools).
        exists client, tools. split; [rewrite Hcl; apply assoc_set_assoc_same|].
        split; [exact Hload|]. split; [rewrite Htools, Hreg; reflexivity|].
        destruct Hframe as (_ & _ & _ & _ & Hle & _). rewrite Hle.
        specialize (Hone eq_refl).
        destruct (opened w made); [discriminate|].
        intros Hnil. apply app_eq_nil in Hnil. destruct Hnil as [_ Hnil]. discriminate.
      * destruct Hres as [Htools _]. now rewrite Htools.
    + reflexivity.
    + now rewrite Z.sub_0_r.
    + exists connected, attempts, st'. split; [exact Hloop|].
      intros ->. destruct HI as (client & tools & Hcl & Hload & Hreg & Hne).
      exists client, tools. repeat split; auto.
      simpl. rewrite getAllToolsAsFlatArray_concat, Hreg. simpl. apply app_nil_r.
Qed.

Lemma closure_during_close_reconnects_witness :
  exists closed st',
    close no_discovery_on_fs [closure_begins no_discovery_on_fs 0]
          (snd (initializeConnections no_discovery_on_fs
                  (set_connections (Some [("search", search_with enabled_only)])
                                   initial_state)))
    = (Return tt, closed)
    /\ getTools None closed = []
    /\ closure_resumes no_discovery_on_fs 3
         (mkHook "search" (search_with enabled_only) enabled_only) closed
       = Some (Return (true, 1%Z), st')
    /\ getTools None st' = [web_search].
Proof.
  destruct (closure_during_close_reconnects no_discovery_on_fs 3
              (snd (initializeConnections no_discovery_on_fs
                      (set_connections (Some [("search", search_with enabled_only)])
                                       initial_state)))
              (mkCleanup "search" 0) []
              (mkHook "search" (search_with enabled_only) enabled_only)
              eq_refl eq_refl eq_refl eq_refl)
    as (_ & closed & Hclose & _ & _ & _ & connected & attempts & st' & Hloop & Hback).
  { simpl. lia. }
  cbn [cleanup_transport hook_server] in Hclose, Hloop, Hback.
  exists closed, st'. split; [exact Hclose|].
  assert (Hclosed : closed
                    = snd (close no_discovery_on_fs [closure_begins no_discovery_on_fs 0]
                             (snd (initializeConnections no_discovery_on_fs
                                     (set_connections
                                        (Some [("search", search_with enabled_only)])
                                        initial_state)))))
    by (now rewrite Hclose).
  split; [rewrite Hclosed; vm_compute; reflexivity|].
  assert (Hres : closure_resumes no_discovery_on_fs 3
                   (mkHook "search" (search_with enabled_only) enabled_only) closed
                 = Some (Return (true, 1%Z), st')).
  { rewrite Hloop. rewrite Hclosed in Hloop. vm_compute in Hloop.
    inversion Hloop. reflexivity. }
  split; [exact Hres|].
  assert (connected = true) as Hc by (rewrite Hres in Hloop; now inversion Hloop).
  destruct (Hback Hc) as (client & tools & _ & Hload & _ & Htools & _).
  rewrite Htools. vm_compute in Hload. now inversion Hload.
Defined.

Lemma getServerForTool_loop_spec toolName entries :
  match getServerForTool_loop toolName entries with
  | Some name =>
      exists pre tools post,
        entries = (pre ++ (name, tools) :: post)%list
        /\ offers toolName (name, tools) = true
        /\ forallb (fun e => negb (offers toolName e)) pre = true
  | None => forallb (fun e => negb (offers toolName e)) entries = true
  end.
Proof.
  induction entries as [|[n tools] rest IH]; simpl; [reflexivity|].
  destruct (existsb (fun tool => tool_name tool =? toolName) tools) eqn:E.
  - exists [], tools, rest. auto.
  - destruct (getServerForTool_loop toolName rest) as [name|].
    + destruct IH as (pre & tools' & post & -> & Hoff & Hpre).
      exists ((n, tools) :: pre), tools', post. simpl. unfold offers at 2. simpl.
      rewrite E. auto.
    + unfold offers at 1. simpl. now rewrite E.
Qed.

(** [getServerForTool] answers with the first server, in registry
    order, that has a tool of that name; it answers [undefined] exactly
    when no tool of [getTools()] has that name. *)
Theorem getServerForTool_first_match toolName st :
  (forall name,
      getServerForTool toolName st = Some name ->
      exists pre tools post,
        serverNameToTools st = (pre ++ (name, tools) :: post)%list
        /\ (exists tool, In tool tools /\ tool_name tool = toolName)
        /\ (forall e tool, In e pre -> In tool (snd e) -> tool_name tool <> toolName))
  /\ (getServerForTool toolName st = None
      <-> forall tool, In tool (getTools None st) -> tool_name tool <> toolName).
Proof.
  unfold getServerForTool.
  pose proof (getServerForTool_loop_spec toolName (serverNameToTools st)) as Hspec.
  assert (Hnone : forall l,
             forallb (fun e => negb (offers toolName e)) l = true
             <-> forall tool, In tool (concat (map snd l)) -> tool_name tool <> toolName).
  { induction l as [|[n tools] l IH]; simpl.
    - split; [intros _ tool []|reflexivity].
    - rewrite andb_true_iff, IH, negb_true_iff. unfold offers. simpl.
      split.
      + intros [Hno Hrest] tool Hin. apply in_app_or in Hin. destruct Hin as [Hin|Hin].
        * intros Heq. assert (existsb (fun tool => tool_name tool =? toolName) tools = true).
          { apply existsb_exists. exists tool. split; auto. now apply String.eqb_eq. }
          congruence.
        * now apply Hrest.
      + intros Hall. split.
        * destruct (existsb (fun tool => tool_name tool =? toolName) tools) eqn:E; auto.
          apply existsb_exists in E. destruct E as (tool & Hin & Heq).
          apply String.eqb_eq in Heq. exfalso.
          apply (Hall tool); auto. apply in_or_app. now left.
        * intros tool Hin. apply Hall. apply in_or_app. now right. }
  split.
  - intros name Hname. rewrite Hname in Hspec.
    destruct Hspec as (pre & tools & post & Hreg & Hoff & Hpre).
    exists pre, tools, post. split; [exact Hreg|]. split.
    + unfold offers in Hoff. simpl in Hoff. apply existsb_exists in Hoff.
      destruct Hoff as (tool & Hin & Heq). exists tool. split; auto.
      now apply String.eqb_eq.
    + intros e tool He Hin. apply (proj1 (Hnone pre) Hpre).
      apply in_concat. exists (snd e). split; auto. now apply in_map.
  - simpl. rewrite getAllToolsAsFlatArray_concat. rewrite <- Hnone.
    destruct (getServerForTool_loop toolName (serverNameToTools st)) as [name|].
    + destruct Hspec as (pre & tools & post & -> & Hoff & _).
      split; [discriminate|]. rewrite forallb_app. simpl. rewrite Hoff. simpl.
      rewrite andb_false_r. discriminate.
    + split; auto.
Qed.

(** One session per entry: what the loop of [initializeConnections]
    adds to the registry and to the ledger when every server connects
    and none of them is registered yet. *)
Lemma initialize_loop_registers_in_order w entries st st1 :
  initialize_loop w entries st = (Return tt, st1) ->
  NoDup (map fst entries) ->
  (forall n, In n (map fst entries) -> assoc n (serverNameToTools st) = None) ->
  exists added,
    serverNameToTools st1 = (serverNameToTools st ++ added)%list
    /\ map fst added = map fst entries
    /\ Forall (fun e => exists client,
                   loadMcpTools_outcome w (fst e) client = inr (snd e)) added
    /\ length (cleanupFunctions st1)
       = length (cleanupFunctions st) + length entries.
Proof.
  revert st. induction entries as [|[name conn] rest IH]; intros st; simpl.
  - unfold ret. intros H _ _. inversion H; subst. exists [].
    rewrite app_nil_r. auto.
  - unfold bind. pose proof (initializeConnection_spec w name conn st) as Hspec.
    destruct (initializeConnection w name conn st) as [[[]|e] s] eqn:Hrun;
      [|discriminate].
    simpl in Hspec. intros Hrest Hnodup Hfresh.
    destruct Hspec as (calls & _ & (_ & _ & _ & _ & Hledger & _)
                       & (c & tools & _ & _ & Hload & Htools) & Hone).
    inversion Hnodup as [|? ? Hnotin Hnodup']; subst.
    rewrite (set_assoc_fresh name tools (serverNameToTools st)) in Htools
      by (apply Hfresh; now left).
    destruct (IH s Hrest Hnodup') as (added & Hreg & Hnames & Hall & Hlen).
    { intros n Hin. rewrite Htools.
      assert (n <> name) as Hne by (intros ->; contradiction).
      clear - Hne Hfresh Hin. specialize (Hfresh n (or_intror Hin)).
      induction (serverNameToTools st) as [|[k v] l IHl]; simpl in *.
      - destruct (String.eqb_spec name n); [congruence|reflexivity].
      - destruct (k =? n); [discriminate|auto]. }
    exists ((name, tools) :: added).
    split; [rewrite Hreg, Htools, <- app_assoc; reflexivity|].
    split; [simpl; now rewrite Hnames|].
    split; [constructor; [exists c; exact Hload|exact Hall]|].
    rewrite Hlen, Hledger, length_app, length_map, Hone. lia.
Qed.

(** [initializeConnections()] on a client with no session yet: when it
    returns, the map it returns is the registry, its keys are the
    configured servers in configuration order, each with the tools
    discovered on that server, and the ledger holds one cleanup per
    server.  [getTools()] then lists the tools server by server in that
    order. *)
Theorem initializeConnections_registers_in_order w st entries tools st' :
  connections st = Some entries ->
  serverNameToTools st = [] ->
  NoDup (map fst entries) ->
  initializeConnections w st = (Return tools, st') ->
  serverNameToTools st' = tools
  /\ map fst tools = map fst entries
  /\ Forall (fun e => exists client,
                 loadMcpTools_outcome w (fst e) client = inr (snd e)) tools
  /\ getTools None st' = concat (map snd tools)
  /\ length (cleanupFunctions st')
     = length (cleanupFunctions st) + length entries.
Proof.
  intros Hconns Hempty Hnodup.
  unfold initializeConnections, bind, gets. rewrite Hconns.
  destruct entries as [|entry rest].
  - unfold ret. intros H. inversion H; subst. simpl.
    rewrite getAllToolsAsFlatArray_concat, Hempty. simpl. auto.
  - destruct (initialize_loop w (entry :: rest) st) as [[[]|e] st1] eqn:Hloop;
      [|discriminate].
    intros H. inversion H; subst. clear H.
    destruct (initialize_loop_registers_in_order w _ _ _ Hloop Hnodup)
      as (added & Hreg & Hnames & Hall & Hlen).
    { intros n _. now rewrite Hempty. }
    rewrite Hempty in Hreg. simpl in Hreg. rewrite Hreg.
    split; [reflexivity|]. split; [exact Hnames|]. split; [exact Hall|].
    split; [|exact Hlen].
    simpl. now rewrite getAllToolsAsFlatArray_concat, Hreg.
Qed.

Lemma initializeConnections_registers_in_order_witness :
  map fst (serverNameToTools
             (snd (initializeConnections no_discovery_on_fs
                     (set_connections
                        (Some [("search", search_with enabled_only);
                               ("docs", Stdio (mkStdio "node" ["docs-server.js"]
                                                 None None None None))])
                        initial_state))))
  = ["search"; "docs"].
Proof.
  pose (st := set_connections
                (Some [("search", search_with enabled_only);
                       ("docs", Stdio (mkStdio "node" ["docs-server.js"]
                                         None None None None))])
                initial_state).
  destruct (initializeConnections no_discovery_on_fs st) as [r st'] eqn:Hrun.
  assert (Hr : exists tools, r = Return tools).
  { vm_compute in Hrun. inversion Hrun. eexists. reflexivity. }
  destruct Hr as [tools ->].
  destruct (initializeConnections_registers_in_order no_discovery_on_fs st _ tools st'
              eq_refl eq_refl) as (Hreg & Hnames & _); [| exact Hrun |].
  - repeat constructor; simpl; intuition discriminate.
  - fold st. rewrite Hrun. simpl. rewrite Hreg. exact Hnames.
Defined.

(* ================================================================= *)
(** ** Configurations: merging and loading *)

Lemma map_fst_set_assoc {A : Type} (k : string) (x : A) (l : list (string * A)) :
  map fst (set_assoc k x l)
  = (map fst l ++ (if map_has k l then [] else [k]))%list.
Proof.
  unfold map_has. induction l as [|[k' y] l IH]; simpl; [reflexivity|].
  destruct (k' =? k); simpl.
  - now rewrite app_nil_r.
  - now rewrite IH.
Qed.

Lemma assoc_None_not_In {A : Type} (k : string) (l : list (string * A)) :
  assoc k l = None <-> ~ In k (map fst l).
Proof.
  induction l as [|[k' y] l IH]; simpl.
  - split; auto.
  - destruct (String.eqb_spec k' k) as [->|Hne].
    + split; [discriminate|]. intros H. exfalso. apply H. now left.
    + rewrite IH. split.
      * intros H [Heq|Hin]; auto.
      * intros H Hin. apply H. now right.
Qed.

Lemma NoDup_set_assoc {A : Type} (k : string) (x : A) (l : list (string * A)) :
  NoDup (map fst l) -> NoDup (map fst (set_assoc k x l)).
Proof.
  intros Hl. rewrite map_fst_set_assoc. unfold map_has.
  destruct (assoc k l) eqn:E.
  - now rewrite app_nil_r.
  - apply assoc_None_not_In in E.
    apply NoDup_app; [exact Hl|repeat constructor; auto|].
    intros a Ha [<-|[]]. contradiction.
Qed.

Lemma In_insert_index {A : Type} (n : N) (k a : string) (x : A)
    (l : list (string * A)) :
  In a (map fst (insert_index n k x l)) <-> a = k \/ In a (map fst l).
Proof.
  induction l as [|[k' y] l IH]; simpl.
  - intuition.
  - destruct (array_index k') as [n'|]; [destruct (n' <? n)%N|]; simpl;
      rewrite ?IH; intuition.
Qed.

Lemma NoDup_insert_index {A : Type} (n : N) (k : string) (x : A)
    (l : list (string * A)) :
  ~ In k (map fst l) -> NoDup (map fst l) -> NoDup (map fst (insert_index n k x l)).
Proof.
  induction l as [|[k' y] l IH]; simpl; intros Hk Hl.
  - repeat constructor. auto.
  - inversion Hl as [|? ? Hnotin Hl']; subst.
    destruct (array_index k') as [n'|]; [destruct (n' <? n)%N|]; simpl.
    + constructor.
      * rewrite In_insert_index. intros [->|Hin]; [apply Hk; now left|contradiction].
      * apply IH; auto.
    + constructor; [exact Hk|exact Hl].
    + constructor; [exact Hk|exact Hl].
Qed.

Lemma NoDup_obj_set {A : Type} (k : string) (x : A) (l : list (string * A)) :
  NoDup (map fst l) -> NoDup (map fst (obj_set k x l)).
Proof.
  intros Hl. unfold obj_set.
  destruct (array_index k) as [n|]; [|now apply NoDup_set_assoc].
  destruct (assoc k l) eqn:E; [now apply NoDup_set_assoc|].
  apply NoDup_insert_index; [|exact Hl]. now apply assoc_None_not_In.
Qed.

(** The validator never yields two descriptors for one name. *)
Lemma processConnections_loop_NoDup URLp entries processed result log :
  processConnections_loop URLp entries processed = (inr result, log) ->
  NoDup (map fst processed) -> NoDup (map fst result).
Proof.
  revert processed result log.
  induction entries as [|[k c] rest IH]; intros processed result log; simpl.
  - intros H. now inversion H.
  - destruct (negb (typeof c =? "object") || is_null c).
    + destruct (processConnections_loop URLp rest processed) as [r l] eqn:Hr.
      intros H. inversion H; subst. eapply IH. exact Hr.
    + destruct (isStdioConnection c).
      * destruct (processStdioConfig k c); [discriminate|].
        intros H Hp. eapply IH; [exact H|]. now apply NoDup_obj_set.
      * destruct (isSSEConnection c); [|discriminate].
        destruct (processSSEConfig URLp k c); [discriminate|].
        intros H Hp. eapply IH; [exact H|]. now apply NoDup_obj_set.
Qed.

Lemma processConnections_NoDup URLp raw result :
  fst (processConnections URLp raw) = inr result -> NoDup (map fst result).
Proof.
  unfold processConnections. destruct (Object_entries raw) as [entries|];
    [|discriminate].
  destruct (processConnections_loop URLp entries []) as [r log] eqn:Hr.
  simpl. intros ->. eapply processConnections_loop_NoDup; [exact Hr|constructor].
Qed.

(** [{ ...a, ...b }] read by key: [b] wins. *)
Lemma assoc_spread {A : Type} (n : string) (a b : list (string * A)) :
  NoDup (map fst b) ->
  assoc n (spread a b)
  = match assoc n b with Some x => Some x | None => assoc n a end.
Proof.
  unfold spread. revert a. induction b as [|[k v] b IH]; intros a Hb; simpl.
  - reflexivity.
  - inversion Hb as [|? ? Hnotin Hb']; subst. rewrite (IH _ Hb').
    destruct (String.eqb_spec k n) as [->|Hne].
    + apply assoc_None_not_In in Hnotin. rewrite Hnotin.
      apply assoc_obj_set_same.
    + destruct (assoc n b); [reflexivity|].
      apply assoc_obj_set_other. congruence.
Qed.

Lemma assoc_merge_connections n existing added :
  NoDup (map fst added) ->
  assoc n (merge_connections existing added)
  = match assoc n added with
    | Some c => Some c
    | None => match existing with Some conns => assoc n conns | None => None end
    end.
Proof.
  intros Hadded. destruct existing as [conns|]; simpl.
  - now apply assoc_spread.
  - destruct (assoc n added); reflexivity.
Qed.

(** [addConnections] validates, then merges by name: a name of the
    argument gets the new descriptor, every other name keeps the one it
    had.  It opens and closes nothing: the sessions, the registry and
    the ledger are as before, also for the servers whose descriptor was
    replaced. *)
Theorem addConnections_merges_by_name w raw added st :
  fst (processConnections (URL_protocol w) raw) = inr added ->
  let st' := snd (addConnections w raw st) in
  fst (addConnections w raw st) = Return tt
  /\ (forall n, configured st' n
                = match assoc n added with
                  | Some c => Some c
                  | None => configured st n
                  end)
  /\ snapshot st' = snapshot st
  /\ cleanupFunctions st' = cleanupFunctions st
  /\ trace st' = trace st.
Proof.
  intros Hadded. pose proof (processConnections_NoDup _ _ _ Hadded) as Hnodup.
  unfold addConnections. rewrite Hadded. unfold bind, gets, modify, configured.
  destruct (connections st) as [existing|] eqn:Hconns; simpl.
  - split; [reflexivity|]. split; [|auto].
    intros n. now apply assoc_spread.
  - split; [reflexivity|]. split; [|auto].
    intros n. destruct (assoc n added); reflexivity.
Qed.

Lemma addConnections_merges_by_name_witness :
  configured
    (snd (addConnections scenario_world
            (Obj [("fs", Obj [("command", Str "deno"); ("args", Arr [])])])
            two_servers)) "fs"
  = Some (Stdio (mkStdio "deno" [] None None None None))
  /\ configured
       (snd (addConnections scenario_world
               (Obj [("fs", Obj [("command", Str "deno"); ("args", Arr [])])])
               two_servers)) "search"
     = Some (search_with enabled_only).
Proof.
  destruct (addConnections_merges_by_name scenario_world
              (Obj [("fs", Obj [("command", Str "deno"); ("args", Arr [])])])
              [("fs", Stdio (mkStdio "deno" [] None None None None))]
              two_servers eq_refl) as (_ & Hmerge & _).
  split; rewrite Hmerge; reflexivity.
Defined.

(** [fromConfigFile] does not read the named file alone: the
    constructor it calls loads [mcp.json] from the working directory
    when there is one, and the named file is merged over it by server
    name.  Without a default file the configuration is that of the named
    file.  The new client has no session. *)
Theorem fromConfigFile_merges_default_config URLp env path file dpath dfile added :
  connections_of_file URLp env path file = inr added ->
  (exists client,
      fromConfigFile URLp env path file dpath None = inr client
      /\ connections client = Some added
      /\ snapshot client = snapshot initial_state)
  /\ (forall defaults,
         connections_of_file URLp env dpath dfile = inr defaults ->
         exists client,
           fromConfigFile URLp env path file dpath (Some dfile) = inr client
           /\ (forall n, configured client n
                         = match assoc n added with
                           | Some c => Some c
                           | None => assoc n defaults
                           end)
           /\ snapshot client = snapshot initial_state).
Proof.
  intros Hadded.
  assert (Hnodup : NoDup (map fst added)).
  { revert Hadded. unfold connections_of_file.
    destruct (loadConfigFromPath env path file); [discriminate|].
    apply processConnections_NoDup. }
  split.
  - unfold fromConfigFile, new_MultiServerMCPClient, tryLoadDefaultConfig. simpl.
    rewrite Hadded. simpl. eexists. split; [reflexivity|]. split; reflexivity.
  - intros defaults Hdefaults.
    unfold fromConfigFile, new_MultiServerMCPClient, tryLoadDefaultConfig. simpl.
    rewrite Hdefaults, Hadded. simpl. eexists. split; [reflexivity|].
    split; [|reflexivity].
    intros n. unfold configured. simpl. now apply assoc_spread.
Qed.

Lemma fromConfigFile_merges_default_config_witness :
  exists client,
    fromConfigFile scheme_protocol example_env "servers.json" (inr example_file)
                   "mcp.json"
                   (Some (inr (Obj [("servers",
                                     Obj [("fs", Obj [("command", Str "deno")]);
                                          ("docs", Obj [("command", Str "docs")])])])))
    = inr client
    /\ configured client "fs"
       = Some (Stdio (mkStdio "node" ["fs-server.js"] (Some [("API_KEY", "${API_KEY}")])
                              None None None))
    /\ configured client "docs"
       = Some (Stdio (mkStdio "docs" [] None None None None)).
Proof.
  destruct (fromConfigFile_merges_default_config scheme_protocol example_env
              "servers.json" (inr example_file) "mcp.json"
              (inr (Obj [("servers",
                          Obj [("fs", Obj [("command", Str "deno")]);
                               ("docs", Obj [("command", Str "docs")])])]))
              _ eq_refl) as [_ Hmerge].
  destruct (Hmerge _ eq_refl) as (client & Hrun & Hconf & _).
  exists client. split; [exact Hrun|]. split; rewrite Hconf; reflexivity.
Defined.

(** A default [mcp.json] that cannot be read, parsed, loaded or
    validated makes [fromConfigFile] fail whatever the named file holds:
    the constructor's error is caught and raised again as an
    [MCPClientError] without server name, its text after the prefix
    [Failed to load MCP configuration: ]. *)
Theorem fromConfigFile_fails_on_broken_default URLp env path file dpath dfile e :
  connections_of_file URLp env dpath dfile = inl e ->
  fromConfigFile URLp env path file dpath (Some dfile)
  = inl (MCPClientError ("Failed to load MCP configuration: " ++ error_text e) None).
Proof.
  intros Hdefault.
  unfold fromConfigFile, new_MultiServerMCPClient, tryLoadDefaultConfig. simpl.
  now rewrite Hdefault.
Qed.

Lemma fromConfigFile_fails_on_broken_default_witness :
  fromConfigFile scheme_protocol example_env "servers.json" (inr example_file)
                 "mcp.json" (Some (inr (Obj [("mcpServers", Obj [])])))
  = inl (MCPClientError
           ("Failed to load MCP configuration: MCPClientError: "
            ++ "Invalid MCP configuration: missing 'servers' property") None).
Proof.
  exact (fromConfigFile_fails_on_broken_default scheme_protocol example_env
           "servers.json" (inr example_file) "mcp.json"
           (inr (Obj [("mcpServers", Obj [])]))
           (MCPClientError "Invalid MCP configuration: missing 'servers' property" None)
           eq_refl).
Defined.

(** [addConfigFromFile] either merges the validated servers of the file
    by name, or throws an [MCPClientError] without server name and
    leaves the client as it was; in both cases no session is touched. *)
Theorem addConfigFromFile_merges_or_leaves URLp env path file st :
  let r := addConfigFromFile URLp env path file st in
  snapshot (snd r) = snapshot st
  /\ cleanupFunctions (snd r) = cleanupFunctions st
  /\ trace (snd r) = trace st
  /\ match connections_of_file URLp env path file with
     | inr added =>
         fst r = Return tt
         /\ forall n, configured (snd r) n
                      = match assoc n added with
                        | Some c => Some c
                        | None => configured st n
                        end
     | inl e =>
         fst r = Throw (MCPClientError
                          ("Failed to add MCP configuration: " ++ error_text e) None)
         /\ snd r = st
     end.
Proof.
  unfold addConfigFromFile.
  destruct (connections_of_file URLp env path file) as [e|added] eqn:Hfile; simpl.
  - repeat split.
  - repeat split. intros n. unfold configured. simpl.
    assert (Hnodup : NoDup (map fst added)).
    { revert Hfile. unfold connections_of_file.
      destruct (loadConfigFromPath env path file); [discriminate|].
      apply processConnections_NoDup. }
    rewrite assoc_merge_connections by exact Hnodup.
    destruct (assoc n added); reflexivity.
Qed.

(** [connectToServerViaStdio] and [connectToServerViaSSE] replace the
    configuration by the one server they are given, then initialize it.
    The servers configured before are no longer known to the client,
    but their sessions stay: their registry entries are kept, and on
    success the map returned holds them too. *)
Theorem connectToServerVia_replaces_configuration w name conn st :
  let run := match conn with
             | Stdio c => connectToServerViaStdio w name (command c) (args c) (env c)
                                                  (restart c)
             | SSE c => connectToServerViaSSE w name (url c) (headers c)
                                              (useNodeEventSource c) (reconnect c)
             end in
  let sent := match conn with
              | Stdio c => Stdio (mkStdio (command c) (args c) (env c) None None
                                          (restart c))
              | SSE c => conn
              end in
  connections (snd (run st)) = Some [(name, sent)]
  /\ (forall n, map_has n (serverNameToTools st) = true ->
                map_has n (serverNameToTools (snd (run st))) = true)
  /\ (forall tools, fst (run st) = Return tools ->
                    tools = serverNameToTools (snd (run st))
                    /\ map_has name tools = true).
Proof.
  assert (Hgen : forall c,
             let r := bind (modify (set_connections (Some [(name, c)])))
                           (fun _ => initializeConnections w) st in
             connections (snd r) = Some [(name, c)]
             /\ (forall n, map_has n (serverNameToTools st) = true ->
                           map_has n (serverNameToTools (snd r)) = true)
             /\ (forall tools, fst r = Return tools ->
                               tools = serverNameToTools (snd r)
                               /\ map_has name tools = true)).
  { intros c. cbv [initializeConnections initialize_loop bind modify gets ret].
    cbv beta iota. change (connections (set_connections (Some [(name, c)]) st))
      with (Some [(name, c)]). cbv beta iota.
    pose proof (initializeConnection_spec w name c
                  (set_connections (Some [(name, c)]) st)) as Hspec.
    destruct (initializeConnection w name c (set_connections (Some [(name, c)]) st))
      as [[[]|e] s] eqn:Hrun; simpl in Hspec |- *.
    - 
      destruct Hspec as (calls & Htr & (_ & Hconns & _) & (cl & tools & _ & _ & _ & Hreg) & _).
      split; [exact Hconns|]. split.
      + intros n Hn. rewrite Hreg. now apply map_has_set_assoc_mono.
      + intros tools' H. inversion H; subst. split; [reflexivity|].
        rewrite Hreg. apply map_has_set_assoc_same.
    - destruct Hspec as (calls & Htr & (_ & Hconns & _) & _ & Hreg & _).
      split; [exact Hconns|]. split.
      + intros n Hn. now rewrite Hreg.
      + discriminate. }
  destruct conn as [c|c]; simpl.
  - apply (Hgen (Stdio (mkStdio (command c) (args c) (env c) None None (restart c)))).
  - destruct c. apply (Hgen (SSE _)).
Qed.

Lemma processConnections_loop_accepts URLp entries processed :
  (forall n config, In (n, config) entries -> rejects URLp n config = false) ->
  exists result log,
    processConnections_loop URLp entries processed = (inr result, log).
Proof.
  revert processed. induction entries as [|[k c] rest IH]; intros processed Hvalid; simpl.
  - eauto.
  - assert (Hrest : forall n config, In (n, config) rest -> rejects URLp n config = false)
      by (intros n config Hin; apply Hvalid; now right).
    pose proof (Hvalid k c (or_introl eq_refl)) as Hk. unfold rejects in Hk.
    destruct (typeof c =? "object"); simpl in *.
    + destruct (is_null c); simpl in *.
      * destruct (IH processed Hrest) as (result & log & ->). eauto.
      * destruct (isStdioConnection c).
        -- destruct (processStdioConfig k c); [discriminate|]. now apply IH.
        -- destruct (isSSEConnection c); [|discriminate].
           destruct (processSSEConfig URLp k c); [discriminate|]. now apply IH.
    + destruct (IH processed Hrest) as (result & log & ->). eauto.
Qed.

(** A server entry that is [null] is treated in two ways.  In a
    configuration file it is fatal: [loadConfigFromFile] reads its
    [transport] before any check, so [fromConfigFile] and
    [addConfigFromFile] fail with a wrapped [TypeError] and the client
    is left as it was.  Passed to [addConnections], the same servers
    object is accepted when its other entries are valid, and the [null]
    entry is skipped. *)
Theorem null_server_entry_is_fatal_in_a_file_only w env path fields servers name st :
  assoc "servers" fields = Some (Obj servers) ->
  In (name, Null) servers ->
  (exists text,
      addConfigFromFile (URL_protocol w) env path (inr (Obj fields)) st
      = (Throw (MCPClientError
                  ("Failed to add MCP configuration: TypeError: " ++ text) None), st)
      /\ forall dpath,
          fromConfigFile (URL_protocol w) env path (inr (Obj fields)) dpath None
          = inl (MCPClientError
                   ("Failed to load MCP configuration: TypeError: " ++ text) None))
  /\ ((forall n config, In (n, config) servers ->
                         rejects (URL_protocol w) n config = false) ->
      fst (addConnections w (Obj servers) st) = Return tt).
Proof.
  intros Hservers Hnull.
  assert (Hload : fst (loadConfigFromFile env path (Obj fields))
                  = inl (TypeError "Cannot read properties of null (reading 'transport')")).
  { unfold loadConfigFromFile, has, get. simpl. rewrite Hservers. simpl.
    assert (existsb (fun kv => is_null (snd kv) || is_undefined (snd kv)) servers = true)
      as ->; [|reflexivity].
    apply existsb_exists. exists (name, Null). auto. }
  split.
  - eexists. split.
    + unfold addConfigFromFile, connections_of_file, loadConfigFromPath.
      rewrite Hload. reflexivity.
    + intros dpath.
      unfold fromConfigFile, new_MultiServerMCPClient, tryLoadDefaultConfig,
        connections_of_file, loadConfigFromPath. simpl.
      rewrite Hload. reflexivity.
  - intros Hvalid. unfold addConnections, processConnections. simpl.
    destruct (processConnections_loop_accepts (URL_protocol w) servers [] Hvalid)
      as (result & log & ->). simpl.
    unfold bind, gets, modify. destruct (connections st); reflexivity.
Qed.

Lemma null_server_entry_is_fatal_in_a_file_only_witness :
  fst (addConfigFromFile scheme_protocol example_env "servers.json"
         (inr (Obj [("servers",
                     Obj [("fs", Obj [("command", Str "node")]); ("old", Null)])]))
         two_servers)
  = Throw (MCPClientError
             ("Failed to add MCP configuration: TypeError: "
              ++ "Cannot read properties of null (reading 'transport')") None)
  /\ fst (addConnections scenario_world
            (Obj [("fs", Obj [("command", Str "node")]); ("old", Null)])
            two_servers)
     = Return tt.
Proof.
  destruct (null_server_entry_is_fatal_in_a_file_only scenario_world example_env
              "servers.json"
              [("servers", Obj [("fs", Obj [("command", Str "node")]); ("old", Null)])]
              [("fs", Obj [("command", Str "node")]); ("old", Null)]
              "old" two_servers eq_refl (or_intror (or_introl eq_refl)))
    as [(text & Hadd & _) Hdirect].
  split.
  - change scheme_protocol with (URL_protocol scenario_world). rewrite Hadd.
    vm_compute in Hadd. inversion Hadd. reflexivity.
  - apply Hdirect. intros n config [H|[H|[]]]; inversion H; reflexivity.
Defined.
